(** * dbforge: the slim-dump pipeline

    A shallow embedding of the dump transformation and restore pipeline:
    [lib/files.js] (loadExcludeTables, ensureDirectory), [lib/mysql.js]
    (databaseExists, dropDatabase, createDatabase, getDatabaseInfo,
    importSql, exportSlimSql), [lib/utils.js] (formatFileSize) and the
    ['slim:start'] handler of [electron/ipc-handlers.js].

    Asynchronous code is awaited sequentially by the handler, so every
    [async] function becomes a state-passing function over a [World]
    that holds the database engine, the file system, the log of commands,
    the answers of the spawned processes, the progress channel and the
    clock.  A rejected promise or a [throw] is the result [Throw]; an
    ['error'] event of a stream that has no listener is the result
    [Uncaught]: the exception is raised outside every promise, no
    [try]/[catch] sees it, and the promise being awaited never settles.

    What stands for the surroundings of the code:
    - the engine is a set of database names, compared byte by byte;
      [SHOW DATABASES LIKE] reads the name it is given as a pattern, in
      which [_] and [%] are wild cards; names hold no quote, back-quote
      or backslash;
    - every spawned process runs up to its ['close'] event and answers
      with a [Reply] taken from [script]; when the promise of a dump phase
      settles, what was piped into its file is in the file; a process
      that cannot be spawned and errors of the write streams of the dump
      phases are not represented;
    - [senderWindow.send] does not throw;
    - the connection parameters ([ensureMySQLConfig]) are fixed for the
      run and do not appear in the commands;
    - paths are compared as they are written ([path.join] is used on
      operands that need no normalisation);
    - byte counts and percentages are integers, and [Math.round] is taken
      on the exact quotient (the floating-point product of the code can
      differ from it by one at a tie). *)

From Stdlib Require Import ZArith Ascii DecimalString.
From stdpp Require Import gmap strings list.

Local Open Scope Z_scope.

(* ===================================================================== *)
(** ** JavaScript strings *)
(* ===================================================================== *)

(** Strings are byte strings.  The text of a file is its UTF-8 encoding
    (what [readFile(path, 'utf-8')] decodes, byte order mark included),
    so a character outside the 7-bit range is the two or three bytes
    that encode it. *)
Module Js.

(** The white space that is one byte long: TAB, LF, VT, FF, CR and
    SPACE. *)
Definition is_space (c : ascii) : bool :=
  match c with
  | "009" | "010" | "011" | "012" | "013" | " " => true
  | _ => false
  end%char.

Definition bytes (l : list nat) : string :=
  foldr (λ n s, String (ascii_of_nat n) s) "" l.

(** What [String.prototype.trim] removes, as encoded in a file: the
    one-byte white space, NBSP (C2 A0), OGHAM SPACE MARK (E1 9A 80), the
    spaces EN QUAD to HAIR SPACE (E2 80 80 to E2 80 8A), LINE and
    PARAGRAPH SEPARATOR (E2 80 A8, E2 80 A9), NARROW NBSP (E2 80 AF),
    MEDIUM MATHEMATICAL SPACE (E2 81 9F), IDEOGRAPHIC SPACE (E3 80 80)
    and the byte order mark (EF BB BF). *)
Definition white_space : list string :=
  map bytes
    ([[9]; [10]; [11]; [12]; [13]; [32]; [194; 160]; [225; 154; 128]]
     ++ map (λ d, [226; 128; d]) (seq 128 11)
     ++ [[226; 128; 168]; [226; 128; 169]; [226; 128; 175]; [226; 129; 159];
         [227; 128; 128]; [239; 187; 191]])%nat.

(** [s] without the prefix [p], when it starts with it. *)
Fixpoint drop_prefix (p s : string) : option string :=
  match p, s with
  | "", _ => Some s
  | String a p', String b s' => if Ascii.eqb a b then drop_prefix p' s' else None
  | String _ _, "" => None
  end.

(** [s] without the first of [table] it starts with. *)
Definition drop_any (table : list string) (s : string) : option string :=
  foldr (λ p later, match drop_prefix p s with Some r => Some r | None => later end)
    None table.

(** Drops entries of [table] from the head of [s] as long as there is
    one ([fuel] bounds their number). *)
Fixpoint drop_all (table : list string) (fuel : nat) (s : string) : string :=
  match fuel with
  | O => s
  | S fuel' =>
      match drop_any table s with
      | Some r => drop_all table fuel' r
      | None => s
      end
  end.

Fixpoint reverse (s : string) : string :=
  match s with
  | "" => ""
  | String c r => reverse r +:+ String c ""
  end.

(** [s.trimStart()] *)
Definition trimStart (s : string) : string :=
  drop_all white_space (String.length s) s.

(** [s.trimEnd()]: the same from the other end. *)
Definition trimEnd (s : string) : string :=
  reverse (drop_all (map reverse white_space) (String.length s) (reverse s)).

(** [s.trim()] *)
Definition trim (s : string) : string := trimEnd (trimStart s).

(** [s.split('\n')]: always at least one piece. *)
Fixpoint split_nl (s : string) : list string :=
  match s with
  | "" => [""]
  | String c r =>
      if Ascii.eqb c "010" then "" :: split_nl r
      else match split_nl r with
           | l :: ls => String c l :: ls
           | [] => [String c ""]
           end
  end.

(** [lines.join('\n')], the inverse of [split_nl]. *)
Fixpoint join_nl (ls : list string) : string :=
  match ls with
  | [] => ""
  | [l] => l
  | l :: ls => l +:+ String "010" (join_nl ls)
  end.

Fixpoint has_nl (s : string) : bool :=
  match s with
  | "" => false
  | String c r => Ascii.eqb c "010" || has_nl r
  end.

(** [s.startsWith(p)] *)
Fixpoint startsWith (s p : string) : bool :=
  match p, s with
  | "", _ => true
  | String a p', String b s' => Ascii.eqb a b && startsWith s' p'
  | String _ _, "" => false
  end.

(** A string in a condition: the empty string is falsy. *)
Definition truthy (s : string) : bool :=
  match s with "" => false | _ => true end.

(** [Math.round(a / b)] for [0 < b] on exact quotients: the nearest
    integer, halves towards plus infinity.  The code rounds the
    floating-point value of [(a' / b) * 100], which can fall on the other
    side of a half. *)
Definition round_div (a b : Z) : Z := (2 * a + b) / (2 * b).

(** [`${n}`] for an integer. *)
Definition of_Z (n : Z) : string := NilZero.string_of_int (Z.to_int n).

End Js.

(* ===================================================================== *)
(** ** Paths (Node's [path] module, POSIX separators, no normalisation) *)
(* ===================================================================== *)

Module Path.

Definition sep : ascii := "/"%char.

(** [path.join(dir, name)] *)
Definition join (dir name : string) : string := dir +:+ String sep name.

(** Splits a path at its last separator: directory part (if any) and
    last component. *)
Fixpoint split_last (p : string) : option string * string :=
  match p with
  | "" => (None, "")
  | String c r =>
      match split_last r with
      | (Some d, b) => (Some (String c d), b)
      | (None, b) => if Ascii.eqb c sep then (Some "", b) else (None, String c b)
      end
  end.

(** [path.dirname(p)] *)
Definition dirname (p : string) : string :=
  match split_last p with
  | (Some "", _) => "/"
  | (Some d, _) => d
  | (None, _) => "."
  end.

(** Removes the suffix [ext] of [s] when [s] ends with it. *)
Fixpoint strip_suffix (s ext : string) : option string :=
  if String.eqb s ext then Some ""
  else match s with
       | "" => None
       | String c r => String c <$> strip_suffix r ext
       end.

(** [path.basename(p, ext)]: the last component, without [ext] when it
    ends with [ext] and is not [ext] itself. *)
Definition basename (p ext : string) : string :=
  let b := snd (split_last p) in
  match strip_suffix b ext with
  | Some "" => b
  | Some stem => stem
  | None => b
  end.

(** The prefixes of [p] that end just before a separator. *)
Fixpoint prefixes_at_sep (p : string) : list string :=
  match p with
  | "" => []
  | String c r =>
      (if Ascii.eqb c sep then [""] else []) ++ map (String c) (prefixes_at_sep r)
  end.

Fixpoint ends_with_sep (p : string) : bool :=
  match p with
  | "" => false
  | String c "" => Ascii.eqb c sep
  | String _ r => ends_with_sep r
  end.

(** The directories above [p], outermost first: ["/db"] above
    ["/db/slim"].  The root and empty components name no entry. *)
Definition ancestors (p : string) : list string :=
  List.filter (λ q, negb (String.eqb q "") && negb (ends_with_sep q))
    (prefixes_at_sep p).

End Path.

(* ===================================================================== *)
(** ** The world the pipeline runs in *)
(* ===================================================================== *)

(** A JavaScript [Error]: its [code] (set by the file system) and its
    [message]. *)
Record JsError := mkError { code : option string; message : string }.

Definition Error (msg : string) : JsError := mkError None msg.

(** What a path of the file system holds.  [Broken e] is a path every
    access of which fails with [e] (permissions, a dangling link, ...). *)
Inductive Node :=
| File (data : string)
| Dir
| Broken (e : JsError).

(** What a spawned client or dump utility answers: its exit status, the
    chunks it writes to standard output, its standard error text, for
    the metadata queries the row it returns, and for a client a file is
    piped into the number of chunks at the end of the file that were
    never read from it (none when the client takes its input to the end;
    some when it goes away early, on an error or on a [quit] in the
    file, and the pipe stops reading) and whether a chunk was being
    written to the client when it went away. *)
Record Reply := mkReply {
  exit_code : Z;
  stdout : list string;
  stderr : string;
  row_count : Z;
  row_size : Z;
  unread : nat;
  epipe : bool
}.

Definition ok_reply : Reply := mkReply 0 [] "" 0 0 0 false.

(** One message on the progress channel. *)
Record ProgressEvent := mkEvent {
  current : nat;
  total : nat;
  currentFile : option string;
  step : string;
  stepProgress : option Z
}.

(** The commands given to the engine. *)
Inductive Cmd :=
| CmdExists (name : string)
| CmdDrop (name : string)
| CmdCreate (name : string)
| CmdImport (name file : string)
| CmdDumpStructure (name : string)
| CmdDumpData (name : string) (ignored : list string)
| CmdInfo (name : string).

(** What a progress callback can reach: the sender window and the clock. *)
Record Host := mkHost {
  sent : list ProgressEvent;    (** progress channel, latest first *)
  clock : list Z                (** the coming readings of [Date.now()] *)
}.

Record World := mkWorld {
  dbs : gset string;            (** databases present in the engine *)
  files : gmap string Node;     (** the file system *)
  log : list Cmd;               (** commands run so far, latest first *)
  script : list Reply;          (** the coming answers of the processes *)
  host : Host
}.

Definition set_dbs (f : gset string → gset string) (w : World) : World :=
  mkWorld (f (dbs w)) (files w) (log w) (script w) (host w).
Definition set_files (f : gmap string Node → gmap string Node) (w : World) : World :=
  mkWorld (dbs w) (f (files w)) (log w) (script w) (host w).
Definition set_host (h : Host) (w : World) : World :=
  mkWorld (dbs w) (files w) (log w) (script w) h.
Definition push_log (c : Cmd) (w : World) : World :=
  mkWorld (dbs w) (files w) (c :: log w) (script w) (host w).
Definition push_sent (e : ProgressEvent) (h : Host) : Host :=
  mkHost (e :: sent h) (clock h).

(** Events in the order they were sent. *)
Definition emitted (w : World) : list ProgressEvent := rev (sent (host w)).

(* ===================================================================== *)
(** ** Awaited computations *)
(* ===================================================================== *)

(** How an awaited computation ends: with a value, with an exception
    that the enclosing [try] can catch, or never, an exception having
    been raised outside the promise (an ['error'] event without a
    listener). *)
Inductive Res (A : Type) :=
| Ok (a : A)
| Throw (e : JsError)
| Uncaught (e : JsError).
Arguments Ok {A} a.
Arguments Throw {A} e.
Arguments Uncaught {A} e.

Definition res_value {A} (r : Res A) : option A :=
  match r with Ok a => Some a | Throw _ | Uncaught _ => None end.

Definition M (A : Type) : Type := World → Res A * World.

Definition ret {A} (a : A) : M A := λ w, (Ok a, w).
Definition throw {A} (e : JsError) : M A := λ w, (Throw e, w).

Definition bind {A B} (m : M A) (k : A → M B) : M B :=
  λ w, match m w with
       | (Ok a, w') => k a w'
       | (Throw e, w') => (Throw e, w')
       | (Uncaught e, w') => (Uncaught e, w')
       end.

(** [try { m } catch (error) { h error }] *)
Definition try_catch {A} (m : M A) (h : JsError → M A) : M A :=
  λ w, match m w with
       | (Ok a, w') => (Ok a, w')
       | (Throw e, w') => h e w'
       | (Uncaught e, w') => (Uncaught e, w')
       end.

(** [await p.catch(() => {})] *)
Definition swallow (m : M unit) : M unit := try_catch m (λ _, ret tt).

Notation "'let!' x ':=' c 'in' k" := (bind c (λ x, k))
  (at level 10, x pattern, c at level 100, k at level 200).
Notation "'do!' c 'in' k" := (bind c (λ _, k))
  (at level 10, c at level 100, k at level 200).

(** [Date.now()] *)
Definition Date_now (h : Host) : Z * Host :=
  match clock h with
  | [] => (0, h)
  | t :: ts => (t, mkHost (sent h) ts)
  end.

(** The answer of the next spawned process. *)
Definition next_reply (w : World) : Reply * World :=
  match script w with
  | [] => (ok_reply, w)
  | r :: rs => (r, mkWorld (dbs w) (files w) (log w) rs (host w))
  end.

(** [senderWindow.send(progressChannel, event)] *)
Definition send (e : ProgressEvent) : M unit :=
  λ w, (Ok tt, set_host (push_sent e (host w)) w).

(* ===================================================================== *)
(** ** File system ([fs/promises]) *)
(* ===================================================================== *)

Definition ENOENT (op path : string) : JsError :=
  mkError (Some "ENOENT")
    ("ENOENT: no such file or directory, " +:+ op +:+ " '" +:+ path +:+ "'").
Definition EISDIR (op : string) : JsError :=
  mkError (Some "EISDIR") ("EISDIR: illegal operation on a directory, " +:+ op).
Definition EPIPE : JsError := mkError (Some "EPIPE") "write EPIPE".

(** [fs.readFile(path, 'utf-8')] *)
Definition readFile (path : string) : M string :=
  λ w, match files w !! path with
       | Some (File data) => (Ok data, w)
       | Some Dir => (Throw (EISDIR "read"), w)
       | Some (Broken e) => (Throw e, w)
       | None => (Throw (ENOENT "open" path), w)
       end.

(** [(await fs.stat(path)).size] *)
Definition stat_size (path : string) : M Z :=
  λ w, match files w !! path with
       | Some (File data) => (Ok (Z.of_nat (String.length data)), w)
       | Some Dir => (Ok 0, w)
       | Some (Broken e) => (Throw e, w)
       | None => (Throw (ENOENT "stat" path), w)
       end.

(** [fs.access(path)] *)
Definition access (path : string) : M unit :=
  λ w, match files w !! path with
       | Some (File _) | Some Dir => (Ok tt, w)
       | Some (Broken e) => (Throw e, w)
       | None => (Throw (ENOENT "access" path), w)
       end.

(** What stands in the way of creating [path] and the directories of
    [above]: a regular file or a broken entry. *)
Fixpoint mkdir_obstacle (above : list string) (path : string)
    (fs : gmap string Node) : option JsError :=
  match above with
  | [] =>
      match fs !! path with
      | Some (File _) =>
          Some (mkError (Some "EEXIST")
                  ("EEXIST: file already exists, mkdir '" +:+ path +:+ "'"))
      | Some (Broken e) => Some e
      | Some Dir | None => None
      end
  | q :: above' =>
      match fs !! q with
      | Some (File _) =>
          Some (mkError (Some "ENOTDIR")
                  ("ENOTDIR: not a directory, mkdir '" +:+ path +:+ "'"))
      | Some (Broken e) => Some e
      | Some Dir | None => mkdir_obstacle above' path fs
      end
  end.

(** [fs.mkdir(path, { recursive: true })]: the directory and every
    missing directory above it are created. *)
Definition mkdir (path : string) : M unit :=
  λ w, match mkdir_obstacle (Path.ancestors path) path (files w) with
       | Some e => (Throw e, w)
       | None =>
           (Ok tt,
            set_files (λ fs, foldr (λ q, insert q Dir) fs (Path.ancestors path ++ [path]))
              w)
       end.

(** [fs.unlink(path)] *)
Definition unlink (path : string) : M unit :=
  λ w, match files w !! path with
       | Some (File _) => (Ok tt, set_files (delete path) w)
       | Some Dir => (Throw (EISDIR "unlink"), w)
       | Some (Broken e) => (Throw e, w)
       | None => (Throw (ENOENT "unlink" path), w)
       end.

(* ===================================================================== *)
(** ** [lib/files.js] *)
(* ===================================================================== *)

(** The filter of [loadExcludeTables]: [line && !line.startsWith('#')]. *)
Definition is_table_line (line : string) : bool :=
  Js.truthy line && negb (Js.startsWith line "#").

Definition loadExcludeTables (configPath : string) : M (list string) :=
  try_catch
    (let! content := readFile configPath in
     let lines := Js.split_nl content in
     ret (List.filter is_table_line (map Js.trim lines)))
    (λ error,
       if decide (code error = Some "ENOENT") then ret [] else throw error).

Definition ensureDirectory (directory : string) : M unit :=
  try_catch (access directory) (λ _, mkdir directory).

(* ===================================================================== *)
(** ** [lib/utils.js] *)
(* ===================================================================== *)

Definition pad2 (n : Z) : string :=
  if n <? 10 then "0" +:+ Js.of_Z n else Js.of_Z n.

(** [(a / b).toFixed(2)] for [b] a power of two, where the quotient is
    exact: the nearest multiple of 0.01, halves upwards. *)
Definition toFixed2 (a b : Z) : string :=
  let n := Js.round_div (100 * a) b in
  Js.of_Z (n / 100) +:+ "." +:+ pad2 (n mod 100).

Definition formatFileSize (bytes : Z) : string :=
  if bytes <? 1024 then Js.of_Z bytes +:+ " B"
  else if bytes <? 1024 * 1024 then toFixed2 bytes 1024 +:+ " KB"
  else if bytes <? 1024 * 1024 * 1024 then toFixed2 bytes (1024 * 1024) +:+ " MB"
  else toFixed2 bytes (1024 * 1024 * 1024) +:+ " GB".

(* ===================================================================== *)
(** ** [lib/mysql.js] *)
(* ===================================================================== *)

(** *** The engine behind the command-line client

    [DROP] of an absent database, [CREATE] of a present one and any use
    of an absent one make the client exit with an error. *)

(** [name LIKE pattern]: [%] stands for any run of characters and [_]
    for any one character. *)
Fixpoint like (pattern : string) : string → bool :=
  match pattern with
  | "" => λ name, match name with "" => true | _ => false end
  | String c pattern' =>
      if Ascii.eqb c "%" then
        fix any (name : string) : bool :=
          like pattern' name
          || match name with "" => false | String _ name' => any name' end
      else if Ascii.eqb c "_" then
        λ name, match name with "" => false | String _ name' => like pattern' name' end
      else
        λ name, match name with
                | "" => false
                | String d name' => Ascii.eqb c d && like pattern' name'
                end
  end.

(** The rows of [SHOW DATABASES LIKE 'pattern']. *)
Definition show_databases_like (pattern : string) (d : gset string) : list string :=
  List.filter (like pattern) (elements d).

Definition engine_rejects (c : Cmd) (d : gset string) : option string :=
  match c with
  | CmdDrop n =>
      if decide (n ∈ d) then None
      else Some ("ERROR 1008 (HY000) at line 1: Can't drop database '" +:+ n
                 +:+ "'; database doesn't exist")
  | CmdCreate n =>
      if decide (n ∈ d)
      then Some ("ERROR 1007 (HY000) at line 1: Can't create database '" +:+ n
                 +:+ "'; database exists")
      else None
  | CmdImport n _ | CmdDumpStructure n | CmdDumpData n _ =>
      if decide (n ∈ d) then None
      else Some ("ERROR 1049 (42000): Unknown database '" +:+ n +:+ "'")
  | CmdExists _ | CmdInfo _ => None
  end.

Definition engine_apply (c : Cmd) (d : gset string) : gset string :=
  match c with
  | CmdDrop n => d ∖ {[n]}
  | CmdCreate n => {[n]} ∪ d
  | _ => d
  end.

(** [spawn(...)]: the command starts. *)
Definition launch (c : Cmd) (w : World) : World := push_log c w.

(** The ['close'] event: the exit status and output of the process, after
    the engine has carried out or rejected the command. *)
Definition wait (c : Cmd) (w : World) : Reply * World :=
  let (r, w1) := next_reply w in
  if exit_code r =? 0 then
    match engine_rejects c (dbs w1) with
    | Some msg => (mkReply 1 [] msg 0 0 (unread r) (epipe r), w1)
    | None => (r, set_dbs (engine_apply c) w1)
    end
  else (r, w1).

(** *** Progress callbacks

    A callback is a closure over variables of its caller ([S] holds
    them); it reads the clock and sends events, and does not throw. *)
Definition Callback (S : Type) : Type := Z → S → Host → S * Host.

(** [if (onProgress) onProgress(n)] *)
Definition call {S} (onProgress : option (Callback S)) (n : Z) (s : S) (h : Host)
  : S * Host :=
  match onProgress with
  | Some cb => cb n s h
  | None => (s, h)
  end.

(** The ['data'] events of a stream: the running byte count is advanced
    by the length of each chunk and [report]ed to the callback. *)
Fixpoint on_data {S} (onProgress : option (Callback S)) (report : Z → Z)
    (chunks : list Z) (bytes : Z) (s : S) (h : Host) : S * Host :=
  match chunks with
  | [] => (s, h)
  | n :: rest =>
      let bytes' := bytes + n in
      let (s', h') := call onProgress (report bytes') s h in
      on_data onProgress report rest bytes' s' h'
  end.

(** Chunk lengths of [createReadStream] over [n] bytes (64 KiB buffers). *)
Definition highWaterMark : Z := 65536.

Fixpoint read_chunks_go (fuel : nat) (n : Z) : list Z :=
  match fuel with
  | O => []
  | S fuel' =>
      if n <=? 0 then []
      else if n <=? highWaterMark then [n]
      else highWaterMark :: read_chunks_go fuel' (n - highWaterMark)
  end.

Definition read_chunks (data : string) : list Z :=
  let n := Z.of_nat (String.length data) in
  read_chunks_go (S (Z.to_nat (n / highWaterMark))) n.

Definition chunk_lengths (chunks : list string) : list Z :=
  map (λ c, Z.of_nat (String.length c)) chunks.

Definition concat_chunks (chunks : list string) : string :=
  foldr String.append "" chunks.

(** *** Workspace commands *)

(** The client prints a header and one line per row; [lines.length > 1]
    holds when there is a row. *)
Definition databaseExists (dbName : string) : M bool :=
  λ w, let (r, w1) := wait (CmdExists dbName) (launch (CmdExists dbName) w) in
       if exit_code r =? 0
       then (Ok (0 <? length (show_databases_like dbName (dbs w1)))%nat, w1)
       else (Throw (Error ("MySQL check database failed: " +:+ stderr r)), w1).

Definition dropDatabase (dbName : string) : M unit :=
  λ w, let (r, w1) := wait (CmdDrop dbName) (launch (CmdDrop dbName) w) in
       if exit_code r =? 0 then (Ok tt, w1)
       else (Throw (Error ("MySQL drop database failed: " +:+ stderr r)), w1).

Definition createDatabase (dbName : string) : M unit :=
  λ w, let (r, w1) := wait (CmdCreate dbName) (launch (CmdCreate dbName) w) in
       if exit_code r =? 0 then (Ok tt, w1)
       else (Throw (Error ("MySQL create database failed: " +:+ stderr r)), w1).

Record DatabaseInfo := mkInfo { tableCount : Z; sizeMB : Z }.

(** The two metadata queries, over the driver's connection; the reply
    carries the count and the size they return, or the error. *)
Definition getDatabaseInfo (dbName : string) : M DatabaseInfo :=
  λ w, let (r, w1) := wait (CmdInfo dbName) (launch (CmdInfo dbName) w) in
       if exit_code r =? 0 then (Ok (mkInfo (row_count r) (row_size r)), w1)
       else (Throw (Error (stderr r)), w1).

(** *** Import

    The read stream of the file is piped into the client and the
    callback is given the running byte count at each chunk read; the
    promise settles at ['close'] by the exit status.  The client may go
    away after any number of chunks, and the pipe then stops the stream:
    quietly when its exit is noticed first, and with an ['error'] of the
    client's input ([EPIPE]) when a chunk was being written.  Nothing
    listens to that error, nor to the ['error'] the read stream emits
    when the path cannot be read (the client has then been spawned and
    waits for its input): the promise never settles. *)

Definition chunks_piped (r : Reply) (data : string) : list Z :=
  take (length (read_chunks data) - unread r) (read_chunks data).

Definition importSql {S} (dbName sqlFile : string)
    (onProgress : option (Callback S)) (s : S) : M S :=
  λ w,
    let w0 := launch (CmdImport dbName sqlFile) w in
    match files w0 !! sqlFile with
    | Some (File data) =>
        let (r, w1) := wait (CmdImport dbName sqlFile) w0 in
        let (s1, h1) :=
          on_data onProgress (λ n, n) (chunks_piped r data) 0 s (host w1) in
        if epipe r then (Uncaught EPIPE, set_host h1 w1)
        else if exit_code r =? 0 then (Ok s1, set_host h1 w1)
        else (Throw (Error ("MySQL import failed: " +:+ stderr r)), set_host h1 w1)
    | Some Dir => (Uncaught (EISDIR "read"), w0)
    | Some (Broken e) => (Uncaught e, w0)
    | None => (Uncaught (ENOENT "open" sqlFile), w0)
    end.

(** *** Slim export *)

Definition structureFile_of (outFile : string) (now : Z) : string :=
  Path.join (Path.dirname outFile) ("._temp_structure_" +:+ Js.of_Z now +:+ ".sql").

Definition dataFile_of (outFile : string) (now : Z) : string :=
  Path.join (Path.dirname outFile) ("._temp_data_" +:+ Js.of_Z now +:+ ".sql").

(** What the structure phase and the data phase pass to [onProgress]
    when [bytesWritten] bytes of the phase have been written. *)
Definition structure_report (bytesWritten : Z) : Z := bytesWritten / 2.
Definition data_report (bytesWritten : Z) : Z := bytesWritten / 2 + bytesWritten.

(** One [mysqldump] run piped into [target]: the file is created or
    truncated and receives every chunk of standard output, also when the
    run ends with a non-zero status. *)
Definition dump_phase {S} (c : Cmd) (target : string) (report : Z → Z)
    (failure : string) (onProgress : option (Callback S)) (s : S) : M S :=
  λ w,
    let (r, w1) := wait c (launch c w) in
    let w2 := set_files (insert target (File (concat_chunks (stdout r)))) w1 in
    let (s1, h3) :=
      on_data onProgress report (chunk_lengths (stdout r)) 0 s (host w2) in
    if exit_code r =? 0 then (Ok s1, set_host h3 w2)
    else (Throw (Error (failure +:+ stderr r)), set_host h3 w2).

Definition export_structure {S} (dbName structureFile : string)
    (onProgress : option (Callback S)) (s : S) : M S :=
  dump_phase (CmdDumpStructure dbName) structureFile structure_report
    "MySQL structure export failed: " onProgress s.

Definition export_data {S} (dbName dataFile : string) (excludeDataTables : list string)
    (onProgress : option (Callback S)) (s : S) : M S :=
  dump_phase (CmdDumpData dbName excludeDataTables) dataFile data_report
    "MySQL data export failed: " onProgress s.

(** Appends to an open write stream. *)
Definition append_file (path data : string) (w : World) : World :=
  match files w !! path with
  | Some (File old) => set_files (insert path (File (old +:+ data))) w
  | _ => set_files (insert path (File data)) w
  end.

(** Phase 3: the output stream is opened, the structure file is piped
    into it and then the data file. *)
Definition concatenate (outFile structureFile dataFile : string) : M unit :=
  λ w,
    match files w !! outFile with
    | Some Dir => (Throw (EISDIR "open"), w)
    | Some (Broken e) => (Throw e, w)
    | _ =>
        let w1 := set_files (insert outFile (File "")) w in
        match readFile structureFile w1 with
        | (Throw e, w2) => (Throw e, w2)
        | (Uncaught e, w2) => (Uncaught e, w2)
        | (Ok a, w2) =>
            let w3 := append_file outFile a w2 in
            match readFile dataFile w3 with
            | (Throw e, w4) => (Throw e, w4)
            | (Uncaught e, w4) => (Uncaught e, w4)
            | (Ok b, w4) => (Ok tt, append_file outFile b w4)
            end
        end
    end.

Definition remove_temps (structureFile dataFile : string) : M unit :=
  do! swallow (unlink structureFile) in
  swallow (unlink dataFile).

(** The two temporary paths, named after two readings of the clock. *)
Definition temp_names (outFile : string) (w : World) : string * string * World :=
  let (t1, h1) := Date_now (host w) in
  let (t2, h2) := Date_now h1 in
  (structureFile_of outFile t1, dataFile_of outFile t2, set_host h2 w).

Definition exportSlimSql {S} (dbName outFile : string) (excludeDataTables : list string)
    (onProgress : option (Callback S)) (s : S) : M S :=
  λ w,
    let '(structureFile, dataFile, wb) := temp_names outFile w in
    try_catch
      (let! s1 := export_structure dbName structureFile onProgress s in
       let! s2 := export_data dbName dataFile excludeDataTables onProgress s1 in
       do! concatenate outFile structureFile dataFile in
       do! remove_temps structureFile dataFile in
       ret s2)
      (λ error,
         do! remove_temps structureFile dataFile in
         throw error)
      wb.

(* ===================================================================== *)
(** ** [electron/ipc-handlers.js]: the ['slim:start'] handler *)
(* ===================================================================== *)

Record RestoreConfig := mkRestoreConfig {
  enabled : bool;
  databaseNames : gmap string string
}.

Record RestoreInfo := mkRestoreInfo {
  databaseName : string;
  restoredTableCount : Z;
  restoredSize : Z
}.

(** One entry of [results].  [savings] is [None] when the quotient is not
    a finite number (an empty input file). *)
Inductive ItemResult :=
| ItemOk (fileName fullSize slimSize : string) (savings : option Z)
         (slimPath : string) (restored : option RestoreInfo)
| ItemFailed (fileName error : string).

Definition success (r : ItemResult) : bool :=
  match r with ItemOk _ _ _ _ _ _ => true | ItemFailed _ _ => false end.

Definition fileName_of (r : ItemResult) : string :=
  match r with ItemOk n _ _ _ _ _ => n | ItemFailed n _ => n end.

Definition slimPath_of (r : ItemResult) : option string :=
  match r with ItemOk _ _ _ _ p _ => Some p | ItemFailed _ _ => None end.

Definition error_of (r : ItemResult) : option string :=
  match r with ItemOk _ _ _ _ _ _ => None | ItemFailed _ e => Some e end.

(** The variables captured by a progress callback of the handler:
    [lastPercentage] and [lastProgressUpdate] (and their namesakes of the
    export and restore steps). *)
Record Throttle := mkThrottle { lastPercentage : Z; lastUpdate : Z }.

Definition throttle0 : Throttle := mkThrottle 0 0.

(** [fileSize > 0 ? Math.round((bytesProcessed / fileSize) * 100) : 0] *)
Definition import_percentage (fileSize bytesProcessed : Z) : Z :=
  if 0 <? fileSize then Js.round_div (bytesProcessed * 100) fileSize else 0.

(** The condition under which the import callbacks send an event. *)
Definition import_emits (percentage now : Z) (st : Throttle) : bool :=
  negb (percentage =? lastPercentage st)
  && ((1 <=? percentage - lastPercentage st) || (200 <? now - lastUpdate st)).

(** The callback given to [importSql], for the import of the full dump
    and for the restore of the slim dump. *)
Definition import_progress (i n : nat) (baseName label : string) (fileSize : Z)
  : Callback Throttle :=
  λ bytesProcessed st h,
    let percentage := import_percentage fileSize bytesProcessed in
    let (now, h1) := Date_now h in
    if import_emits percentage now st
    then (mkThrottle percentage now,
          push_sent (mkEvent i n (Some baseName) label (Some percentage)) h1)
    else (st, h1).

(** [Math.min(95, Math.floor(bytesProcessed / (1024 * 1024)))] *)
Definition export_percentage (bytesProcessed : Z) : Z :=
  Z.min 95 (bytesProcessed / (1024 * 1024)).

Definition export_emits (percentage now : Z) (st : Throttle) : bool :=
  negb (percentage =? lastPercentage st) || (200 <? now - lastUpdate st).

Definition export_label : string := "Exporting slim dump...".

(** The callback given to [exportSlimSql]. *)
Definition export_progress (i n : nat) (baseName : string) : Callback Throttle :=
  λ bytesProcessed st h,
    let percentage := export_percentage bytesProcessed in
    let (now, h1) := Date_now h in
    if export_emits percentage now st
    then (mkThrottle percentage now,
          push_sent (mkEvent i n (Some baseName) export_label (Some percentage)) h1)
    else (st, h1).

Definition recreate (dbName : string) : M unit :=
  let! present := databaseExists dbName in
  do! (if present then dropDatabase dbName else ret tt) in
  createDatabase dbName.

Section Item.

(** The variables of one iteration of the loop. *)
Variables (i n : nat) (fullSqlPath slimDir : string).
Variable excludeTables : list string.
Variable restoreConfig : option RestoreConfig.

Definition baseName : string := Path.basename fullSqlPath ".sql".
Definition tempDbName : string := baseName +:+ "_temp".
Definition slimPath : string := Path.join slimDir (baseName +:+ "_slim.sql").

Definition progress (label : string) (pct : Z) : M unit :=
  send (mkEvent i n (Some baseName) label (Some pct)).

(** Temp database, import of the full dump, slim export, cleanup. *)
Definition slim_steps : M unit :=
  do! progress "Creating temp database..." 0 in
  do! recreate tempDbName in
  do! progress "Creating temp database..." 100 in
  let! fileSize := stat_size fullSqlPath in
  do! progress "Importing full dump..." 0 in
  let! _ := importSql tempDbName fullSqlPath
              (Some (import_progress i n baseName "Importing full dump..." fileSize))
              throttle0 in
  do! progress export_label 0 in
  let! _ := exportSlimSql tempDbName slimPath excludeTables
              (Some (export_progress i n baseName)) throttle0 in
  do! progress "Cleaning up..." 0 in
  do! dropDatabase tempDbName in
  progress "Cleaning up..." 100.

(** [restoreConfig.databaseNames[fullSqlPath]] when a restore is asked
    for and the name is not empty. *)
Definition restore_target : option string :=
  match restoreConfig with
  | Some rc =>
      if enabled rc then
        match databaseNames rc !! fullSqlPath with
        | Some t => if Js.truthy t then Some t else None
        | None => None
        end
      else None
  | None => None
  end.

Definition restore_label (targetDbName : string) : string :=
  "Restoring to " +:+ targetDbName +:+ "...".

Definition restore_to (targetDbName : string) : M RestoreInfo :=
  do! progress (restore_label targetDbName) 0 in
  do! recreate targetDbName in
  let! slimFileSize := stat_size slimPath in
  let! _ := importSql targetDbName slimPath
              (Some (import_progress i n baseName (restore_label targetDbName)
                       slimFileSize))
              throttle0 in
  let! dbInfo := getDatabaseInfo targetDbName in
  ret (mkRestoreInfo targetDbName (tableCount dbInfo) (sizeMB dbInfo)).

Definition restore_step : M (option RestoreInfo) :=
  match restore_target with
  | Some targetDbName => let! info := restore_to targetDbName in ret (Some info)
  | None => ret None
  end.

(** [Math.round((1 - slim / full) * 100)] *)
Definition savings_of (full slim : Z) : option Z :=
  if 0 <? full then Some (Js.round_div ((full - slim) * 100) full) else None.

Definition report (restoreInfo : option RestoreInfo) : M ItemResult :=
  let! full := stat_size fullSqlPath in
  let! slim := stat_size slimPath in
  ret (ItemOk baseName (formatFileSize full) (formatFileSize slim)
         (savings_of full slim) slimPath restoreInfo).

(** The body of the [try] block. *)
Definition item_body : M ItemResult :=
  do! slim_steps in
  let! restoreInfo := restore_step in
  report restoreInfo.

(** The failure handler's drop of the temp database, and the
    [try { ... } catch {}] around it. *)
Definition cleanup_attempt : M unit :=
  let! present := databaseExists tempDbName in
  if present then dropDatabase tempDbName else ret tt.

Definition cleanup : M unit := swallow cleanup_attempt.

Definition on_error (error : JsError) : M ItemResult :=
  do! cleanup in
  ret (ItemFailed baseName (message error)).

(** One iteration: the entry pushed onto [results]. *)
Definition slim_item : M ItemResult := try_catch item_body on_error.

End Item.

(** [for (let i = 0; i < files.length; i++) { ... }], started at index [i]
    with [rest] still to process. *)
Fixpoint slim_loop (n : nat) (slimDir : string) (excludeTables : list string)
    (restoreConfig : option RestoreConfig) (i : nat) (rest : list string)
  : M (list ItemResult) :=
  match rest with
  | [] => ret []
  | fullSqlPath :: rest' =>
      let! r := slim_item i n fullSqlPath slimDir excludeTables restoreConfig in
      let! rs := slim_loop n slimDir excludeTables restoreConfig (S i) rest' in
      ret (r :: rs)
  end.

Record SlimResponse := mkResponse { batch_success : bool; results : list ItemResult }.

Definition complete_event (n : nat) : ProgressEvent :=
  mkEvent n n None "Complete" None.

(** The handler; [DB_ROOT] is the configured database directory. *)
Definition slim_start (DB_ROOT : string) (files : list string)
    (restoreConfig : option RestoreConfig) : M SlimResponse :=
  try_catch
    (let configPath := Path.join DB_ROOT "config/exclude-tables.txt" in
     let! excludeTables := loadExcludeTables configPath in
     let slimDir := Path.join DB_ROOT "slim" in
     do! ensureDirectory slimDir in
     let! results :=
       slim_loop (length files) slimDir excludeTables restoreConfig 0 files in
     do! send (complete_event (length files)) in
     ret (mkResponse true results))
    (λ error, throw (Error ("Slim dump failed: " +:+ message error))).

(* ===================================================================== *)
(** ** The exclusion list, as the design describes it *)
(* ===================================================================== *)

(** The white space and the line terminators of the language, by code
    point: TAB, LF, VT, FF, CR, SPACE, NO-BREAK SPACE, OGHAM SPACE MARK,
    EN QUAD to HAIR SPACE, LINE SEPARATOR, PARAGRAPH SEPARATOR, NARROW
    NO-BREAK SPACE, MEDIUM MATHEMATICAL SPACE, IDEOGRAPHIC SPACE and
    ZERO WIDTH NO-BREAK SPACE (the byte order mark). *)
Definition white_space_code_points : list N :=
  [0x9; 0xA; 0xB; 0xC; 0xD; 0x20; 0xA0; 0x1680;
   0x2000; 0x2001; 0x2002; 0x2003; 0x2004; 0x2005; 0x2006; 0x2007; 0x2008;
   0x2009; 0x200A; 0x2028; 0x2029; 0x202F; 0x205F; 0x3000; 0xFEFF]%N.

(** UTF-8 of a code point below 0x10000. *)
Definition utf8 (cp : N) : string :=
  (if cp <? 0x80 then String (ascii_of_N cp) ""
   else if cp <? 0x800 then
     String (ascii_of_N (0xC0 + cp / 0x40))
       (String (ascii_of_N (0x80 + cp mod 0x40)) "")
   else
     String (ascii_of_N (0xE0 + cp / 0x1000))
       (String (ascii_of_N (0x80 + (cp / 0x40) mod 0x40))
          (String (ascii_of_N (0x80 + cp mod 0x40)) "")))%N.

(** The white-space characters, as a file holds them. *)
Definition space_chars : list string := map utf8 white_space_code_points.

(** [s] is a sequence of entries of [table]. *)
Inductive made_of (table : list string) : string → Prop :=
| made_nil : made_of table ""
| made_cons p s : p ∈ table → made_of table s → made_of table (p +:+ s).

(** [s] is made of white space only. *)
Definition blank : string → Prop := made_of space_chars.

(** [t] is the line [l] without its leading and trailing white space:
    [t] neither starts nor ends with a white-space character. *)
Definition trimmed_of (l t : string) : Prop :=
  ∃ a b, l = a +:+ t +:+ b
    ∧ blank a ∧ blank b
    ∧ (∀ p r, p ∈ space_chars → t ≠ p +:+ r)
    ∧ (∀ p r, p ∈ space_chars → t ≠ r +:+ p).

(** Blank lines and lines beginning with the comment marker are
    discarded; the other lines are trimmed and kept, in order. *)
Inductive exclusion_lines : list string → list string → Prop :=
| excl_nil : exclusion_lines [] []
| excl_blank l ls ns :
    trimmed_of l "" → exclusion_lines ls ns → exclusion_lines (l :: ls) ns
| excl_comment l t ls ns :
    trimmed_of l (String "#" t) →
    exclusion_lines ls ns → exclusion_lines (l :: ls) ns
| excl_table l t ls ns :
    trimmed_of l t → t ≠ "" → (∀ r, t ≠ String "#" r) →
    exclusion_lines ls ns → exclusion_lines (l :: ls) (t :: ns).

(** The artifact [content] read as lines. *)
Definition lines_of (content : string) (lines : list string) : Prop :=
  Js.join_nl lines = content ∧ lines ≠ [] ∧ Forall (λ l, Js.has_nl l = false) lines.

(* ===================================================================== *)
(** ** What a run adds to the command log and to the progress channel *)
(* ===================================================================== *)

(** The commands of the transformation of [full] in the workspace [temp]:
    all of them address [temp], and the only import is that of [full]. *)
Definition workspace_cmd (temp full : string) (c : Cmd) : Prop :=
  match c with
  | CmdExists d | CmdDrop d | CmdCreate d | CmdDumpStructure d | CmdDumpData d _ =>
      d = temp
  | CmdImport d p => d = temp ∧ p = full
  | CmdInfo _ => False
  end.

(** The phase labels of the transformation; a restore is announced under
    a label of its own, [restore_label]. *)
Definition slim_labels : list string :=
  ["Creating temp database..."; "Importing full dump..."; export_label;
   "Cleaning up..."].

Definition slim_event (e : ProgressEvent) : Prop := step e ∈ slim_labels.

(** From [w] to [w'] the log grew by commands in [P] and the channel by
    events in [Q]. *)
Definition grows (P : Cmd → Prop) (Q : ProgressEvent → Prop) : relation World :=
  λ w w',
    (∃ new, log w' = new ++ log w ∧ Forall P new)
    ∧ (∃ new, sent (host w') = new ++ sent (host w) ∧ Forall Q new).

(** The processes of the next [k] commands end with status zero unless
    the engine itself rejects the command: nothing outside the engine
    (a lost connection, a client that cannot start) makes them fail. *)
Definition answered (k : nat) (w : World) : Prop :=
  Forall (λ r, exit_code r = 0) (take k (script w)).

(** The percentages sent under [label], in the order they were sent. *)
Definition percentages (label : string) (w : World) : list Z :=
  omap (λ e, if decide (step e = label) then stepProgress e else None) (emitted w).

(* ===================================================================== *)
(** ** Scenarios *)
(* ===================================================================== *)

Module Scenario.

Definition nl : string := String "010" "".

Definition full : string := "/db/full/shop.sql".
Definition missing : string := "/db/full/missing.sql".
Definition config : string := "/db/config/exclude-tables.txt".
Definition slim : string := "/db/slim/shop_slim.sql".

Definition config_text : string :=
  "sessions" +:+ nl +:+ "  cache  " +:+ nl +:+ "# volatile" +:+ nl +:+ nl
  +:+ " #logs" +:+ nl +:+ "audit log".

Definition disk : gmap string Node :=
  {[ full := File "INSERT INTO orders VALUES (1);";
     config := File config_text;
     "/db/slim" := Dir ]}.

Definition schema_dump : Reply := mkReply 0 ["CREATE TABLE orders;"; "CREATE TABLE sessions;"] "" 0 0 0 false.
Definition data_dump : Reply := mkReply 0 ["INSERT INTO orders;"] "" 0 0 0 false.
Definition refused (msg : string) : Reply := mkReply 1 [] msg 0 0 0 false.

Definition ticks : list Z := [1000; 1001; 1300; 1600; 1900; 2200; 2500; 2800].

Definition world (answers : list Reply) : World :=
  mkWorld ∅ disk [] answers (mkHost [] ticks).

(** Every command succeeds: exists, create, import, the two dumps. *)
Definition calm : World :=
  world [ok_reply; ok_reply; ok_reply; schema_dump; data_dump].

(** The import of the full dump fails, and so does the drop of the
    failure handler. *)
Definition stuck_workspace : World :=
  world [ok_reply; ok_reply; refused "ERROR 2013: Lost connection";
         ok_reply; refused "ERROR 2013: Lost connection"].

(** The transformation succeeds; the import of the restore fails. *)
Definition failed_restore : World :=
  world [ok_reply; ok_reply; ok_reply; schema_dump; data_dump; ok_reply;
         ok_reply; ok_reply; refused "ERROR 1064: syntax error"].

(** The structure dump fails. *)
Definition failed_structure : World :=
  world [ok_reply; ok_reply; ok_reply;
         mkReply 2 ["CREATE TABLE ord"] "mysqldump: Got error 2013" 0 0 0 false].

Definition to_dev : option RestoreConfig :=
  Some (mkRestoreConfig true {[ full := "shop_dev" ]}).

(** A restore into a database named like the workspace of the item. *)
Definition to_workspace_name : option RestoreConfig :=
  Some (mkRestoreConfig true {[ full := "shop_temp" ]}).

(** The import of the full dump fails; the commands of the failure
    handler succeed. *)
Definition failed_import : World :=
  world [ok_reply; ok_reply; refused "ERROR 1064: syntax error";
         ok_reply; ok_reply].

(** A directory among the dumps. *)
Definition folder : string := "/db/full/archive.sql".

Definition with_folder : World :=
  mkWorld ∅ (<[folder := Dir]> disk) [] [] (mkHost [] ticks).

(** An exclusion file that starts with a byte order mark and pads a
    name with no-break spaces, the line ending in CR LF. *)
Definition bom : string := Js.bytes [239; 187; 191]%nat.
Definition nbsp : string := Js.bytes [194; 160]%nat.

Definition marked_lines : list string :=
  [bom +:+ "# tables left empty";
   nbsp +:+ " sessions" +:+ nbsp +:+ String "013" "";
   "cache"].

Definition marked : World :=
  mkWorld ∅ (<[config := File (Js.join_nl marked_lines)]> disk) [] []
    (mkHost [] ticks).

(** A workspace that exists, for [exportSlimSql] alone. *)
Definition workspace (answers : list Reply) : World :=
  mkWorld {[ "shop_temp" ]} disk [] answers (mkHost [] ticks).

(** A callback that records what it is given, latest first. *)
Definition recorder : Callback (list Z) := λ n seen h, (n :: seen, h).

(** A structure dump of 10 bytes, then a data dump of 2 bytes. *)
Definition small_dumps : World :=
  workspace [mkReply 0 ["0123456789"] "" 0 0 0 false; mkReply 0 ["ab"] "" 0 0 0 false].

(** [2^k] bytes. *)
Definition blob (k : N) : string := N.iter k (λ s, s +:+ s) "x".

(** A structure dump of 2 MiB in one chunk, then a data dump whose
    first chunk has 1 KiB. *)
Definition large_structure : World :=
  world [ok_reply; ok_reply; ok_reply;
         mkReply 0 [blob 21] "" 0 0 0 false; mkReply 0 [blob 10] "" 0 0 0 false].

End Scenario.

Module Run.
Import Scenario.

Definition slimDir : string := "/db/slim".
Definition excluded : list string := ["sessions"; "cache"; "audit log"].

(** The one item of a batch of one. *)
Definition item (rc : option RestoreConfig) (w : World) : Res ItemResult * World :=
  slim_item 0 1 full slimDir excluded rc w.

Definition shop_ok : ItemResult :=
  ItemOk "shop" "30 B" "61 B" (Some (-103)) slim None.

Definition structure_path : string := "/db/slim/._temp_structure_1000.sql".
Definition data_path : string := "/db/slim/._temp_data_1001.sql".

Definition export (w : World) : Res (list Z) * World :=
  exportSlimSql "shop_temp" slim [] (Some recorder) [] w.

Definition broken_dump : World :=
  workspace [mkReply 2 ["CREATE TABLE ord"] "mysqldump: Got error 2013" 0 0 0 false].
End Run.
From Stdlib Require Import Sorted.


(* ===================================================================== *)
(** ** More of [lib/files.js] and [lib/utils.js] *)
(* ===================================================================== *)

(** [path.basename(filename, '.sql').replace(/_slim$/, '')] *)
Definition getDatabaseNameFromFile (filename : string) : string :=
  let baseName := Path.basename filename ".sql" in
  match Path.strip_suffix baseName "_slim" with
  | Some stem => stem
  | None => baseName
  end.

Module Sanitize.

(** [\s] on code units below 256: TAB, LF, VT, FF, CR, SPACE and the
    no-break space. *)
Definition is_regex_space (c : ascii) : bool :=
  Js.is_space c || Ascii.eqb c "160".

(** [name.replace(/\s+/g, '-')]: every maximal run of white space becomes
    one hyphen.  [in_run] tells that the previous character was white
    space. *)
Fixpoint hyphenate (in_run : bool) (s : string) : string :=
  match s with
  | "" => ""
  | String c r =>
      if is_regex_space c
      then (if in_run then hyphenate true r else String "-" (hyphenate true r))
      else String c (hyphenate false r)
  end.

Definition between (lo hi c : ascii) : bool :=
  (nat_of_ascii lo <=? nat_of_ascii c)%nat && (nat_of_ascii c <=? nat_of_ascii hi)%nat.

Definition is_lower (c : ascii) : bool := between "a" "z" c.
Definition is_upper (c : ascii) : bool := between "A" "Z" c.
Definition is_digit (c : ascii) : bool := between "0" "9" c.

(** The class [[a-zA-Z0-9_-]]. *)
Definition is_name_char (c : ascii) : bool :=
  is_lower c || is_upper c || is_digit c || Ascii.eqb c "_" || Ascii.eqb c "-".

(** [s.replace(/[^a-zA-Z0-9_-]/g, '')] *)
Fixpoint keep_name_chars (s : string) : string :=
  match s with
  | "" => ""
  | String c r =>
      if is_name_char c then String c (keep_name_chars r) else keep_name_chars r
  end.

Definition lower_char (c : ascii) : ascii :=
  if is_upper c then ascii_of_nat (nat_of_ascii c + 32) else c.

(** [s.toLowerCase()] on 7-bit text. *)
Fixpoint toLowerCase (s : string) : string :=
  match s with
  | "" => ""
  | String c r => String (lower_char c) (toLowerCase r)
  end.

End Sanitize.

Definition sanitizeFilename (name : string) : string :=
  Sanitize.toLowerCase (Sanitize.keep_name_chars (Sanitize.hyphenate false name)).

(* ===================================================================== *)
(** ** More of [lib/mysql.js]: the connection parameters *)
(* ===================================================================== *)

Module Conn.

(** The settings object given to [setMySQLConfig]; an absent or empty
    field is the empty string, an absent port is 0. *)
Record Settings := mkSettings {
  s_host : string;
  s_port : Z;
  s_user : string;
  s_password : string;
  s_socket : string
}.

(** [connectionConfig]; [socketPath] is [None] for [null]. *)
Record Config := mkConfig {
  c_host : string;
  c_user : string;
  c_password : string;
  c_port : Z;
  c_socketPath : option string
}.

(** [s || d] on strings. *)
Definition or_else (s d : string) : string := if Js.truthy s then s else d.

Definition setMySQLConfig (config : Settings) : Config :=
  mkConfig (or_else (s_host config) "localhost")
           (or_else (s_user config) "root")
           (or_else (s_password config) "")
           (if s_port config =? 0 then 3306 else s_port config)
           (if Js.truthy (s_socket config) then Some (s_socket config) else None).

Definition getMysqlCliArgs (connectionConfig : Config) : list string :=
  ["-u" +:+ c_user connectionConfig]
  ++ (if Js.truthy (c_password connectionConfig)
      then ["-p" +:+ c_password connectionConfig] else [])
  ++ match c_socketPath connectionConfig with
     | Some socketPath =>
         if Js.truthy socketPath then ["--socket=" +:+ socketPath]
         else ["-h" +:+ c_host connectionConfig;
               "-P" +:+ Js.of_Z (c_port connectionConfig)]
     | None => ["-h" +:+ c_host connectionConfig;
                "-P" +:+ Js.of_Z (c_port connectionConfig)]
     end.

End Conn.

(* ===================================================================== *)
(** ** More of [electron/ipc-handlers.js] *)
(* ===================================================================== *)

(** *** ['restore:start']

    The callback of the handler sends [{ bytesProcessed }] on the restore
    channel unless the window is destroyed; messages of that shape are no
    [ProgressEvent], so the callback is left as a parameter. *)
Definition restore_start {S} (dbName sqlFile : string)
    (onProgress : option (Callback S)) (s : S) : M DatabaseInfo :=
  try_catch
    (let! present := databaseExists dbName in
     do! (if present then dropDatabase dbName else ret tt) in
     do! createDatabase dbName in
     let! _ := importSql dbName sqlFile onProgress s in
     let! info := getDatabaseInfo dbName in
     ret info)
    (λ error, throw (Error ("Restore failed: " +:+ message error))).

(** *** ['file:delete'] *)

Fixpoint unlink_each (filePaths : list string) : M unit :=
  match filePaths with
  | [] => ret tt
  | filePath :: rest => do! unlink filePath in unlink_each rest
  end.

(** The handler; its result is the [count] of [{ success: true, count }]. *)
Definition file_delete (filePaths : list string) : M nat :=
  try_catch
    (do! unlink_each filePaths in
     ret (length filePaths))
    (λ error, throw (Error ("Delete failed: " +:+ message error))).

(** *** ['database:bulkDelete'] *)

(** A message [{ current, total, currentDb }] of the bulk-delete channel:
    [currentDb] travels in the place of [currentFile], and there is no
    step. *)
Definition bulk_message (current total : nat) (currentDb : option string)
  : ProgressEvent :=
  mkEvent current total currentDb "" None.

Record BulkResult := mkBulk {
  deleted : list string;
  errors : list (string * string)
}.

(** One iteration: [None] when the name was pushed onto [deleted], the
    message pushed onto [errors] otherwise. *)
Definition bulk_item (n i : nat) (dbName : string) : M (option string) :=
  try_catch
    (do! send (bulk_message (S i) n (Some dbName)) in
     do! dropDatabase dbName in
     ret None)
    (λ error, ret (Some (message error))).

Fixpoint bulk_loop (n i : nat) (rest : list string) : M BulkResult :=
  match rest with
  | [] => ret (mkBulk [] [])
  | dbName :: rest' =>
      let! outcome := bulk_item n i dbName in
      let! later := bulk_loop n (S i) rest' in
      ret (match outcome with
           | None => mkBulk (dbName :: deleted later) (errors later)
           | Some msg => mkBulk (deleted later) ((dbName, msg) :: errors later)
           end)
  end.

Definition bulk_delete (dbNames : list string) : M BulkResult :=
  try_catch
    (let! result := bulk_loop (length dbNames) 0 dbNames in
     do! send (bulk_message (length dbNames) (length dbNames) None) in
     ret result)
    (λ error, throw (Error ("Bulk delete failed: " +:+ message error))).

(* ===================================================================== *)
(** ** The command-line slim flow ([createSlimDump] and its loop) *)
(* ===================================================================== *)

(** [() => {}] *)
Definition no_progress : Callback unit := λ _ s h, (s, h).

Definition cli_slimPath (fullSqlPath : string) : string :=
  "./slim/" +:+ baseName fullSqlPath +:+ "_slim.sql".

(** The [try] block of [createSlimDump]; what it prints is not part of
    the world. *)
Definition cli_steps (fullSqlPath : string) (excludeTables : list string) : M unit :=
  do! recreate (tempDbName fullSqlPath) in
  let! _ := importSql (tempDbName fullSqlPath) fullSqlPath (Some no_progress) tt in
  let! _ := exportSlimSql (tempDbName fullSqlPath) (cli_slimPath fullSqlPath)
              excludeTables (Some no_progress) tt in
  do! dropDatabase (tempDbName fullSqlPath) in
  let! fullSize := stat_size fullSqlPath in
  let! slimSize := stat_size (cli_slimPath fullSqlPath) in
  ret tt.

Definition createSlimDump (fullSqlPath : string) (excludeTables : list string)
  : M unit :=
  try_catch (cli_steps fullSqlPath excludeTables)
    (λ error, do! cleanup fullSqlPath in throw error).

(** [for (const file of filesToProcess) await createSlimDump(file, ...)] *)
Fixpoint cli_loop (excludeTables : list string) (filesToProcess : list string)
  : M unit :=
  match filesToProcess with
  | [] => ret tt
  | file :: rest =>
      do! createSlimDump file excludeTables in
      cli_loop excludeTables rest
  end.

(* ===================================================================== *)
(** ** Vocabulary of the further properties *)
(* ===================================================================== *)

Fixpoint all_chars (P : ascii → bool) (s : string) : bool :=
  match s with
  | "" => true
  | String c r => P c && all_chars P r
  end.

(** Lower-case letters, digits, underscore and hyphen. *)
Definition is_safe_char (c : ascii) : bool :=
  Sanitize.is_lower c || Sanitize.is_digit c || Ascii.eqb c "_" || Ascii.eqb c "-".

Definition has_sep (s : string) : bool :=
  negb (all_chars (λ c, negb (Ascii.eqb c Path.sep)) s).

(** [lines.join('\r\n')]: the artifact as an editor with Windows line
    endings saves it. *)
Fixpoint join_crlf (ls : list string) : string :=
  match ls with
  | [] => ""
  | [l] => l
  | l :: ls => l +:+ String "013" (String "010" (join_crlf ls))
  end.

(* ===================================================================== *)
(** ** Statements about the progress channel *)
(* ===================================================================== *)

(** An event of item [k] of a batch of [n], about the full dump [f]. *)
Definition item_event (k n : nat) (f : string) (e : ProgressEvent) : Prop :=
  current e = k ∧ total e = n ∧ currentFile e = Some (baseName f)
  ∧ ∃ p, stepProgress e = Some p ∧ (step e = export_label → p ≤ 95).

(* ===================================================================== *)
(** ** Further scenarios *)
(* ===================================================================== *)

Module More.
Import Scenario.

(** The calm world with [text] as its exclusion file. *)
Definition with_config (text : string) : World :=
  mkWorld ∅ (<[config := File text]> disk) [] [] (mkHost [] ticks).

(** The exclusion file is a directory. *)
Definition unreadable_config : World :=
  mkWorld ∅ (<[config := Dir]> disk) [] [] (mkHost [] ticks).

(** Two databases, every command succeeding. *)
Definition two_databases : World :=
  mkWorld {[ "shop_temp"; "shop_dev" ]} disk [] [] (mkHost [] ticks).

(** The first file of a run goes through (exists, create, import, the
    two dumps, drop); the import of the second is refused. *)
Definition second_import_fails : World :=
  world [ok_reply; ok_reply; ok_reply; schema_dump; data_dump; ok_reply;
         ok_reply; ok_reply; refused "ERROR 1064: syntax error"].

(** A dump of two chunks, and a client that goes away after the first. *)
Definition big : string := "/db/full/big.sql".

Definition cut_short (while_writing : bool) : World :=
  mkWorld {[ "big_temp" ]} (<[big := File (blob 17)]> disk) []
    [mkReply 1 [] "ERROR 2006: MySQL server has gone away" 0 0 1 while_writing]
    (mkHost [] ticks).

(** A database whose name matches ["shop_temp"] read as a pattern. *)
Definition lookalike : World :=
  mkWorld {[ "shop1temp" ]} disk [] [ok_reply; ok_reply] (mkHost [] ticks).

Definition table_lines : list string := ["sessions"; "  cache "; "# volatile"; "audit log"].

End More.

(* ===================================================================== *)
(** * Properties *)
(* ===================================================================== *)

(** ** Strings *)

#[local] Arguments Ascii.eqb : simpl never.
#[local] Arguments String.eqb : simpl never.

Lemma append_nil_l (s : string) : "" +:+ s = s.
Proof. reflexivity. Qed.

Lemma append_cons (c : ascii) (a b : string) : String c a +:+ b = String c (a +:+ b).
Proof. reflexivity. Qed.

Lemma append_nil_r (s : string) : s +:+ "" = s.
Proof. induction s as [|c s IH]; [done|]. by rewrite append_cons, IH. Qed.

Lemma split_nl_not_nil (s : string) : Js.split_nl s ≠ [].
Proof.
  induction s as [|c r IH]; simpl; [done|].
  destruct (Ascii.eqb c "010"); [done|].
  by destruct (Js.split_nl r).
Qed.

Lemma join_split_nl (s : string) : Js.join_nl (Js.split_nl s) = s.
Proof.
  induction s as [|c r IH]; simpl; [done|].
  destruct (Ascii.eqb_spec c "010") as [->|Hc].
  - pose proof (split_nl_not_nil r) as Hne.
    destruct (Js.split_nl r) as [|l ls]; [done|].
    change (Js.join_nl ("" :: l :: ls)) with ("" +:+ String "010" (Js.join_nl (l :: ls))).
    by rewrite IH.
  - pose proof (split_nl_not_nil r) as Hne.
    destruct (Js.split_nl r) as [|l ls]; [done|].
    destruct ls as [|l' ls]; simpl in *; [by rewrite IH|].
    by rewrite append_cons, IH.
Qed.

Lemma split_nl_no_newline (s : string) :
  Forall (λ l, Js.has_nl l = false) (Js.split_nl s).
Proof.
  induction s as [|c r IH]; simpl; [by repeat constructor|].
  destruct (Ascii.eqb_spec c "010") as [->|Hc]; [by constructor|].
  destruct (Js.split_nl r) as [|l ls]; simpl.
  - repeat constructor. simpl. by destruct (Ascii.eqb_spec c "010").
  - inversion IH; subst. constructor; [|done].
    simpl. by destruct (Ascii.eqb_spec c "010").
Qed.

Lemma split_nl_lines (content : string) : lines_of content (Js.split_nl content).
Proof.
  split; [apply join_split_nl|].
  split; [apply split_nl_not_nil | apply split_nl_no_newline].
Qed.

Lemma append_assoc (a b c : string) : (a +:+ b) +:+ c = a +:+ b +:+ c.
Proof. induction a as [|x a IH]; [done|]. by rewrite !append_cons, IH. Qed.

Lemma length_append (a b : string) :
  String.length (a +:+ b) = (String.length a + String.length b)%nat.
Proof. induction a as [|c a IH]; [done|]. rewrite append_cons. simpl. by rewrite IH. Qed.

(** Two ways of cutting one string: one of the heads is a prefix of the
    other. *)
Lemma append_comparable (a x b y : string) :
  a +:+ x = b +:+ y →
  (∃ u, a = b +:+ u ∧ y = u +:+ x) ∨ (∃ u, b = a +:+ u ∧ x = u +:+ y).
Proof.
  revert b. induction a as [|c a IH]; intros b.
  - rewrite append_nil_l. intros ->. right. by exists b.
  - destruct b as [|d b].
    + rewrite append_nil_l. intros <-. left. by exists (String c a).
    + rewrite !append_cons. intros [= <- H].
      destruct (IH b H) as [(u & -> & ->) | (u & -> & ->)]; [left | right];
        by exists u.
Qed.

Lemma reverse_append (a b : string) :
  Js.reverse (a +:+ b) = Js.reverse b +:+ Js.reverse a.
Proof.
  induction a as [|c a IH].
  - by rewrite append_nil_l, append_nil_r.
  - rewrite append_cons. simpl. by rewrite IH, append_assoc.
Qed.

Lemma reverse_involutive (s : string) : Js.reverse (Js.reverse s) = s.
Proof.
  induction s as [|c s IH]; [done|]. simpl. by rewrite reverse_append, IH.
Qed.

Lemma length_reverse (s : string) : String.length (Js.reverse s) = String.length s.
Proof.
  induction s as [|c s IH]; [done|]. simpl. rewrite length_append, IH. simpl. lia.
Qed.

Lemma drop_prefix_Some (p s r : string) : Js.drop_prefix p s = Some r ↔ s = p +:+ r.
Proof.
  revert s. induction p as [|a p IH]; intros s; simpl.
  - rewrite append_nil_l. split; [by intros [= ->] | by intros ->].
  - destruct s as [|b s]; [done|]. rewrite append_cons.
    destruct (Ascii.eqb_spec a b) as [->|Hab].
    + rewrite IH. split; [by intros -> | by intros [= ->]].
    + split; [done | by intros [= ? ?]].
Qed.

Lemma elem_of_map_2 {A B} (f : A → B) (l : list A) (x : A) : x ∈ l → f x ∈ map f l.
Proof. rewrite !list_elem_of_In. apply in_map. Qed.

Lemma elem_of_map_1 {A B} (f : A → B) (l : list A) (y : B) :
  y ∈ map f l → ∃ x, y = f x ∧ x ∈ l.
Proof.
  rewrite list_elem_of_In, in_map_iff. intros (x & <- & Hx).
  exists x. by rewrite list_elem_of_In.
Qed.

(** *** Dropping the entries of a table from the head of a string *)

Fixpoint tails (s : string) : list string :=
  match s with
  | "" => []
  | String _ r => r :: tails r
  end.

(** No entry is empty, none is the start of another, and no proper end
    of an entry begins like an entry. *)
Definition nonempty_b (T : list string) : bool :=
  forallb (λ p, negb (String.eqb p "")) T.

Definition prefix_free_b (T : list string) : bool :=
  forallb (λ p, forallb (λ q, match Js.drop_prefix p q with
                              | Some u => String.eqb u ""
                              | None => true
                              end) T) T.

Definition sync_b (T : list string) : bool :=
  forallb (λ p, forallb (λ v,
      String.eqb v ""
      || forallb (λ q, match Js.drop_prefix v q, Js.drop_prefix q v with
                       | None, None => true
                       | _, _ => false
                       end) T) (tails p)) T.

Lemma tails_split (u v : string) : u ≠ "" → v ∈ tails (u +:+ v).
Proof.
  induction u as [|c u IH]; [done|]. intros _. rewrite append_cons. simpl.
  destruct u as [|d u].
  - rewrite append_nil_l. by left.
  - right. by apply IH.
Qed.

Section Drop.
Variable T : list string.

Lemma drop_any_Some (s r : string) :
  Js.drop_any T s = Some r → ∃ p, p ∈ T ∧ s = p +:+ r.
Proof.
  unfold Js.drop_any. induction T as [|q T' IH]; simpl; [done|].
  destruct (Js.drop_prefix q s) as [r'|] eqn:Hq.
  - intros [= ->]. exists q. split; [by left | by apply drop_prefix_Some].
  - intros (p & Hp & Hs)%IH. exists p. split; [by right | done].
Qed.

Lemma drop_any_None (s : string) :
  Js.drop_any T s = None ↔ ∀ p r, p ∈ T → s ≠ p +:+ r.
Proof.
  unfold Js.drop_any. induction T as [|q T' IH]; simpl.
  - split; [|done]. intros _ p r Hp. by apply elem_of_nil in Hp.
  - destruct (Js.drop_prefix q s) as [r'|] eqn:Hq.
    + split; [done|]. intros H. apply drop_prefix_Some in Hq.
      exfalso. eapply H; [by left | exact Hq].
    + rewrite IH. split.
      * intros H p r [->|Hp]%elem_of_cons; [|by apply H].
        intros Hs%drop_prefix_Some. congruence.
      * intros H p r Hp. apply H. by right.
Qed.

Hypothesis nonempty : nonempty_b T = true.
Hypothesis prefix_free : prefix_free_b T = true.

Lemma entry_nonempty (p : string) : p ∈ T → p ≠ "".
Proof.
  intros Hp ->. unfold nonempty_b in nonempty.
  rewrite forallb_forall in nonempty.
  apply list_elem_of_In, nonempty in Hp. done.
Qed.

Lemma entry_prefix_free (p q u : string) : p ∈ T → q ∈ T → q = p +:+ u → u = "".
Proof.
  intros Hp Hq Hu. unfold prefix_free_b in prefix_free.
  rewrite forallb_forall in prefix_free.
  apply list_elem_of_In, prefix_free in Hp. rewrite forallb_forall in Hp.
  apply list_elem_of_In, Hp in Hq.
  apply drop_prefix_Some in Hu. rewrite Hu in Hq.
  by apply String.eqb_eq in Hq.
Qed.

Lemma drop_any_nil : Js.drop_any T "" = None.
Proof.
  apply drop_any_None. intros p r Hp Heq. apply (entry_nonempty p Hp).
  by destruct p.
Qed.

Lemma drop_any_entry (p x : string) : p ∈ T → Js.drop_any T (p +:+ x) = Some x.
Proof.
  intros Hp. destruct (Js.drop_any T (p +:+ x)) as [r|] eqn:Hd.
  - apply drop_any_Some in Hd as (q & Hq & Heq).
    apply append_comparable in Heq as [(u & Hu & ->) | (u & Hu & ->)].
    + apply (entry_prefix_free q p u Hq Hp) in Hu as ->. by rewrite append_nil_l.
    + apply (entry_prefix_free p q u Hp Hq) in Hu as ->. by rewrite append_nil_l.
  - exfalso. rewrite drop_any_None in Hd. by eapply Hd.
Qed.

Lemma drop_all_spec (n : nat) (s : string) :
  (String.length s ≤ n)%nat →
  ∃ a, s = a +:+ Js.drop_all T n s ∧ made_of T a
       ∧ Js.drop_any T (Js.drop_all T n s) = None.
Proof.
  revert s. induction n as [|n IH]; intros s Hn; simpl.
  - destruct s; [|simpl in Hn; lia]. exists "". split; [done|].
    split; [constructor | apply drop_any_nil].
  - destruct (Js.drop_any T s) as [r|] eqn:Hd.
    + apply drop_any_Some in Hd as (p & Hp & ->).
      pose proof (entry_nonempty p Hp) as Hne.
      destruct (IH r) as (a & Ha & Hblank & Hnone).
      { rewrite length_append in Hn. destruct p; [done|]. simpl in Hn. lia. }
      exists (p +:+ a). rewrite append_assoc, <- Ha.
      split; [done|]. split; [by constructor | done].
    + exists "". split; [done|]. split; [constructor | done].
Qed.

Lemma drop_all_unique (n : nat) (a x : string) :
  made_of T a → Js.drop_any T x = None →
  (String.length (a +:+ x) ≤ n)%nat →
  Js.drop_all T n (a +:+ x) = x.
Proof.
  intros Ha Hx. revert n. induction Ha as [|p s Hp Hs IH]; intros n Hn.
  - rewrite append_nil_l. destruct n; simpl; [done|]. by rewrite Hx.
  - rewrite append_assoc in *. pose proof (entry_nonempty p Hp) as Hne.
    destruct n as [|n].
    { rewrite length_append in Hn. destruct p; [done|]. simpl in Hn. lia. }
    simpl. rewrite (drop_any_entry p _ Hp). apply IH.
    rewrite length_append in Hn. destruct p; [done|]. simpl in Hn. lia.
Qed.

Lemma made_of_app (a b : string) : made_of T a → made_of T b → made_of T (a +:+ b).
Proof.
  intros Ha Hb. induction Ha as [|p s Hp Hs IH]; [done|].
  rewrite append_assoc. by constructor.
Qed.

Lemma made_of_entry (p : string) : p ∈ T → made_of T p.
Proof. intros Hp. rewrite <- (append_nil_r p). constructor; [done | constructor]. Qed.

Hypothesis sync : sync_b T = true.

Lemma entry_sync (p q u v x y : string) :
  p ∈ T → q ∈ T → p = u +:+ v → u ≠ "" → v ≠ "" → v +:+ x ≠ q +:+ y.
Proof.
  intros Hp Hq -> Hu Hv Heq. unfold sync_b in sync.
  rewrite forallb_forall in sync.
  apply list_elem_of_In, sync in Hp. rewrite forallb_forall in Hp.
  pose proof (tails_split u v Hu) as Hin. apply list_elem_of_In, Hp in Hin.
  apply orb_true_iff in Hin as [Hin|Hin].
  { apply String.eqb_eq in Hin. done. }
  rewrite forallb_forall in Hin. apply list_elem_of_In, Hin in Hq.
  apply append_comparable in Heq as [(w & Hw & _) | (w & Hw & _)].
  - apply drop_prefix_Some in Hw. rewrite Hw in Hq.
    by destruct (Js.drop_prefix v q).
  - apply drop_prefix_Some in Hw. by rewrite Hw in Hq.
Qed.

(** A string that does not start with an entry does not start with one
    either when entries follow it. *)
Lemma drop_any_after (t b : string) :
  t ≠ "" → (∀ p r, p ∈ T → t ≠ p +:+ r) → made_of T b →
  Js.drop_any T (t +:+ b) = None.
Proof.
  intros Ht Hstart Hb. apply drop_any_None. intros p r Hp Heq.
  apply append_comparable in Heq as [(u & Hu & _) | (u & Hu & Hbu)].
  - by apply (Hstart p u).
  - destruct u as [|c u].
    { rewrite append_nil_r in Hu. subst p. apply (Hstart t ""); [done|].
      by rewrite append_nil_r. }
    destruct Hb as [|q b' Hq Hb']; [done|].
    by apply (entry_sync p q t (String c u) r b' Hp Hq Hu Ht).
Qed.

End Drop.

(** *** White space *)

Lemma space_chars_eq : space_chars = Js.white_space.
Proof. vm_compute. reflexivity. Qed.

Lemma white_space_code : nonempty_b Js.white_space = true
  ∧ prefix_free_b Js.white_space = true ∧ sync_b Js.white_space = true.
Proof. vm_compute. done. Qed.

Lemma white_space_reversed :
  nonempty_b (map Js.reverse Js.white_space) = true
  ∧ prefix_free_b (map Js.reverse Js.white_space) = true.
Proof. vm_compute. done. Qed.

Lemma made_of_reverse (T : list string) (b : string) :
  made_of T b → made_of (map Js.reverse T) (Js.reverse b).
Proof.
  induction 1 as [|p s Hp Hs IH]; [constructor|].
  rewrite reverse_append. apply made_of_app; [done|].
  apply made_of_entry. by apply elem_of_map_2.
Qed.

Lemma map_reverse_reverse (T : list string) : map Js.reverse (map Js.reverse T) = T.
Proof.
  induction T as [|p T IH]; [done|]. simpl. by rewrite reverse_involutive, IH.
Qed.

Lemma trimStart_spec (s : string) :
  ∃ a, s = a +:+ Js.trimStart s ∧ blank a
    ∧ ∀ p r, p ∈ space_chars → Js.trimStart s ≠ p +:+ r.
Proof.
  unfold blank, Js.trimStart. rewrite space_chars_eq.
  destruct white_space_code as (Hne & _ & _).
  destruct (drop_all_spec Js.white_space Hne (String.length s) s) as (a & Ha & Hb & Hn);
    [done|].
  exists a. do 2 (split; [done|]). by apply drop_any_None.
Qed.

Lemma trimEnd_spec (s : string) :
  ∃ b, s = Js.trimEnd s +:+ b ∧ blank b
    ∧ ∀ p r, p ∈ space_chars → Js.trimEnd s ≠ r +:+ p.
Proof.
  unfold blank, Js.trimEnd. rewrite space_chars_eq.
  destruct white_space_reversed as (Hne & _).
  destruct (drop_all_spec (map Js.reverse Js.white_space) Hne
              (String.length s) (Js.reverse s)) as (a & Ha & Hb & Hn).
  { by rewrite length_reverse. }
  exists (Js.reverse a). split; [|split].
  - rewrite <- reverse_append, <- Ha. by rewrite reverse_involutive.
  - apply made_of_reverse in Hb. by rewrite map_reverse_reverse in Hb.
  - intros p r Hp Heq. rewrite drop_any_None in Hn.
    apply (Hn (Js.reverse p) (Js.reverse r)); [by apply elem_of_map_2|].
    by rewrite <- reverse_append, <- Heq, reverse_involutive.
Qed.

Lemma trim_trimmed (l : string) : trimmed_of l (Js.trim l).
Proof.
  unfold trimmed_of, Js.trim.
  destruct (trimStart_spec l) as (a & Ha & Hsa & Hh).
  destruct (trimEnd_spec (Js.trimStart l)) as (b & Hb & Hsb & Hl).
  exists a, b. split; [by rewrite <- Hb|]. do 2 (split; [done|]).
  split; [|done]. intros p r Hp Heq.
  apply (Hh p (r +:+ b) Hp). by rewrite Hb, Heq, append_assoc.
Qed.

Lemma trimStart_blank (a x : string) :
  blank a → (x = "" ∨ (∀ p r, p ∈ space_chars → x ≠ p +:+ r)) →
  Js.trimStart (a +:+ x) = x.
Proof.
  unfold blank, Js.trimStart. rewrite space_chars_eq.
  destruct white_space_code as (Hne & Hpf & _).
  intros Ha Hx. apply (drop_all_unique _ Hne Hpf); [done| |done].
  destruct Hx as [->|Hx]; [by apply drop_any_nil | by apply drop_any_None].
Qed.

Lemma trimEnd_blank (t b : string) :
  blank b → (∀ p r, p ∈ space_chars → t ≠ r +:+ p) → Js.trimEnd (t +:+ b) = t.
Proof.
  unfold blank, Js.trimEnd. rewrite space_chars_eq.
  destruct white_space_reversed as (Hne & Hpf).
  intros Hb Ht. rewrite reverse_append.
  rewrite (drop_all_unique _ Hne Hpf).
  - apply reverse_involutive.
  - by apply made_of_reverse.
  - apply drop_any_None. intros p r (q & -> & Hq)%elem_of_map_1 Heq.
    apply (Ht q (Js.reverse r) Hq).
    by rewrite <- (reverse_involutive t), Heq, reverse_append, reverse_involutive.
  - by rewrite <- reverse_append, length_reverse.
Qed.

(** The design's description determines the result: a line has one
    trimmed form, and an artifact one sequence of lines. *)
Lemma trimmed_of_trim (l t : string) : trimmed_of l t → t = Js.trim l.
Proof.
  intros (a & b & -> & Ha & Hb & Hhead & Hlast). unfold Js.trim.
  destruct t as [|c t].
  - rewrite append_nil_l, <- (append_nil_r (a +:+ b)).
    rewrite trimStart_blank; [done| |by left].
    unfold blank in *. destruct white_space_code as (Hne & _).
    rewrite space_chars_eq in *. by apply made_of_app.
  - rewrite trimStart_blank; [by rewrite trimEnd_blank|done|]. right.
    unfold blank in Hb. rewrite space_chars_eq in *.
    destruct white_space_code as (Hne & Hpf & Hsync).
    apply drop_any_None. by apply drop_any_after.
Qed.

(** Ways to show that [t] is the trimmed form of a given line. *)
Lemma blank_by_dropping (s : string) :
  Js.drop_all space_chars (String.length s) s = "" → blank s.
Proof.
  intros Hd. assert (nonempty_b space_chars = true) as Hne by (by vm_compute).
  destruct (drop_all_spec space_chars Hne (String.length s) s) as (a & Ha & Hb & _);
    [done|].
  rewrite Hd, append_nil_r in Ha. by subst a.
Qed.

Lemma trimmed_of_intro (a t b : string) :
  blank a → blank b →
  Js.drop_any space_chars t = None →
  Js.drop_any (map Js.reverse space_chars) (Js.reverse t) = None →
  trimmed_of (a +:+ t +:+ b) t.
Proof.
  intros Ha Hb Hstart Hend. exists a, b. do 3 (split; [done|]).
  split; [by apply drop_any_None|].
  intros p r Hp Heq. rewrite drop_any_None in Hend.
  apply (Hend (Js.reverse p) (Js.reverse r)); [by apply elem_of_map_2|].
  by rewrite Heq, reverse_append.
Qed.

Lemma is_table_line_cons (c : ascii) (t : string) :
  is_table_line (String c t) = negb (Ascii.eqb "#" c).
Proof. unfold is_table_line. destruct t; simpl; by rewrite andb_true_r. Qed.

Lemma filter_exclusion_lines (lines : list string) :
  exclusion_lines lines (List.filter is_table_line (map Js.trim lines)).
Proof.
  induction lines as [|l ls IH]; simpl; [constructor|].
  pose proof (trim_trimmed l) as Ht.
  destruct (Js.trim l) as [|c t] eqn:Hl.
  - by apply excl_blank.
  - rewrite is_table_line_cons.
    destruct (Ascii.eqb_spec "#" c) as [<-|Hc]; simpl.
    + eapply excl_comment; [exact Ht|done].
    + eapply excl_table; [exact Ht|done| |done]. congruence.
Qed.

Lemma exclusion_lines_filter (lines names : list string) :
  exclusion_lines lines names →
  names = List.filter is_table_line (map Js.trim lines).
Proof.
  induction 1 as [|l ls ns Ht _ IH|l t ls ns Ht _ IH|l t ls ns Ht Hne Hhash _ IH];
    simpl; [done|..].
  - apply trimmed_of_trim in Ht as <-. done.
  - apply trimmed_of_trim in Ht as <-.
    rewrite is_table_line_cons. by rewrite Ascii.eqb_refl.
  - apply trimmed_of_trim in Ht as <-. destruct t as [|c t]; [done|].
    rewrite is_table_line_cons.
    destruct (Ascii.eqb_spec "#" c) as [<-|_]; [by destruct (Hhash t)|].
    simpl. by rewrite IH.
Qed.

Lemma split_nl_line (l : string) : Js.has_nl l = false → Js.split_nl l = [l].
Proof.
  induction l as [|c l IH]; [done|]. simpl.
  intros [Hc Hl]%orb_false_iff. rewrite Hc, IH; done.
Qed.

Lemma split_nl_append (l x : string) :
  Js.has_nl l = false → Js.split_nl (l +:+ String "010" x) = l :: Js.split_nl x.
Proof.
  induction l as [|c l IH].
  - intros _. by rewrite append_nil_l.
  - rewrite append_cons. simpl. intros [Hc Hl]%orb_false_iff.
    by rewrite Hc, IH.
Qed.

Lemma lines_of_split (content : string) (lines : list string) :
  lines_of content lines → lines = Js.split_nl content.
Proof.
  intros (<- & Hne & Hnl). induction lines as [|l ls IH]; [done|].
  inversion Hnl as [|? ? Hl Hls]; subst.
  destruct ls as [|l' ls]; simpl.
  - by rewrite split_nl_line.
  - rewrite split_nl_append by done. f_equal. by apply IH.
Qed.

(** ** Awaited computations *)

Lemma bind_Ok_inv {A B} (m : M A) (k : A → M B) w b w' :
  bind m k w = (Ok b, w') → ∃ a w1, m w = (Ok a, w1) ∧ k a w1 = (Ok b, w').
Proof. unfold bind. destruct (m w) as [[a|e|e] w1]; [eauto | done | done]. Qed.

Lemma bind_Throw_inv {A B} (m : M A) (k : A → M B) w e w' :
  bind m k w = (Throw e, w') →
  m w = (Throw e, w') ∨ ∃ a w1, m w = (Ok a, w1) ∧ k a w1 = (Throw e, w').
Proof.
  unfold bind.
  destruct (m w) as [[a|e0|e0] w1]; [eauto | intros [= -> ->]; eauto | done].
Qed.

Lemma bind_Uncaught_inv {A B} (m : M A) (k : A → M B) w e w' :
  bind m k w = (Uncaught e, w') →
  m w = (Uncaught e, w') ∨ ∃ a w1, m w = (Ok a, w1) ∧ k a w1 = (Uncaught e, w').
Proof.
  unfold bind.
  destruct (m w) as [[a|e0|e0] w1]; [eauto | done | intros [= -> ->]; eauto].
Qed.

Lemma bind_Ok {A B} (m : M A) (k : A → M B) w a w1 :
  m w = (Ok a, w1) → bind m k w = k a w1.
Proof. unfold bind. by intros ->. Qed.

Lemma bind_Throw {A B} (m : M A) (k : A → M B) w e w1 :
  m w = (Throw e, w1) → bind m k w = (Throw e, w1).
Proof. unfold bind. by intros ->. Qed.

Lemma bind_Uncaught {A B} (m : M A) (k : A → M B) w e w1 :
  m w = (Uncaught e, w1) → bind m k w = (Uncaught e, w1).
Proof. unfold bind. by intros ->. Qed.

(** *** Computations that always settle

    They end with a value or with an exception that can be caught. *)
Definition settles {A} (m : M A) : Prop := ∀ w e w', m w ≠ (Uncaught e, w').

Lemma settles_ret {A} (a : A) : settles (ret a).
Proof. by intros w e w'. Qed.

Lemma settles_throw {A} (e : JsError) : settles (throw e : M A).
Proof. by intros w e' w'. Qed.

Lemma settles_bind {A B} (m : M A) (k : A → M B) :
  settles m → (∀ a, settles (k a)) → settles (bind m k).
Proof.
  intros Hm Hk w e w' [H | (a & w1 & _ & H)]%bind_Uncaught_inv.
  - by eapply Hm.
  - by eapply Hk.
Qed.

Lemma settles_try_catch {A} (m : M A) (h : JsError → M A) :
  settles m → (∀ e, settles (h e)) → settles (try_catch m h).
Proof.
  intros Hm Hh w e w'. unfold try_catch.
  destruct (m w) as [[a|e0|e0] w1] eqn:Hr; [done | apply Hh |].
  by destruct (Hm w e0 w1).
Qed.

Lemma settles_swallow (m : M unit) : settles m → settles (swallow m).
Proof. intros Hm. apply settles_try_catch; [done|]. intros e. apply settles_ret. Qed.

Lemma settles_if {A} (b : bool) (m1 m2 : M A) :
  settles m1 → settles m2 → settles (if b then m1 else m2).
Proof. by destruct b. Qed.

Lemma swallow_Ok (m : M unit) w : settles m → ∃ w', swallow m w = (Ok tt, w').
Proof.
  intros Hm. unfold swallow, try_catch.
  destruct (m w) as [[[]|e|e] w'] eqn:Hr; [eauto | eauto |].
  by destruct (Hm w e w').
Qed.

(** ** The engine and the processes *)

Lemma next_reply_frame w :
  let w' := (next_reply w).2 in
  dbs w' = dbs w ∧ files w' = files w ∧ log w' = log w ∧ host w' = host w.
Proof. unfold next_reply. by destruct (script w). Qed.

Lemma wait_frame c w :
  let w' := (wait c w).2 in
  files w' = files w ∧ log w' = log w ∧ host w' = host w.
Proof.
  unfold wait. pose proof (next_reply_frame w) as (Hd & Hf & Hl & Hh).
  destruct (next_reply w) as [r w1]; simpl in *.
  destruct (exit_code r =? 0); [|done].
  by destruct (engine_rejects c (dbs w1)).
Qed.

(** A process that exits with status zero has had its command carried
    out by the engine; otherwise the engine is as it was. *)
Lemma wait_dbs c w :
  let '(r, w') := wait c w in
  if exit_code r =? 0 then dbs w' = engine_apply c (dbs w) ∧ engine_rejects c (dbs w) = None
  else dbs w' = dbs w.
Proof.
  unfold wait. pose proof (next_reply_frame w) as (Hd & Hf & Hl & Hh).
  destruct (next_reply w) as [r w1]; simpl in *.
  destruct (exit_code r =? 0) eqn:Hr.
  - destruct (engine_rejects c (dbs w1)) eqn:Hrej; simpl.
    + done.
    + rewrite Hr. by rewrite <- Hd.
  - by rewrite Hr.
Qed.

(** ** The slim export *)

Lemma dump_phase_files {S} c target report failure (cb : option (Callback S)) s w :
  ∃ data, files (dump_phase c target report failure cb s w).2
          = <[target := File data]> (files w).
Proof.
  unfold dump_phase.
  pose proof (wait_frame c (launch c w)) as (Hf & _ & _).
  destruct (wait c (launch c w)) as [r w1]; simpl in *.
  destruct (on_data _ _ _ _ _ _) as [s1 h3].
  exists (concat_chunks (stdout r)).
  destruct (exit_code r =? 0); simpl; by rewrite Hf.
Qed.

Lemma readFile_Ok path w data w' :
  readFile path w = (Ok data, w') → w' = w ∧ files w !! path = Some (File data).
Proof.
  unfold readFile. destruct (files w !! path) as [[d| |e]|]; try done.
  by intros [= -> ->].
Qed.

Lemma append_file_files path data w :
  files (append_file path data w)
  = <[path := File (match files w !! path with
                    | Some (File old) => old +:+ data
                    | _ => data
                    end)]> (files w).
Proof. unfold append_file. by destruct (files w !! path) as [[| |]|]. Qed.

Lemma concatenate_Ok outFile sf df w w' :
  outFile ≠ sf → outFile ≠ df →
  concatenate outFile sf df w = (Ok tt, w') →
  ∃ a b, files w !! sf = Some (File a) ∧ files w !! df = Some (File b)
    ∧ files w' = <[outFile := File (a +:+ b)]> (files w).
Proof.
  intros Hsf Hdf. unfold concatenate.
  set (w1 := set_files (insert outFile (File "")) w).
  assert (∀ w'', (match readFile sf w1 with
            | (Throw e, w2) => (Throw e, w2)
            | (Uncaught e, w2) => (Uncaught e, w2)
            | (Ok a, w2) =>
                let w3 := append_file outFile a w2 in
                match readFile df w3 with
                | (Throw e, w4) => (Throw e, w4)
                | (Uncaught e, w4) => (Uncaught e, w4)
                | (Ok b, w4) => (Ok tt, append_file outFile b w4)
                end
            end) = (Ok tt, w'') →
          ∃ a b, files w !! sf = Some (File a) ∧ files w !! df = Some (File b)
            ∧ files w'' = <[outFile := File (a +:+ b)]> (files w)) as Hmain.
  { intros w''. destruct (readFile sf w1) as [[a|e|e] w2] eqn:Hr1; [|done..].
    apply readFile_Ok in Hr1 as [-> Ha]. simpl.
    destruct (readFile df _) as [[b|e|e] w4] eqn:Hr2; [|done..].
    apply readFile_Ok in Hr2 as [-> Hb]. intros [= <-].
    rewrite append_file_files in Hb. rewrite !append_file_files.
    subst w1. simpl in *.
    rewrite lookup_insert_ne in Ha by done.
    rewrite lookup_insert_ne in Hb by done.
    rewrite lookup_insert_ne in Hb by done.
    exists a, b. repeat split; try done.
    rewrite !lookup_insert_eq. rewrite !insert_insert_eq. done. }
  destruct (files w !! outFile) as [[| |]|]; try done; apply Hmain.
Qed.

Lemma unlink_swallowed path w :
  ∃ w', swallow (unlink path) w = (Ok tt, w')
    ∧ (∀ d, files w' !! path ≠ Some (File d))
    ∧ (∀ p, p ≠ path → files w' !! p = files w !! p)
    ∧ (∀ p, files w !! p = None → files w' !! p = None)
    ∧ dbs w' = dbs w ∧ log w' = log w ∧ host w' = host w ∧ script w' = script w.
Proof.
  unfold swallow, try_catch, unlink, ret.
  destruct (files w !! path) as [[d| |e]|] eqn:Hp; eexists; (split; [done|]);
    simpl; repeat split; try done; try (by rewrite Hp).
  - intros d'. by rewrite lookup_delete_eq.
  - intros p Hne. by rewrite lookup_delete_ne.
  - intros p Hnone. destruct (decide (p = path)) as [->|Hne];
      [by rewrite lookup_delete_eq | by rewrite lookup_delete_ne].
Qed.

Lemma remove_temps_spec sf df w :
  ∃ w', remove_temps sf df w = (Ok tt, w')
    ∧ (∀ d, files w' !! sf ≠ Some (File d))
    ∧ (∀ d, files w' !! df ≠ Some (File d))
    ∧ (∀ p, p ≠ sf → p ≠ df → files w' !! p = files w !! p)
    ∧ dbs w' = dbs w ∧ log w' = log w ∧ host w' = host w ∧ script w' = script w.
Proof.
  unfold remove_temps.
  destruct (unlink_swallowed sf w) as (w1 & H1 & Hsf & Hother1 & Hnone1 & Hd1 & Hl1 & Hh1 & Hs1).
  destruct (unlink_swallowed df w1) as (w2 & H2 & Hdf & Hother2 & Hnone2 & Hd2 & Hl2 & Hh2 & Hs2).
  exists w2. rewrite (bind_Ok _ _ _ _ _ H1). split; [done|].
  repeat split; try congruence.
  - intros d Hd. destruct (decide (sf = df)) as [->|Hne]; [by eapply Hdf|].
    rewrite Hother2 in Hd by done. by eapply Hsf.
  - intros p Hp1 Hp2. rewrite Hother2, Hother1; done.
Qed.

Lemma temp_paths_differ outFile t1 t2 :
  structureFile_of outFile t1 ≠ dataFile_of outFile t2.
Proof.
  unfold structureFile_of, dataFile_of, Path.join. intros H.
  apply (inj (String.app _)) in H.
  repeat rewrite append_cons in H. congruence.
Qed.

Lemma temp_names_spec outFile w sf df wb :
  temp_names outFile w = (sf, df, wb) →
  sf ≠ df
  ∧ (∃ t1 t2, sf = structureFile_of outFile t1 ∧ df = dataFile_of outFile t2)
  ∧ dbs wb = dbs w ∧ files wb = files w ∧ log wb = log w ∧ script wb = script w
  ∧ sent (host wb) = sent (host w).
Proof.
  unfold temp_names.
  destruct (Date_now (host w)) as [t1 h1] eqn:H1.
  destruct (Date_now h1) as [t2 h2] eqn:H2.
  intros [= <- <- <-]. split; [apply temp_paths_differ|].
  split; [by exists t1, t2|]. simpl.
  repeat split.
  assert (∀ h t h', Date_now h = (t, h') → sent h' = sent h) as Hsent.
  { intros h t h'. unfold Date_now. destruct (clock h); by intros [= <- <-]. }
  rewrite (Hsent _ _ _ H2). apply (Hsent _ _ _ H1).
Qed.

Lemma try_catch_Ok_inv {A} (m : M A) (h : JsError → M A) w a w' :
  (∀ e w1, ¬ ∃ w2, h e w1 = (Ok a, w2)) →
  try_catch m h w = (Ok a, w') → m w = (Ok a, w').
Proof.
  unfold try_catch. intros Hh. destruct (m w) as [[a0|e|e] w1]; [done| |done].
  intros Heq. exfalso. eapply Hh. eauto.
Qed.

Lemma rethrow_after_remove_temps {A} sf df (e : JsError) w :
  ∃ w', (do! remove_temps sf df in throw e : M A) w = (Throw e, w')
    ∧ (∀ d, files w' !! sf ≠ Some (File d))
    ∧ (∀ d, files w' !! df ≠ Some (File d))
    ∧ (∀ p, p ≠ sf → p ≠ df → files w' !! p = files w !! p).
Proof.
  destruct (remove_temps_spec sf df w) as (w' & Hr & Hsf & Hdf & Hother & _).
  exists w'. by rewrite (bind_Ok _ _ _ _ _ Hr).
Qed.

(** A successful run went through its four stages in turn. *)
Lemma exportSlimSql_Ok_stages {S} dbName outFile excludeDataTables
    (onProgress : option (Callback S)) s w sf df wb s' w' :
  temp_names outFile w = (sf, df, wb) →
  exportSlimSql dbName outFile excludeDataTables onProgress s w = (Ok s', w') →
  ∃ s1 w1 w2 w3,
    export_structure dbName sf onProgress s wb = (Ok s1, w1)
    ∧ export_data dbName df excludeDataTables onProgress s1 w1 = (Ok s', w2)
    ∧ concatenate outFile sf df w2 = (Ok tt, w3)
    ∧ remove_temps sf df w3 = (Ok tt, w').
Proof.
  intros Htemp. unfold exportSlimSql. rewrite Htemp.
  intros Hrun. apply try_catch_Ok_inv in Hrun.
  2:{ intros e w1 [w2 Hw2].
      destruct (rethrow_after_remove_temps (A:=S) sf df e w1) as (w3 & Hr & _).
      rewrite Hr in Hw2. done. }
  apply bind_Ok_inv in Hrun as (s1 & w1 & Hp1 & Hrun).
  apply bind_Ok_inv in Hrun as (s2 & w2 & Hp2 & Hrun).
  apply bind_Ok_inv in Hrun as ([] & w3 & Hcat & Hrun).
  apply bind_Ok_inv in Hrun as ([] & w4 & Hrm & Hrun).
  injection Hrun as -> ->. eauto 10.
Qed.

(** What the output path holds once the artifacts have been piped into
    it and removed. *)
Lemma concatenated_output outFile sf df w2 w3 w' :
  outFile ≠ sf → outFile ≠ df →
  concatenate outFile sf df w2 = (Ok tt, w3) →
  remove_temps sf df w3 = (Ok tt, w') →
  ∃ a b, files w2 !! sf = Some (File a) ∧ files w2 !! df = Some (File b)
    ∧ files w' !! outFile = Some (File (a +:+ b)).
Proof.
  intros Hsf Hdf Hcat Hrm.
  apply concatenate_Ok in Hcat as (a & b & Ha & Hb & Hout); [|done..].
  destruct (remove_temps_spec sf df w3) as (w5 & Hrm' & _ & _ & Hother & _).
  rewrite Hrm in Hrm'. injection Hrm' as <-.
  exists a, b. do 2 (split; [done|]).
  by rewrite Hother, Hout, lookup_insert_eq.
Qed.


(** ** Relations every step of a computation respects *)

Section Respects.
Context (R : relation World) `{!PreOrder R}.

Definition respects {A} (m : M A) : Prop := ∀ w, R w (m w).2.

Lemma respects_ret {A} (a : A) : respects (ret a).
Proof. intros w. simpl. reflexivity. Qed.

Lemma respects_throw {A} (e : JsError) : respects (throw e : M A).
Proof. intros w. simpl. reflexivity. Qed.

Lemma respects_bind {A B} (m : M A) (k : A → M B) :
  respects m → (∀ a, respects (k a)) → respects (bind m k).
Proof.
  intros Hm Hk w. unfold bind. specialize (Hm w).
  destruct (m w) as [[a|e|e] w1]; simpl in *; [|done..].
  etrans; [done|]. apply Hk.
Qed.

Lemma respects_try_catch {A} (m : M A) (h : JsError → M A) :
  respects m → (∀ e, respects (h e)) → respects (try_catch m h).
Proof.
  intros Hm Hh w. unfold try_catch. specialize (Hm w).
  destruct (m w) as [[a|e|e] w1]; simpl in *; [done| |done].
  etrans; [done|]. apply Hh.
Qed.

Lemma respects_swallow (m : M unit) : respects m → respects (swallow m).
Proof. intros Hm. apply respects_try_catch; [done|]. intros e. apply respects_ret. Qed.

Lemma respects_if {A} (b : bool) (m1 m2 : M A) :
  respects m1 → respects m2 → respects (if b then m1 else m2).
Proof. by destruct b. Qed.

(** A step from [w] to [w'] by a computation that respects [R]. *)
Lemma respects_run {A} (m : M A) w r w' : respects m → m w = (r, w') → R w w'.
Proof. intros Hm Hrun. specialize (Hm w). by rewrite Hrun in Hm. Qed.
End Respects.

(** The worlds the engine commands end in. *)
Definition after (c : Cmd) (w : World) : World := (wait c (launch c w)).2.

Lemma databaseExists_world n w : (databaseExists n w).2 = after (CmdExists n) w.
Proof.
  unfold databaseExists, after. destruct (wait _ _) as [r w1]. by destruct (_ =? _).
Qed.

Lemma dropDatabase_world n w : (dropDatabase n w).2 = after (CmdDrop n) w.
Proof.
  unfold dropDatabase, after. destruct (wait _ _) as [r w1]. by destruct (_ =? _).
Qed.

Lemma createDatabase_world n w : (createDatabase n w).2 = after (CmdCreate n) w.
Proof.
  unfold createDatabase, after. destruct (wait _ _) as [r w1]. by destruct (_ =? _).
Qed.

Lemma getDatabaseInfo_world n w : (getDatabaseInfo n w).2 = after (CmdInfo n) w.
Proof.
  unfold getDatabaseInfo, after. destruct (wait _ _) as [r w1]. by destruct (_ =? _).
Qed.

(** What an import leaves: the command in the log, the events of the
    chunks that were read, and nothing else. *)
Lemma importSql_world {S} n f (cb : option (Callback S)) s w :
  ∃ chunks,
    files (importSql n f cb s w).2 = files w
    ∧ log (importSql n f cb s w).2 = CmdImport n f :: log w
    ∧ dbs (importSql n f cb s w).2 = dbs w
    ∧ host (importSql n f cb s w).2 = (on_data cb (λ x, x) chunks 0 s (host w)).2.
Proof.
  unfold importSql. simpl.
  destruct (files w !! f) as [[data| |e]|]; try (by exists []).
  pose proof (wait_frame (CmdImport n f) (launch (CmdImport n f) w)) as (Hf & Hl & Hh).
  pose proof (wait_dbs (CmdImport n f) (launch (CmdImport n f) w)) as Hd.
  destruct (wait _ _) as [r w1]. simpl in *.
  exists (chunks_piped r data).
  rewrite Hh. destruct (on_data _ _ _ _ _ _) as [s1 h1].
  assert (dbs w1 = dbs w) as Hdbs.
  { destruct (exit_code r =? 0); [by destruct Hd as [-> _] | done]. }
  by destruct (epipe r), (exit_code r =? 0).
Qed.

Lemma stat_size_world p w : (stat_size p w).2 = w.
Proof. unfold stat_size. by destruct (files w !! p) as [[| |]|]. Qed.

Lemma after_frame c w :
  files (after c w) = files w ∧ log (after c w) = c :: log w
  ∧ host (after c w) = host w.
Proof.
  unfold after. by pose proof (wait_frame c (launch c w)) as (-> & -> & ->).
Qed.

(** *** The file system is left alone *)

Definition same_files : relation World := λ w w', files w' = files w.

#[local] Instance same_files_preorder : PreOrder same_files.
Proof. split; [by intros w | intros a b c; unfold same_files; congruence]. Qed.

Lemma files_send e : respects same_files (send e).
Proof. by intros w. Qed.

Lemma files_stat_size p : respects same_files (stat_size p).
Proof. intros w. by rewrite stat_size_world. Qed.

Lemma files_databaseExists n : respects same_files (databaseExists n).
Proof. intros w. rewrite databaseExists_world. apply after_frame. Qed.

Lemma files_dropDatabase n : respects same_files (dropDatabase n).
Proof. intros w. rewrite dropDatabase_world. apply after_frame. Qed.

Lemma files_createDatabase n : respects same_files (createDatabase n).
Proof. intros w. rewrite createDatabase_world. apply after_frame. Qed.

Lemma files_getDatabaseInfo n : respects same_files (getDatabaseInfo n).
Proof. intros w. rewrite getDatabaseInfo_world. apply after_frame. Qed.

Lemma files_importSql {S} n f (cb : option (Callback S)) s :
  respects same_files (importSql n f cb s).
Proof.
  intros w. by destruct (importSql_world n f cb s w) as (chunks & Hf & _).
Qed.

Create HintDb frame discriminated.

#[local] Hint Resolve respects_ret respects_throw respects_swallow : frame.
#[local] Hint Resolve files_send files_stat_size files_databaseExists files_dropDatabase
  files_createDatabase files_getDatabaseInfo files_importSql : frame.

(** Goes through the binds, handlers and branches of a computation down
    to its steps, which [frame] knows. *)
Ltac frame_steps :=
  repeat first
    [ progress intros
    | apply respects_bind
    | apply respects_try_catch
    | apply respects_if
    | solve [eauto with frame typeclass_instances]
    | match goal with |- respects _ (match ?x with _ => _ end) => destruct x end ].

Lemma files_recreate n : respects same_files (recreate n).
Proof. unfold recreate. frame_steps. Qed.

Lemma files_restore_step i n f slimDir rc :
  respects same_files (restore_step i n f slimDir rc).
Proof. unfold restore_step, restore_to, recreate, progress. frame_steps. Qed.

Lemma files_cleanup f : respects same_files (cleanup f).
Proof. unfold cleanup, cleanup_attempt. frame_steps. Qed.

(** ** The output path of the handler is none of the temporary paths *)

Lemma append_inj_tail (a b s s' : string) :
  String.length s = String.length s' → a +:+ s = b +:+ s' → s = s'.
Proof.
  revert b. induction a as [|c a IH]; intros b Hlen Heq.
  - rewrite append_nil_l in Heq. subst s. rewrite length_append in Hlen.
    destruct b; [done|]. simpl in Hlen. lia.
  - destruct b as [|d b].
    + rewrite append_nil_l in Heq. subst s'. rewrite length_append in Hlen.
      simpl in Hlen. lia.
    + rewrite !append_cons in Heq. injection Heq as _ Heq. by eapply IH.
Qed.

Lemma string_of_uint_last (u : Decimal.uint) :
  NilEmpty.string_of_uint u = ""
  ∨ ∃ p d, NilEmpty.string_of_uint u = p +:+ String d "" ∧ d ≠ "m"%char.
Proof.
  induction u as [|u [IH|(p & d & IH & Hd)]|u [IH|(p & d & IH & Hd)]
                  |u [IH|(p & d & IH & Hd)]|u [IH|(p & d & IH & Hd)]
                  |u [IH|(p & d & IH & Hd)]|u [IH|(p & d & IH & Hd)]
                  |u [IH|(p & d & IH & Hd)]|u [IH|(p & d & IH & Hd)]
                  |u [IH|(p & d & IH & Hd)]|u [IH|(p & d & IH & Hd)]];
    simpl; [by left|..]; right; rewrite IH;
    first [ by eexists "", _ | by eexists (String _ p), d ].
Qed.

Lemma of_Z_last (t : Z) : ∃ p d, Js.of_Z t = p +:+ String d "" ∧ d ≠ "m"%char.
Proof.
  unfold Js.of_Z, NilZero.string_of_int, NilZero.string_of_uint.
  destruct (Z.to_int t) as [u|u].
  - destruct (string_of_uint_last u) as [H|(p & d & H & Hd)].
    + destruct u; try done. by exists "", "0"%char.
    + destruct u; try (by exists p, d). by exists "", "0"%char.
  - destruct (string_of_uint_last u) as [H|(p & d & H & Hd)].
    + destruct u; try done. by exists "-", "0"%char.
    + destruct u; try (exists (String "-" p), d; by rewrite H).
      by exists "-", "0"%char.
Qed.

Lemma slim_suffix_not_temp (a b : string) (t : Z) :
  a +:+ "_slim.sql" ≠ b +:+ Js.of_Z t +:+ ".sql".
Proof.
  destruct (of_Z_last t) as (p & d & -> & Hd). intros Heq.
  change "_slim.sql" with ("_sli" +:+ "m.sql") in Heq.
  rewrite <- (append_assoc a) in Heq.
  rewrite (append_assoc p), append_cons, append_nil_l in Heq.
  rewrite <- (append_assoc b) in Heq.
  apply append_inj_tail in Heq; [|done]. congruence.
Qed.

Lemma slimPath_not_temp f slimDir t :
  slimPath f slimDir ≠ structureFile_of (slimPath f slimDir) t
  ∧ slimPath f slimDir ≠ dataFile_of (slimPath f slimDir) t.
Proof.
  unfold structureFile_of, dataFile_of.
  generalize (Path.dirname (slimPath f slimDir)). intros d.
  unfold slimPath, Path.join.
  change (String Path.sep (baseName f +:+ "_slim.sql"))
    with (String Path.sep "" +:+ baseName f +:+ "_slim.sql").
  change (String Path.sep ("._temp_structure_" +:+ Js.of_Z t +:+ ".sql"))
    with (String Path.sep "._temp_structure_" +:+ Js.of_Z t +:+ ".sql").
  change (String Path.sep ("._temp_data_" +:+ Js.of_Z t +:+ ".sql"))
    with (String Path.sep "._temp_data_" +:+ Js.of_Z t +:+ ".sql").
  rewrite <- !(append_assoc slimDir), <- !(append_assoc d).
  rewrite <- (append_assoc (slimDir +:+ String Path.sep "")).
  split; apply slim_suffix_not_temp.
Qed.

(** ** The engine commands, one by one *)

Lemma wait_dbs_cases c w :
  dbs (wait c w).2 = dbs w ∨ dbs (wait c w).2 = engine_apply c (dbs w).
Proof.
  pose proof (wait_dbs c w) as H. destruct (wait c w) as [r w1]. simpl.
  destruct (exit_code r =? 0); [right; apply H | by left].
Qed.

Lemma dropDatabase_Ok n w w' :
  dropDatabase n w = (Ok tt, w') → dbs w' = dbs w ∖ {[n]}.
Proof.
  unfold dropDatabase. pose proof (wait_dbs (CmdDrop n) (launch (CmdDrop n) w)) as H.
  destruct (wait _ _) as [r w1]. destruct (exit_code r =? 0); [|done].
  intros [= <-]. apply H.
Qed.

Lemma like_refl (n : string) : like n n = true.
Proof.
  induction n as [|c n IH]; [done|]. simpl.
  destruct (Ascii.eqb c "%") eqn:H1.
  - apply orb_true_iff. right. destruct n as [|d n]; by rewrite IH.
  - destruct (Ascii.eqb c "_"); [done|]. by rewrite Ascii.eqb_refl.
Qed.

Lemma show_databases_like_row (pattern : string) (d : gset string) :
  (0 <? length (show_databases_like pattern d))%nat = true
  ↔ ∃ name, name ∈ d ∧ like pattern name = true.
Proof.
  unfold show_databases_like. rewrite Nat.ltb_lt. split.
  - destruct (List.filter _ _) as [|x l] eqn:Hf; [simpl; lia|]. intros _.
    assert (In x (List.filter (like pattern) (elements d))) as Hin
      by (rewrite Hf; by left).
    apply filter_In in Hin as [Hin Hx]. exists x. split; [|done].
    by apply elem_of_elements, list_elem_of_In.
  - intros (x & Hx & Hl).
    assert (In x (List.filter (like pattern) (elements d))) as Hin.
    { apply filter_In. split; [|done]. by apply list_elem_of_In, elem_of_elements. }
    destruct (List.filter _ _); [done | simpl; lia].
Qed.

(** The check answers yes when some database matches the name read as
    a pattern; the database of that very name is one of them. *)
Lemma databaseExists_Ok n w b w' :
  databaseExists n w = (Ok b, w') →
  dbs w' = dbs w
  ∧ (b = true ↔ ∃ name, name ∈ dbs w ∧ like n name = true)
  ∧ (b = false → n ∉ dbs w).
Proof.
  unfold databaseExists.
  pose proof (wait_dbs (CmdExists n) (launch (CmdExists n) w)) as H.
  destruct (wait _ _) as [r w1]. destruct (exit_code r =? 0); [|done].
  intros [= <- <-]. destruct H as [H _]. simpl in H. rewrite H.
  split; [done|]. split; [apply show_databases_like_row|].
  intros Hb Hin. apply not_true_iff_false in Hb. apply Hb.
  apply show_databases_like_row. exists n. split; [done | apply like_refl].
Qed.

(** *** A database that is absent stays absent *)

Definition absent_kept (name : string) : relation World :=
  λ w w', name ∉ dbs w → name ∉ dbs w'.

#[local] Instance absent_kept_preorder name : PreOrder (absent_kept name).
Proof. split; [intros w; by unfold absent_kept | intros a b c; unfold absent_kept; auto]. Qed.

Lemma absent_wait name c w :
  (∀ d, c = CmdCreate d → d ≠ name) → absent_kept name w (wait c w).2.
Proof.
  intros Hc Habs. destruct (wait_dbs_cases c w) as [Hw | Hw]; rewrite Hw; [done|].
  destruct c as [d|d|d|d p|d|d l|d]; simpl; try done.
  - by intros [? _]%elem_of_difference.
  - intros [->%elem_of_singleton | ?]%elem_of_union; [|done].
    by apply (Hc _ eq_refl).
Qed.

Lemma absent_after name c w :
  (∀ d, c = CmdCreate d → d ≠ name) → absent_kept name w (after c w).
Proof. intros Hc Habs. exact (absent_wait name c (launch c w) Hc Habs). Qed.

Lemma absent_send name e : respects (absent_kept name) (send e).
Proof. intros w Habs. exact Habs. Qed.

Lemma absent_stat_size name p : respects (absent_kept name) (stat_size p).
Proof. intros w Habs. by rewrite stat_size_world. Qed.

Lemma absent_databaseExists name d : respects (absent_kept name) (databaseExists d).
Proof. intros w. rewrite databaseExists_world. by apply absent_after. Qed.

Lemma absent_dropDatabase name d : respects (absent_kept name) (dropDatabase d).
Proof. intros w. rewrite dropDatabase_world. by apply absent_after. Qed.

Lemma absent_createDatabase name d :
  d ≠ name → respects (absent_kept name) (createDatabase d).
Proof.
  intros Hd w. rewrite createDatabase_world. apply absent_after. by intros ? [= <-].
Qed.

Lemma absent_getDatabaseInfo name d : respects (absent_kept name) (getDatabaseInfo d).
Proof. intros w. rewrite getDatabaseInfo_world. by apply absent_after. Qed.

Lemma absent_importSql {S} name d f (cb : option (Callback S)) s :
  respects (absent_kept name) (importSql d f cb s).
Proof.
  intros w Habs. destruct (importSql_world d f cb s w) as (chunks & _ & _ & Hd & _).
  by rewrite Hd.
Qed.

#[local] Hint Resolve absent_send absent_stat_size absent_databaseExists
  absent_dropDatabase absent_createDatabase absent_getDatabaseInfo absent_importSql
  : frame.

Lemma absent_restore_step name i n f slimDir rc :
  restore_target f rc ≠ Some name →
  respects (absent_kept name) (restore_step i n f slimDir rc).
Proof.
  intros Ht. unfold restore_step. destruct (restore_target f rc) as [t|]; [|frame_steps].
  assert (t ≠ name) by congruence.
  unfold restore_to, recreate, progress. frame_steps.
Qed.

Lemma absent_report name f slimDir info :
  respects (absent_kept name) (report f slimDir info).
Proof. unfold report. frame_steps. Qed.

(** *** What is added to the log and to the channel *)

Section Grows.
Context (P : Cmd → Prop) (Q : ProgressEvent → Prop).

#[local] Instance grows_preorder : PreOrder (grows P Q).
Proof.
  split.
  - intros w. split; by exists [].
  - intros a b c [(n1 & Hl1 & Hp1) (m1 & Hs1 & Hq1)] [(n2 & Hl2 & Hp2) (m2 & Hs2 & Hq2)].
    split.
    + exists (n2 ++ n1). rewrite Hl2, Hl1, app_assoc. split; [done|].
      by apply Forall_app.
    + exists (m2 ++ m1). rewrite Hs2, Hs1, app_assoc. split; [done|].
      by apply Forall_app.
Qed.

(** A callback that only sends events in [Q]. *)
Definition sends {S} (cb : option (Callback S)) : Prop :=
  ∀ x s h, ∃ new, sent (call cb x s h).2 = new ++ sent h ∧ Forall Q new.

Lemma on_data_sends {S} (cb : option (Callback S)) report chunks bytes s h :
  sends cb →
  ∃ new, sent (on_data cb report chunks bytes s h).2 = new ++ sent h ∧ Forall Q new.
Proof.
  intros Hcb. revert bytes s h.
  induction chunks as [|x chunks IH]; intros bytes s h; simpl.
  - by exists [].
  - destruct (Hcb (report (bytes + x)) s h) as (n1 & H1 & Hq1).
    destruct (call cb (report (bytes + x)) s h) as [s' h']. simpl in H1.
    destruct (IH (bytes + x) s' h') as (n2 & H2 & Hq2).
    exists (n2 ++ n1). rewrite H2, H1, app_assoc. split; [done|].
    by apply Forall_app.
Qed.

Lemma grows_files f w : grows P Q w (set_files f w).
Proof. split; by exists []. Qed.

Lemma grows_send e : Q e → respects (grows P Q) (send e).
Proof. intros He w. split; [by exists [] | by exists [e]; repeat constructor]. Qed.

Lemma grows_stat_size p : respects (grows P Q) (stat_size p).
Proof. intros w. rewrite stat_size_world. reflexivity. Qed.

Lemma grows_after c w : P c → grows P Q w (after c w).
Proof.
  intros Hc. destruct (after_frame c w) as (_ & Hl & Hh). split.
  - exists [c]. by repeat constructor.
  - exists []. by rewrite Hh.
Qed.

Lemma grows_databaseExists d : P (CmdExists d) → respects (grows P Q) (databaseExists d).
Proof. intros Hc w. rewrite databaseExists_world. by apply grows_after. Qed.

Lemma grows_dropDatabase d : P (CmdDrop d) → respects (grows P Q) (dropDatabase d).
Proof. intros Hc w. rewrite dropDatabase_world. by apply grows_after. Qed.

Lemma grows_createDatabase d : P (CmdCreate d) → respects (grows P Q) (createDatabase d).
Proof. intros Hc w. rewrite createDatabase_world. by apply grows_after. Qed.

Lemma grows_importSql {S} d f (cb : option (Callback S)) s :
  P (CmdImport d f) → sends cb → respects (grows P Q) (importSql d f cb s).
Proof.
  intros Hc Hcb w.
  destruct (importSql_world d f cb s w) as (chunks & _ & Hl & _ & Hh).
  split.
  - exists [CmdImport d f]. rewrite Hl. by repeat constructor.
  - rewrite Hh. by apply on_data_sends.
Qed.

Lemma grows_dump_phase {S} c target report failure (cb : option (Callback S)) s :
  P c → sends cb → respects (grows P Q) (dump_phase c target report failure cb s).
Proof.
  intros Hc Hcb w. unfold dump_phase.
  pose proof (wait_frame c (launch c w)) as (_ & Hl & Hh).
  destruct (wait c (launch c w)) as [r w1]. simpl in *.
  destruct (on_data_sends cb report (chunk_lengths (stdout r)) 0 s (host w1) Hcb)
    as (new & Hnew & Hq).
  destruct (on_data _ _ _ _ _ _) as [s1 h3]. simpl in Hnew.
  assert (grows P Q w (set_host h3
    (set_files (insert target (File (concat_chunks (stdout r)))) w1))) as Hg.
  { split; simpl.
    - exists [c]. rewrite Hl. by repeat constructor.
    - exists new. by rewrite Hnew, Hh. }
  by destruct (exit_code r =? 0).
Qed.

Lemma grows_readFile p : respects (grows P Q) (readFile p).
Proof. intros w. unfold readFile. destruct (files w !! p) as [[| |]|]; reflexivity. Qed.

Lemma grows_append_file p data w : grows P Q w (append_file p data w).
Proof. unfold append_file. destruct (files w !! p) as [[| |]|]; apply grows_files. Qed.

Lemma grows_concatenate out sf df : respects (grows P Q) (concatenate out sf df).
Proof.
  intros w. unfold concatenate.
  assert (grows P Q w
    (match readFile sf (set_files (insert out (File "")) w) with
     | (Throw e, w2) => (Throw e, w2)
     | (Uncaught e, w2) => (Uncaught e, w2)
     | (Ok a, w2) =>
         let w3 := append_file out a w2 in
         match readFile df w3 with
         | (Throw e, w4) => (Throw e, w4)
         | (Uncaught e, w4) => (Uncaught e, w4)
         | (Ok b, w4) => (Ok tt, append_file out b w4)
         end
     end).2) as Hmain.
  { etrans; [apply (grows_files (insert out (File "")))|].
    pose proof (grows_readFile sf (set_files (insert out (File "")) w)) as H1.
    destruct (readFile sf _) as [[a|e|e] w2]; simpl in *; [|done..].
    etrans; [exact H1|]. etrans; [apply (grows_append_file out a)|].
    pose proof (grows_readFile df (append_file out a w2)) as H2.
    destruct (readFile df _) as [[b|e|e] w4]; simpl in *; [|done..].
    etrans; [exact H2|]. apply grows_append_file. }
  destruct (files w !! out) as [[| |]|]; try done; reflexivity.
Qed.

Lemma grows_remove_temps sf df : respects (grows P Q) (remove_temps sf df).
Proof.
  intros w. destruct (remove_temps_spec sf df w) as (w' & -> & _ & _ & _ & _ & Hl & Hh & _).
  simpl. split; exists []; by rewrite ?Hl, ?Hh.
Qed.

Lemma grows_exportSlimSql {S} d out excl (cb : option (Callback S)) s :
  P (CmdDumpStructure d) → P (CmdDumpData d excl) → sends cb →
  respects (grows P Q) (exportSlimSql d out excl cb s).
Proof.
  intros Hc1 Hc2 Hcb w. unfold exportSlimSql.
  destruct (temp_names out w) as [[sf df] wb] eqn:Htemp.
  apply temp_names_spec in Htemp as (_ & _ & _ & _ & Hl & _ & Hs).
  etrans; [instantiate (1 := wb); split; exists []; by rewrite ?Hl, ?Hs|].
  assert (respects (grows P Q)
    (try_catch
       (let! s1 := export_structure d sf cb s in
        let! s2 := export_data d df excl cb s1 in
        do! concatenate out sf df in
        do! remove_temps sf df in
        ret s2)
       (λ error, do! remove_temps sf df in throw error))) as Hr.
  { unfold export_structure, export_data.
    repeat first
      [ progress intros
      | apply grows_dump_phase
      | apply grows_concatenate
      | apply grows_remove_temps
      | apply respects_ret
      | apply respects_throw
      | apply respects_bind
      | apply respects_try_catch
      | done
      | apply grows_preorder ]. }
  apply Hr.
Qed.
End Grows.

(** ** The handler *)

Lemma Date_now_sent h : sent (Date_now h).2 = sent h.
Proof. unfold Date_now. by destruct (clock h). Qed.

Lemma import_progress_sends (Q : ProgressEvent → Prop) i n base label fileSize :
  (∀ pct, Q (mkEvent i n (Some base) label (Some pct))) →
  sends Q (Some (import_progress i n base label fileSize)).
Proof.
  intros HQ x s h. simpl. unfold import_progress.
  pose proof (Date_now_sent h) as Hs. destruct (Date_now h) as [now h1]. simpl in Hs.
  destruct (import_emits _ _ _); simpl.
  - eexists [_]. rewrite Hs. split; [done|]. by repeat constructor.
  - by exists [].
Qed.

Lemma export_progress_sends (Q : ProgressEvent → Prop) i n base :
  (∀ pct, Q (mkEvent i n (Some base) export_label (Some pct))) →
  sends Q (Some (export_progress i n base)).
Proof.
  intros HQ x s h. simpl. unfold export_progress.
  pose proof (Date_now_sent h) as Hs. destruct (Date_now h) as [now h1]. simpl in Hs.
  destruct (export_emits _ _ _); simpl.
  - eexists [_]. rewrite Hs. split; [done|]. by repeat constructor.
  - by exists [].
Qed.

Lemma slim_event_label i n base label pct :
  label ∈ slim_labels → slim_event (mkEvent i n base label pct).
Proof. done. Qed.

Lemma grows_slim_steps i n f slimDir ex :
  respects (grows (workspace_cmd (tempDbName f) f) slim_event)
    (slim_steps i n f slimDir ex).
Proof.
  pose proof (grows_preorder (workspace_cmd (tempDbName f) f) slim_event).
  assert (∀ l pct, l ∈ slim_labels →
    respects (grows (workspace_cmd (tempDbName f) f) slim_event) (progress i n f l pct))
    as Hprogress.
  { intros l pct Hl. apply grows_send. by apply slim_event_label. }
  unfold slim_steps, recreate.
  repeat first
    [ progress intros
    | apply Hprogress; unfold slim_labels; set_solver
    | apply grows_databaseExists; done
    | apply grows_dropDatabase; done
    | apply grows_createDatabase; done
    | apply grows_stat_size
    | apply grows_importSql;
        [done | apply import_progress_sends; intros;
                apply slim_event_label; unfold slim_labels; set_solver]
    | apply grows_exportSlimSql;
        [done | done | apply export_progress_sends; intros;
                       apply slim_event_label; unfold slim_labels; set_solver]
    | apply respects_ret
    | apply respects_if
    | apply respects_bind
    | done ].
Qed.

Lemma grows_cleanup f Q :
  respects (grows (λ c, c = CmdExists (tempDbName f) ∨ c = CmdDrop (tempDbName f)) Q)
    (cleanup f).
Proof.
  pose proof (grows_preorder
    (λ c, c = CmdExists (tempDbName f) ∨ c = CmdDrop (tempDbName f)) Q).
  unfold cleanup, cleanup_attempt.
  repeat first
    [ progress intros
    | apply grows_databaseExists; by left
    | apply grows_dropDatabase; by right
    | apply respects_ret
    | apply respects_if
    | apply respects_swallow
    | apply respects_bind
    | done ].
Qed.

Lemma grows_weaken (P P' : Cmd → Prop) (Q Q' : ProgressEvent → Prop) w w' :
  (∀ c, P c → P' c) → (∀ e, Q e → Q' e) → grows P Q w w' → grows P' Q' w w'.
Proof.
  intros HP HQ [(n & Hl & Hn) (m & Hs & Hm)]. split.
  - exists n. split; [done|]. eapply Forall_impl; eauto.
  - exists m. split; [done|]. eapply Forall_impl; eauto.
Qed.

(** The temp database never outlives a cleanup that raised no error. *)
Lemma cleanup_attempt_Ok f w w' :
  cleanup_attempt f w = (Ok tt, w') → tempDbName f ∉ dbs w'.
Proof.
  unfold cleanup_attempt. intros H.
  apply bind_Ok_inv in H as (present & w1 & Hex & H).
  apply databaseExists_Ok in Hex as (Hd & _ & Habs).
  destruct present.
  - apply dropDatabase_Ok in H. rewrite H.
    intros [_ Hn]%elem_of_difference. by apply Hn, elem_of_singleton.
  - injection H as <-. rewrite Hd. by apply Habs.
Qed.

(** A command the process of which is not failed from outside: the
    engine carries it out, or rejects it and stays as it was. *)
Lemma after_answered c w :
  answered 1 w →
  dbs (after c w)
  = match engine_rejects c (dbs w) with
    | Some _ => dbs w
    | None => engine_apply c (dbs w)
    end
  ∧ script (after c w) = tail (script w)
  ∧ exit_code (wait c (launch c w)).1
    = match engine_rejects c (dbs w) with Some _ => 1 | None => 0 end.
Proof.
  unfold answered, after, wait, launch, next_reply. simpl.
  destruct (script w) as [|r rs] eqn:Hs; simpl.
  - intros _. by destruct (engine_rejects c (dbs w)).
  - intros Hr%Forall_cons_1. destruct Hr as [Hr _]. rewrite Hr. simpl.
    by destruct (engine_rejects c (dbs w)).
Qed.

Lemma answered_tail k w w' :
  answered (S k) w → script w' = tail (script w) → answered k w'.
Proof.
  unfold answered. intros H ->. destruct (script w) as [|r rs]; simpl in *.
  - by rewrite take_nil.
  - by apply Forall_cons_1 in H as [_ H].
Qed.

Lemma answered_le k w : answered (S k) w → answered 1 w.
Proof.
  unfold answered. destruct (script w) as [|r rs]; simpl; [done|].
  intros [H _]%Forall_cons_1. rewrite take_0. by repeat constructor.
Qed.

(** When nothing outside the engine fails the two commands of the
    failure handler, the temp database is gone after them. *)
Lemma cleanup_attempt_answered f w :
  answered 2 w → tempDbName f ∉ dbs (cleanup_attempt f w).2.
Proof.
  intros H2. pose proof (answered_le _ _ H2) as H1.
  destruct (after_answered (CmdExists (tempDbName f)) w H1) as (Hd & Hs & Hx).
  simpl in Hd, Hx.
  pose proof (answered_tail _ _ _ H2 Hs) as H1'.
  unfold cleanup_attempt, bind.
  pose proof (databaseExists_world (tempDbName f) w) as Hw.
  destruct (databaseExists (tempDbName f) w) as [[present|e|e] w1] eqn:Hex;
    simpl in Hw; subst w1.
  - apply databaseExists_Ok in Hex as (_ & _ & Habs). destruct present.
    + rewrite dropDatabase_world.
      destruct (after_answered (CmdDrop (tempDbName f)) _ H1') as (Hd' & _ & _).
      rewrite Hd'. simpl. rewrite Hd.
      destruct (decide (tempDbName f ∈ dbs w)) as [Hin|Hout]; [|done].
      intros [_ Hn]%elem_of_difference. by apply Hn, elem_of_singleton.
    + simpl. rewrite Hd. by apply Habs.
  - exfalso. unfold databaseExists in Hex. unfold after in Hx.
    destruct (wait _ _) as [r w1]. simpl in Hx. by rewrite Hx in Hex.
  - unfold databaseExists in Hex. destruct (wait _ _) as [r w1].
    by destruct (_ =? _).
Qed.

(** The engine commands, the file system calls and the channel always
    settle: their streams have listeners, or they have none. *)
Lemma settles_send e : settles (send e).
Proof. by intros w e' w'. Qed.

Lemma settles_stat_size p : settles (stat_size p).
Proof. intros w e w'. unfold stat_size. by destruct (files w !! p) as [[| |]|]. Qed.

Lemma settles_databaseExists n : settles (databaseExists n).
Proof.
  intros w e w'. unfold databaseExists. destruct (wait _ _) as [r w1].
  by destruct (_ =? _).
Qed.

Lemma settles_dropDatabase n : settles (dropDatabase n).
Proof.
  intros w e w'. unfold dropDatabase. destruct (wait _ _) as [r w1].
  by destruct (_ =? _).
Qed.

Lemma settles_createDatabase n : settles (createDatabase n).
Proof.
  intros w e w'. unfold createDatabase. destruct (wait _ _) as [r w1].
  by destruct (_ =? _).
Qed.

Lemma settles_getDatabaseInfo n : settles (getDatabaseInfo n).
Proof.
  intros w e w'. unfold getDatabaseInfo. destruct (wait _ _) as [r w1].
  by destruct (_ =? _).
Qed.

Lemma settles_cleanup_attempt f : settles (cleanup_attempt f).
Proof.
  unfold cleanup_attempt. apply settles_bind; [apply settles_databaseExists|].
  intros present. apply settles_if; [apply settles_dropDatabase | apply settles_ret].
Qed.

Lemma cleanup_total f w : ∃ w', cleanup f w = (Ok tt, w').
Proof. apply swallow_Ok, settles_cleanup_attempt. Qed.

(** The world a cleanup leaves is the one its attempt left, whether the
    attempt threw or not. *)
Lemma cleanup_world f w : (cleanup f w).2 = (cleanup_attempt f w).2.
Proof.
  unfold cleanup, swallow, try_catch.
  by destruct (cleanup_attempt f w) as [[[]|e|e] w'].
Qed.

Lemma on_error_run f e w :
  ∃ w', on_error f e w = (Ok (ItemFailed (baseName f) (message e)), w')
    ∧ cleanup f w = (Ok tt, w').
Proof.
  destruct (cleanup_total f w) as (w' & Hc). exists w'. split; [|done].
  unfold on_error. by rewrite (bind_Ok _ _ _ _ _ Hc).
Qed.

Lemma report_Ok f slimDir info w r w' :
  report f slimDir info w = (Ok r, w') →
  fileName_of r = baseName f ∧ success r = true ∧ w' = w
  ∧ slimPath_of r = Some (slimPath f slimDir).
Proof.
  unfold report. intros H.
  apply bind_Ok_inv in H as (full & w1 & H1 & H).
  apply bind_Ok_inv in H as (slim & w2 & H2 & H).
  injection H as <- <-.
  pose proof (stat_size_world f w) as E1. rewrite H1 in E1. simpl in E1. subst w1.
  pose proof (stat_size_world (slimPath f slimDir) w) as E2. rewrite H2 in E2.
  simpl in E2. by subst w2.
Qed.

Lemma item_body_Ok i n f slimDir ex rc w r w' :
  item_body i n f slimDir ex rc w = (Ok r, w') →
  fileName_of r = baseName f ∧ success r = true
  ∧ ∃ w1 info, slim_steps i n f slimDir ex w = (Ok tt, w1)
      ∧ restore_step i n f slimDir rc w1 = (Ok info, w').
Proof.
  unfold item_body. intros H.
  apply bind_Ok_inv in H as ([] & w1 & H1 & H).
  apply bind_Ok_inv in H as (info & w2 & H2 & H).
  apply report_Ok in H as (Hn & Hs & -> & _). eauto 10.
Qed.

(** An iteration never throws: it ends with an entry for its file, or
    it does not end. *)
Lemma slim_item_cases i n f slimDir ex rc w :
  (∃ r w', slim_item i n f slimDir ex rc w = (Ok r, w') ∧ fileName_of r = baseName f)
  ∨ (∃ e w', slim_item i n f slimDir ex rc w = (Uncaught e, w')
       ∧ item_body i n f slimDir ex rc w = (Uncaught e, w')).
Proof.
  unfold slim_item, try_catch.
  destruct (item_body i n f slimDir ex rc w) as [[r|e|e] w1] eqn:Hb.
  - apply item_body_Ok in Hb as (Hn & _). left. eauto.
  - destruct (on_error_run f e w1) as (w' & -> & _). left. eauto.
  - right. eauto.
Qed.

Lemma slim_item_Ok i n f slimDir ex rc w r w' :
  slim_item i n f slimDir ex rc w = (Ok r, w') → fileName_of r = baseName f.
Proof.
  intros Hrun.
  destruct (slim_item_cases i n f slimDir ex rc w)
    as [(r0 & w0 & H0 & Hn) | (e & w0 & H0 & _)]; congruence.
Qed.

Lemma slim_item_no_throw i n f slimDir ex rc w e w' :
  slim_item i n f slimDir ex rc w ≠ (Throw e, w').
Proof.
  destruct (slim_item_cases i n f slimDir ex rc w)
    as [(r0 & w0 & H0 & Hn) | (e0 & w0 & H0 & _)]; congruence.
Qed.

Lemma slim_item_of_failure i n f slimDir ex rc w e wf :
  item_body i n f slimDir ex rc w = (Throw e, wf) →
  ∃ w', slim_item i n f slimDir ex rc w = (Ok (ItemFailed (baseName f) (message e)), w')
    ∧ cleanup f wf = (Ok tt, w').
Proof.
  intros Hb. unfold slim_item, try_catch. rewrite Hb. apply on_error_run.
Qed.

(** After the four steps of the transformation the temp database is gone
    and the slim dump is on disk. *)
Lemma slim_steps_Ok i n f slimDir ex w w' :
  slim_steps i n f slimDir ex w = (Ok tt, w') →
  (tempDbName f ∉ dbs w')
  ∧ (∃ content, files w' !! slimPath f slimDir = Some (File content)).
Proof.
  unfold slim_steps. intros H.
  apply bind_Ok_inv in H as ([] & w1 & _ & H).
  apply bind_Ok_inv in H as ([] & w2 & _ & H).
  apply bind_Ok_inv in H as ([] & w3 & _ & H).
  apply bind_Ok_inv in H as (fileSize & w4 & _ & H).
  apply bind_Ok_inv in H as ([] & w5 & _ & H).
  apply bind_Ok_inv in H as (st1 & w6 & _ & H).
  apply bind_Ok_inv in H as ([] & w7 & _ & H).
  apply bind_Ok_inv in H as (st2 & w8 & Hexport & H).
  apply bind_Ok_inv in H as ([] & w9 & Hsend1 & H).
  apply bind_Ok_inv in H as ([] & w10 & Hdrop & H).
  injection H as <-. simpl.
  split.
  - apply dropDatabase_Ok in Hdrop. rewrite Hdrop.
    intros [_ Hn]%elem_of_difference. by apply Hn, elem_of_singleton.
  - destruct (temp_names (slimPath f slimDir) w7) as [[sf df] wb] eqn:Htemp.
    pose proof Htemp as (_ & (t1 & t2 & -> & ->) & _)%temp_names_spec.
    destruct (slimPath_not_temp f slimDir t1) as [Hsf _].
    destruct (slimPath_not_temp f slimDir t2) as [_ Hdf].
    destruct (exportSlimSql_Ok_stages _ _ _ _ _ _ _ _ _ _ _ Htemp Hexport)
      as (s1 & wa & wc & wd & _ & _ & Hcat & Hrm).
    destruct (concatenated_output _ _ _ _ _ _ Hsf Hdf Hcat Hrm)
      as (a & b & _ & _ & Hout).
    exists (a +:+ b).
    pose proof (files_dropDatabase (tempDbName f) w9) as Hf. rewrite Hdrop in Hf.
    unfold same_files in Hf. simpl in Hf. rewrite Hf.
    injection Hsend1 as <-. done.
Qed.

(** ** The loop *)

Lemma slim_loop_Ok n slimDir ex rc i inputs w rs w' :
  slim_loop n slimDir ex rc i inputs w = (Ok rs, w') →
  map fileName_of rs = map baseName inputs.
Proof.
  revert i w rs. induction inputs as [|f inputs IH]; intros i w rs; simpl.
  - by intros [= <- <-].
  - intros H. apply bind_Ok_inv in H as (r & w1 & Hr & H).
    apply bind_Ok_inv in H as (rs' & w2 & Hrs & H). injection H as <- <-.
    simpl. by rewrite (slim_item_Ok _ _ _ _ _ _ _ _ _ Hr), (IH _ _ _ Hrs).
Qed.

Lemma slim_loop_no_throw n slimDir ex rc i inputs w e w' :
  slim_loop n slimDir ex rc i inputs w ≠ (Throw e, w').
Proof.
  revert i w. induction inputs as [|f inputs IH]; intros i w; simpl; [done|].
  intros [H | (r & w1 & Hr & H)]%bind_Throw_inv.
  - by apply slim_item_no_throw in H.
  - apply bind_Throw_inv in H as [H | (rs & w2 & _ & H)]; [by apply IH in H | done].
Qed.

(** The loop over [pre ++ f :: post]: the items of [pre], then [f] from
    the world they left, then the items of [post] from the world [f]
    left. *)
Lemma slim_loop_split n slimDir ex rc i pre f post w rs w' :
  slim_loop n slimDir ex rc i (pre ++ f :: post) w = (Ok rs, w') →
  ∃ rs1 w1 r w2 rs2,
    slim_loop n slimDir ex rc i pre w = (Ok rs1, w1)
    ∧ slim_item (i + length pre) n f slimDir ex rc w1 = (Ok r, w2)
    ∧ slim_loop n slimDir ex rc (S (i + length pre)) post w2 = (Ok rs2, w')
    ∧ rs = rs1 ++ r :: rs2 ∧ length rs1 = length pre.
Proof.
  revert i w rs. induction pre as [|p pre IH]; intros i w rs; simpl.
  - intros H. apply bind_Ok_inv in H as (r & w2 & Hr & H).
    apply bind_Ok_inv in H as (rs2 & w3 & Hrs & H). injection H as <- <-.
    exists [], w, r, w2, rs2. rewrite Nat.add_0_r. by repeat split.
  - intros H. apply bind_Ok_inv in H as (r0 & w0 & Hr0 & H).
    apply bind_Ok_inv in H as (rs' & w3 & Hrs & H). injection H as <- <-.
    apply IH in Hrs as (rs1 & w1 & r & w2 & rs2 & H1 & Hr & H2 & -> & Hlen).
    exists (r0 :: rs1), w1, r, w2, rs2.
    rewrite (bind_Ok _ _ _ _ _ Hr0), (bind_Ok _ _ _ _ _ H1).
    replace (i + S (length pre))%nat with (S i + length pre)%nat by lia.
    simpl. by rewrite Hlen.
Qed.

(** *** Only one database is touched *)

Definition only_db (name : string) : relation World :=
  λ w w', ∀ d, d ≠ name → d ∈ dbs w' ↔ d ∈ dbs w.

#[local] Instance only_db_preorder name : PreOrder (only_db name).
Proof.
  split.
  - by intros w d Hd.
  - intros a b c Hab Hbc d Hd. by rewrite (Hbc d Hd), (Hab d Hd).
Qed.

Lemma only_db_after name c w :
  c = CmdExists name ∨ c = CmdDrop name → only_db name w (after c w).
Proof.
  intros Hc d Hd. unfold after.
  destruct (wait_dbs_cases c (launch c w)) as [Hw|Hw]; rewrite Hw; [done|].
  destruct Hc as [-> | ->]; simpl; [done|].
  rewrite elem_of_difference, elem_of_singleton. tauto.
Qed.

Lemma only_db_cleanup f : respects (only_db (tempDbName f)) (cleanup f).
Proof.
  assert (respects (only_db (tempDbName f)) (databaseExists (tempDbName f))) as Hex.
  { intros w. rewrite databaseExists_world. apply only_db_after. by left. }
  assert (respects (only_db (tempDbName f)) (dropDatabase (tempDbName f))) as Hdrop.
  { intros w. rewrite dropDatabase_world. apply only_db_after. by right. }
  unfold cleanup, cleanup_attempt.
  apply respects_swallow; [apply _|]. apply respects_bind; [apply _|done|].
  intros present. apply respects_if; [done|]. apply respects_ret. apply _.
Qed.

Lemma restore_label_not_slim t : restore_label t ∉ slim_labels.
Proof.
  unfold slim_labels, restore_label, export_label. intros H.
  repeat (apply elem_of_cons in H as [H|H];
          [rewrite append_cons in H; discriminate H|]).
  by apply elem_of_nil in H.
Qed.

(** The check answers no for an absent database unless the name, read
    as a pattern, matches another one. *)
Lemma databaseExists_false name w b w' :
  (∀ d, d ∈ dbs w → like name d = false) →
  databaseExists name w = (Ok b, w') → b = false.
Proof.
  intros Hno (_ & Hb & _)%databaseExists_Ok. apply not_true_iff_false.
  intros (d & Hd & Hl)%Hb. by rewrite (Hno d Hd) in Hl.
Qed.

(* ===================================================================== *)
(** * The claims *)
(* ===================================================================== *)

(** C3. If the structure phase or the data phase of [exportSlimSql]
    fails, the function ends with that same error, no file is left at
    either temporary path, and the output path holds what it held before
    the call.  The output path is assumed not to name one of the two
    temporary files. *)
Theorem exportSlimSql_failed_phase {S} dbName outFile excludeDataTables
    (onProgress : option (Callback S)) s w sf df wb e wf :
  temp_names outFile w = (sf, df, wb) →
  outFile ≠ sf → outFile ≠ df →
  export_structure dbName sf onProgress s wb = (Throw e, wf)
  ∨ (∃ s1 w1, export_structure dbName sf onProgress s wb = (Ok s1, w1)
       ∧ export_data dbName df excludeDataTables onProgress s1 w1 = (Throw e, wf)) →
  ∃ w', exportSlimSql dbName outFile excludeDataTables onProgress s w = (Throw e, w')
    ∧ files w' !! outFile = files w !! outFile
    ∧ (∀ d, files w' !! sf ≠ Some (File d))
    ∧ (∀ d, files w' !! df ≠ Some (File d)).
Proof.
  intros Htemp Hsf Hdf Hfail. unfold exportSlimSql. rewrite Htemp.
  apply temp_names_spec in Htemp as (Hne & _ & _ & Hfiles & _).
  destruct (rethrow_after_remove_temps (A:=S) sf df e wf)
    as (w' & Hr & Hnsf & Hndf & Hother).
  exists w'.
  assert (files wf !! outFile = files w !! outFile) as Hout.
  { destruct Hfail as [H1 | (s1 & w1 & H1 & H2)].
    - destruct (dump_phase_files (CmdDumpStructure dbName) sf structure_report
                  "MySQL structure export failed: " onProgress s wb) as (a & Ha).
      fold (export_structure dbName sf onProgress s wb) in Ha.
      rewrite H1 in Ha. simpl in Ha.
      by rewrite Ha, lookup_insert_ne, Hfiles.
    - destruct (dump_phase_files (CmdDumpStructure dbName) sf structure_report
                  "MySQL structure export failed: " onProgress s wb) as (a & Ha).
      destruct (dump_phase_files (CmdDumpData dbName excludeDataTables) df data_report
                  "MySQL data export failed: " onProgress s1 w1) as (b & Hb).
      fold (export_structure dbName sf onProgress s wb) in Ha.
      fold (export_data dbName df excludeDataTables onProgress s1 w1) in Hb.
      rewrite H1 in Ha. rewrite H2 in Hb. simpl in Ha, Hb.
      by rewrite Hb, lookup_insert_ne, Ha, lookup_insert_ne, Hfiles. }
  split; [|by rewrite Hother, Hout].
  unfold try_catch.
  destruct Hfail as [H1 | (s1 & w1 & H1 & H2)].
  - by rewrite (bind_Throw _ _ _ _ _ H1).
  - rewrite (bind_Ok _ _ _ _ _ H1). by rewrite (bind_Throw _ _ _ _ _ H2).
Qed.

(** C2. Whenever [exportSlimSql] completes successfully, the output file
    holds the full contents of the structure artifact immediately followed
    by the full contents of the data artifact, and nothing else.  The
    output path is assumed not to name one of the function's own two
    temporary files. *)
Theorem exportSlimSql_concatenation {S} dbName outFile excludeDataTables
    (onProgress : option (Callback S)) s w sf df wb s' w' :
  temp_names outFile w = (sf, df, wb) →
  outFile ≠ sf → outFile ≠ df →
  exportSlimSql dbName outFile excludeDataTables onProgress s w = (Ok s', w') →
  ∃ s1 w1 w2 a b,
    export_structure dbName sf onProgress s wb = (Ok s1, w1)
    ∧ files w1 !! sf = Some (File a)
    ∧ export_data dbName df excludeDataTables onProgress s1 w1 = (Ok s', w2)
    ∧ files w2 !! sf = Some (File a)
    ∧ files w2 !! df = Some (File b)
    ∧ files w' !! outFile = Some (File (a +:+ b)).
Proof.
  intros Htemp Hsf Hdf Hrun.
  destruct (exportSlimSql_Ok_stages _ _ _ _ _ _ _ _ _ _ _ Htemp Hrun)
    as (s1 & w1 & w2 & w3 & Hp1 & Hp2 & Hcat & Hrm).
  apply temp_names_spec in Htemp as (Hne & _).
  destruct (dump_phase_files (CmdDumpStructure dbName) sf structure_report
              "MySQL structure export failed: " onProgress s wb) as (a & Ha).
  destruct (dump_phase_files (CmdDumpData dbName excludeDataTables) df data_report
              "MySQL data export failed: " onProgress s1 w1) as (b & Hb).
  fold (export_structure dbName sf onProgress s wb) in Ha.
  fold (export_data dbName df excludeDataTables onProgress s1 w1) in Hb.
  rewrite Hp1 in Ha. rewrite Hp2 in Hb. simpl in Ha, Hb.
  assert (files w1 !! sf = Some (File a)) as Hsf1 by (by rewrite Ha, lookup_insert_eq).
  assert (files w2 !! sf = Some (File a)) as Hsf2
    by (by rewrite Hb, lookup_insert_ne, Hsf1).
  assert (files w2 !! df = Some (File b)) as Hdf2 by (by rewrite Hb, lookup_insert_eq).
  destruct (concatenated_output _ _ _ _ _ _ Hsf Hdf Hcat Hrm)
    as (a' & b' & Ha' & Hb' & Hout).
  exists s1, w1, w2, a, b. do 5 (split; [done|]). congruence.
Qed.



(** C1, at a failing input.  A batch of two whose first path is a
    directory: the size of the path is read, the temp database is
    created, and the read stream of the import fails with [EISDIR].  No
    listener takes that error, so it escapes the [try] of the item: the
    handler returns no result at all, the second file is never
    processed, and the temp database of the first stays in the engine. *)
Theorem slim_start_never_returns_on_directory :
  let run := slim_start "/db" [Scenario.folder; Scenario.full] None
               Scenario.with_folder in
  run.1 = Uncaught (EISDIR "read")
  ∧ rev (log run.2)
    = [CmdExists "archive_temp"; CmdCreate "archive_temp";
       CmdImport "archive_temp" Scenario.folder]
  ∧ elements (dbs run.2) = ["archive_temp"]
  ∧ last (emitted run.2)
    = Some (mkEvent 0 2 (Some "archive") "Importing full dump..." (Some 0)).
Proof. vm_compute. repeat split; reflexivity. Qed.

(** C4, amended.  After an item has reached its terminal state, no
    database bearing the name of its workspace is in the engine,
    provided that on the success path the restore target is not the
    workspace name itself, and that on the failure path nothing outside
    the engine fails the two commands of the failure handler, the
    question and the drop (an error there is swallowed and may leave the
    workspace behind).  [databaseExists] then answers false for the name
    whenever no other name in the engine matches it read as a pattern. *)
Theorem workspace_gone_after_item i n f slimDir ex rc w r w' :
  slim_item i n f slimDir ex rc w = (Ok r, w') →
  (success r = true ∧ restore_target f rc ≠ Some (tempDbName f))
  ∨ (∃ e wf, item_body i n f slimDir ex rc w = (Throw e, wf) ∧ answered 2 wf) →
  (tempDbName f ∉ dbs w')
  ∧ (∀ b w'', databaseExists (tempDbName f) w' = (Ok b, w'') →
       (∀ d, d ∈ dbs w' → d ≠ tempDbName f → like (tempDbName f) d = false) →
       b = false).
Proof.
  intros Hitem Hcase.
  assert (tempDbName f ∉ dbs w') as Hgone.
  { destruct Hcase as [[Hs Ht] | (e & wf & Hbody & Hclean)].
    - unfold slim_item, try_catch in Hitem.
      destruct (item_body i n f slimDir ex rc w) as [[r0|e|e] w0] eqn:Hbody; [| |done].
      + injection Hitem as -> ->. unfold item_body in Hbody.
        apply bind_Ok_inv in Hbody as ([] & w1 & Hsteps & Hbody).
        apply bind_Ok_inv in Hbody as (info & w2 & Hrestore & Hreport).
        apply slim_steps_Ok in Hsteps as [Hgone _].
        apply (respects_run _ _ _ _ _ (absent_restore_step _ i n f slimDir rc Ht))
          in Hrestore.
        apply (respects_run _ _ _ _ _ (absent_report (tempDbName f) f slimDir info))
          in Hreport.
        by apply Hreport, Hrestore.
      + destruct (on_error_run f e w0) as (w1 & Hrun & _).
        rewrite Hrun in Hitem. injection Hitem as <- <-. done.
    - destruct (slim_item_of_failure _ _ _ _ _ rc _ _ _ Hbody) as (w1 & Hrun & Hc).
      rewrite Hrun in Hitem. injection Hitem as <- <-.
      pose proof (cleanup_world f wf) as Hw. rewrite Hc in Hw. simpl in Hw.
      rewrite Hw. by apply cleanup_attempt_answered. }
  split; [done|].
  intros b w'' Hex Hno. eapply databaseExists_false; [|exact Hex].
  intros d Hd. apply Hno; [done|]. by intros ->.
Qed.

(** C8, amended.  If a step before the optional restore fails (temp
    database, import of the full dump, slim export or cleanup), the item's
    result has [success = false] and no restore was attempted for it: the
    item ran only commands on its workspace, the only import being that
    of the input file, and sent no event under a restore label.  (A
    failure inside the restore step also gives [success = false].) *)
Theorem no_restore_after_early_failure i n f slimDir ex rc w e wf :
  slim_steps i n f slimDir ex w = (Throw e, wf) →
  ∃ w' cmds events,
    slim_item i n f slimDir ex rc w = (Ok (ItemFailed (baseName f) (message e)), w')
    ∧ log w' = cmds ++ log w
    ∧ sent (host w') = events ++ sent (host w)
    ∧ Forall (workspace_cmd (tempDbName f) f) cmds
    ∧ (∀ t, CmdInfo t ∉ cmds)
    ∧ (∀ t p, CmdImport t p ∈ cmds → t = tempDbName f ∧ p = f)
    ∧ (∀ ev t, ev ∈ events → step ev ≠ restore_label t).
Proof.
  intros Hsteps.
  assert (item_body i n f slimDir ex rc w = (Throw e, wf)) as Hbody.
  { unfold item_body. by rewrite (bind_Throw _ _ _ _ _ Hsteps). }
  destruct (slim_item_of_failure _ _ _ _ _ rc _ _ _ Hbody) as (w' & Hitem & Hclean).
  pose proof (respects_run _ _ _ _ _ (grows_slim_steps i n f slimDir ex) Hsteps) as Hg1.
  pose proof (respects_run _ _ _ _ _ (grows_cleanup f slim_event) Hclean) as Hg2.
  apply (grows_weaken _ (workspace_cmd (tempDbName f) f) _ slim_event) in Hg2;
    [|by intros c [-> | ->] | done].
  pose proof (grows_preorder (workspace_cmd (tempDbName f) f) slim_event) as Hpre.
  assert (grows (workspace_cmd (tempDbName f) f) slim_event w w') as Hg
    by (etrans; done).
  destruct Hg as [(cmds & Hlog & Hcmds) (events & Hsent & Hevents)].
  exists w', cmds, events. do 4 (split; [done|]).
  rewrite Forall_forall in Hcmds. rewrite Forall_forall in Hevents.
  split; [|split].
  - intros t Hin. by apply Hcmds in Hin.
  - intros t p Hin. by apply Hcmds in Hin.
  - intros ev t Hin Hstep. apply Hevents in Hin. unfold slim_event in Hin.
    rewrite Hstep in Hin. by apply restore_label_not_slim in Hin.
Qed.

(** C10. If the optional restore of an item fails after its slim dump
    has been composed, the item's entry has [success = false] and no
    output path, yet the slim dump stays on disk as it was written: the
    failure handler changes no file, and the only database it may remove
    is the temp workspace. *)
Theorem restore_failure_keeps_slim_dump i n f slimDir ex rc w w1 e w2 :
  slim_steps i n f slimDir ex w = (Ok tt, w1) →
  restore_step i n f slimDir rc w1 = (Throw e, w2) →
  ∃ r w' content,
    slim_item i n f slimDir ex rc w = (Ok r, w')
    ∧ success r = false
    ∧ error_of r = Some (message e)
    ∧ slimPath_of r = None
    ∧ files w1 !! slimPath f slimDir = Some (File content)
    ∧ files w' !! slimPath f slimDir = Some (File content)
    ∧ files w' = files w1
    ∧ cleanup f w2 = (Ok tt, w')
    ∧ (∀ d, d ≠ tempDbName f → d ∈ dbs w' ↔ d ∈ dbs w2).
Proof.
  intros Hsteps Hrestore.
  assert (item_body i n f slimDir ex rc w = (Throw e, w2)) as Hbody.
  { unfold item_body.
    by rewrite (bind_Ok _ _ _ _ _ Hsteps), (bind_Throw _ _ _ _ _ Hrestore). }
  destruct (slim_item_of_failure _ _ _ _ _ rc _ _ _ Hbody) as (w' & Hitem & Hclean).
  destruct (slim_steps_Ok _ _ _ _ _ _ _ Hsteps) as [_ (content & Hcontent)].
  pose proof (respects_run _ _ _ _ _ (files_restore_step i n f slimDir rc) Hrestore)
    as Hf1.
  pose proof (respects_run _ _ _ _ _ (files_cleanup f) Hclean) as Hf2.
  pose proof (respects_run _ _ _ _ _ (only_db_cleanup f) Hclean) as Hdb.
  unfold same_files in Hf1, Hf2.
  assert (files w' = files w1) as Hfiles by congruence.
  exists (ItemFailed (baseName f) (message e)), w', content.
  do 5 (split; [done|]). split; [by rewrite Hfiles|]. done.
Qed.

(** C9. [loadExcludeTables] splits the artifact into lines, trims each,
    discards blank lines and lines beginning with ['#'], and returns the
    remaining trimmed lines in file order (the list the design's
    description determines); a read that fails with [ENOENT] (in
    particular a missing artifact) gives the empty list, and any other
    read error is thrown as it is. *)
Theorem loadExcludeTables_spec (configPath : string) (w : World) :
  match readFile configPath w with
  | (Ok content, _) =>
      ∃ lines names,
        lines_of content lines ∧ exclusion_lines lines names
        ∧ loadExcludeTables configPath w = (Ok names, w)
        ∧ ∀ lines' names',
            lines_of content lines' → exclusion_lines lines' names' →
            names' = names
  | (Throw e, _) =>
      if decide (code e = Some "ENOENT")
      then loadExcludeTables configPath w = (Ok [], w)
      else loadExcludeTables configPath w = (Throw e, w)
  | (Uncaught _, _) => False
  end
  ∧ (files w !! configPath = None → loadExcludeTables configPath w = (Ok [], w)).
Proof.
  unfold loadExcludeTables, try_catch, bind, readFile.
  destruct (files w !! configPath) as [[content| |e]|] eqn:Hfile; simpl.
  - split; [|done].
    exists (Js.split_nl content), (List.filter is_table_line (map Js.trim (Js.split_nl content))).
    split; [apply split_nl_lines|]. split; [apply filter_exclusion_lines|].
    split; [done|]. intros lines' names' ->%lines_of_split.
    apply exclusion_lines_filter.
  - done.
  - split; [|done]. by destruct (decide (code e = Some "ENOENT")).
  - done.
Qed.

(** A file that begins with a byte order mark, pads a name with no-break
    spaces and ends its lines with CR LF: read by the design's words, its
    lines give the names ["sessions"] and ["cache"], and these are the
    names returned; and a missing file gives none. *)
Lemma loadExcludeTables_spec_witness :
  lines_of (Js.join_nl Scenario.marked_lines) Scenario.marked_lines
  ∧ exclusion_lines Scenario.marked_lines ["sessions"; "cache"]
  ∧ loadExcludeTables Scenario.config Scenario.marked
    = (Ok ["sessions"; "cache"], Scenario.marked)
  ∧ loadExcludeTables "/db/config/none.txt" (Scenario.world [])
    = (Ok [], Scenario.world []).
Proof.
  assert (lines_of (Js.join_nl Scenario.marked_lines) Scenario.marked_lines) as Hlines.
  { split; [reflexivity|]. split; [done|]. by repeat constructor. }
  assert (exclusion_lines Scenario.marked_lines ["sessions"; "cache"]) as Hnames.
  { unfold Scenario.marked_lines.
    apply (excl_comment _ " tables left empty").
    { rewrite <- (append_nil_r (String "#" " tables left empty")) at 1.
      apply (trimmed_of_intro Scenario.bom _ "");
        [by apply blank_by_dropping | constructor | by vm_compute | by vm_compute]. }
    apply excl_table; [|done|by intros r [=]|].
    { change (Scenario.nbsp +:+ " sessions" +:+ Scenario.nbsp +:+ String "013" "")
        with ((Scenario.nbsp +:+ " ") +:+ "sessions" +:+ (Scenario.nbsp +:+ String "013" "")).
      apply trimmed_of_intro;
        [by apply blank_by_dropping | by apply blank_by_dropping
        | by vm_compute | by vm_compute]. }
    apply excl_table; [|done|by intros r [=]|constructor].
    rewrite <- (append_nil_r "cache") at 1.
    apply (trimmed_of_intro "" "cache" "");
      [constructor | constructor | by vm_compute | by vm_compute]. }
  split; [exact Hlines|]. split; [exact Hnames|]. split.
  - pose proof (loadExcludeTables_spec Scenario.config Scenario.marked) as [Hspec _].
    assert (readFile Scenario.config Scenario.marked
            = (Ok (Js.join_nl Scenario.marked_lines), Scenario.marked)) as Hread
      by reflexivity.
    rewrite Hread in Hspec. destruct Hspec as (lines & names & _ & _ & Hrun & Hunique).
    by rewrite Hrun, (Hunique _ _ Hlines Hnames).
  - apply (loadExcludeTables_spec "/db/config/none.txt" (Scenario.world [])).
    reflexivity.
Defined.

(** What the import callbacks do with one update: the event is sent
    exactly when the percentage differs from the last one sent and either
    rose by a whole point or more than 200 ms have passed. *)
Lemma import_progress_step i n base label fileSize bytes st h :
  let pct := import_percentage fileSize bytes in
  let now := (Date_now h).1 in
  let out := import_progress i n base label fileSize bytes st h in
  let due := bool_decide (pct ≠ lastPercentage st
               ∧ (1 ≤ pct - lastPercentage st ∨ 200 < now - lastUpdate st)) in
  sent out.2 = (if due then [mkEvent i n (Some base) label (Some pct)] else [])
               ++ sent h
  ∧ out.1 = (if due then mkThrottle pct now else st).
Proof.
  intros pct now out due.
  assert (import_emits pct now st = due) as Hdue.
  { unfold import_emits, due. apply eq_true_iff_eq.
    rewrite andb_true_iff, orb_true_iff, negb_true_iff, Z.eqb_neq,
      Z.leb_le, Z.ltb_lt, bool_decide_eq_true. done. }
  subst out. unfold import_progress. fold pct.
  pose proof (Date_now_sent h) as Hs. subst now.
  destruct (Date_now h) as [now h1]. simpl in *. rewrite Hdue.
  split; [destruct due; simpl; by rewrite Hs | by destruct due].
Qed.

(** C6, at a failing input.  Two updates of a 100 MiB import, at 1 MiB
    and 64 KiB later.  The first is sent (1%) at time 1000; the second
    comes at time 2000, a full second after that emission, with the
    percentage still 1: the claim, like the comment above the condition
    and like the callback of the export, has it sent, and it is not,
    the whole condition being guarded by [percentage !== lastPercentage]. *)
Theorem import_update_after_a_second_not_sent :
  let cb := import_progress 0 1 "shop" "Importing full dump..." 104857600 in
  let h0 := mkHost [] [1000; 2000] in
  let first := cb 1048576 throttle0 h0 in
  let second := cb 1114112 first.1 first.2 in
  sent first.2 = [mkEvent 0 1 (Some "shop") "Importing full dump..." (Some 1)]
  ∧ lastUpdate first.1 = 1000
  ∧ (Date_now first.2).1 = 2000
  ∧ 200 < 2000 - lastUpdate first.1
  ∧ import_percentage 104857600 1114112 = lastPercentage first.1
  ∧ sent second.2 = sent first.2
  ∧ export_emits (import_percentage 104857600 1114112) 2000 first.1 = true.
Proof. vm_compute. repeat split; congruence. Qed.


Lemma exportSlimSql_concatenation_witness :
  temp_names Scenario.slim Scenario.small_dumps
    = (Run.structure_path, Run.data_path, (temp_names Scenario.slim Scenario.small_dumps).2)
  ∧ Scenario.slim ≠ Run.structure_path
  ∧ Scenario.slim ≠ Run.data_path
  ∧ Run.export Scenario.small_dumps = (Ok [3; 5], (Run.export Scenario.small_dumps).2)
  ∧ ∃ a b, files (Run.export Scenario.small_dumps).2 !! Scenario.slim
           = Some (File (a +:+ b)).
Proof.
  assert (temp_names Scenario.slim Scenario.small_dumps
    = (Run.structure_path, Run.data_path,
       (temp_names Scenario.slim Scenario.small_dumps).2)) as H1
    by (vm_compute; reflexivity).
  assert (Scenario.slim ≠ Run.structure_path) as H2 by (vm_compute; congruence).
  assert (Scenario.slim ≠ Run.data_path) as H3 by (vm_compute; congruence).
  assert (Run.export Scenario.small_dumps
          = (Ok [3; 5], (Run.export Scenario.small_dumps).2)) as H4
    by (vm_compute; reflexivity).
  do 4 (split; [assumption|]).
  destruct (exportSlimSql_concatenation _ _ _ _ _ _ _ _ _ _ _ H1 H2 H3 H4)
    as (_ & _ & _ & a & b & _ & _ & _ & _ & _ & Hout).
  exists a, b. exact Hout.
Defined.

Lemma exportSlimSql_failed_phase_witness :
  temp_names Scenario.slim Run.broken_dump
    = (Run.structure_path, Run.data_path, (temp_names Scenario.slim Run.broken_dump).2)
  ∧ Scenario.slim ≠ Run.structure_path
  ∧ Scenario.slim ≠ Run.data_path
  ∧ (export_structure "shop_temp" Run.structure_path (Some Scenario.recorder) []
       (temp_names Scenario.slim Run.broken_dump).2).1
    = Throw (Error "MySQL structure export failed: mysqldump: Got error 2013")
  ∧ ∃ w', Run.export Run.broken_dump
          = (Throw (Error "MySQL structure export failed: mysqldump: Got error 2013"), w')
      ∧ files w' !! Scenario.slim = files Run.broken_dump !! Scenario.slim.
Proof.
  assert (temp_names Scenario.slim Run.broken_dump
    = (Run.structure_path, Run.data_path,
       (temp_names Scenario.slim Run.broken_dump).2)) as H1
    by (vm_compute; reflexivity).
  assert (Scenario.slim ≠ Run.structure_path) as H2 by (vm_compute; congruence).
  assert (Scenario.slim ≠ Run.data_path) as H3 by (vm_compute; congruence).
  assert (export_structure "shop_temp" Run.structure_path (Some Scenario.recorder) []
            (temp_names Scenario.slim Run.broken_dump).2
          = (Throw (Error "MySQL structure export failed: mysqldump: Got error 2013"),
             (export_structure "shop_temp" Run.structure_path (Some Scenario.recorder) []
                (temp_names Scenario.slim Run.broken_dump).2).2)) as H4
    by (vm_compute; reflexivity).
  do 3 (split; [assumption|]). split; [by rewrite H4|].
  destruct (exportSlimSql_failed_phase "shop_temp" Scenario.slim []
              (Some Scenario.recorder) [] Run.broken_dump _ _ _ _ _ H1 H2 H3
              (or_introl H4))
    as (w' & Hrun & Hout & _).
  exists w'. split; [exact Hrun | exact Hout].
Defined.


Lemma workspace_gone_after_item_witness :
  (Run.item None Scenario.calm = (Ok Run.shop_ok, (Run.item None Scenario.calm).2)
   ∧ success Run.shop_ok = true
   ∧ restore_target Scenario.full None ≠ Some (tempDbName Scenario.full)
   ∧ tempDbName Scenario.full ∉ dbs (Run.item None Scenario.calm).2)
  ∧ (Run.item None Scenario.failed_import
     = (Ok (ItemFailed "shop" "MySQL import failed: ERROR 1064: syntax error"),
        (Run.item None Scenario.failed_import).2)
     ∧ (item_body 0 1 Scenario.full Run.slimDir Run.excluded None
          Scenario.failed_import).1
       = Throw (Error "MySQL import failed: ERROR 1064: syntax error")
     ∧ tempDbName Scenario.full
         ∈ dbs (item_body 0 1 Scenario.full Run.slimDir Run.excluded None
                  Scenario.failed_import).2
     ∧ answered 2 (item_body 0 1 Scenario.full Run.slimDir Run.excluded None
                     Scenario.failed_import).2
     ∧ tempDbName Scenario.full ∉ dbs (Run.item None Scenario.failed_import).2).
Proof.
  split.
  - assert (Run.item None Scenario.calm
            = (Ok Run.shop_ok, (Run.item None Scenario.calm).2)) as H1
      by (vm_compute; reflexivity).
    assert (restore_target Scenario.full None ≠ Some (tempDbName Scenario.full)) as H2
      by (vm_compute; congruence).
    split; [exact H1|]. split; [reflexivity|]. split; [exact H2|].
    exact (proj1 (workspace_gone_after_item 0 1 Scenario.full Run.slimDir Run.excluded
                    None Scenario.calm Run.shop_ok _ H1 (or_introl (conj eq_refl H2)))).
  - pose (wf := (item_body 0 1 Scenario.full Run.slimDir Run.excluded None
                   Scenario.failed_import).2).
    assert (Run.item None Scenario.failed_import
            = (Ok (ItemFailed "shop" "MySQL import failed: ERROR 1064: syntax error"),
               (Run.item None Scenario.failed_import).2)) as H1
      by (vm_compute; reflexivity).
    assert (item_body 0 1 Scenario.full Run.slimDir Run.excluded None
              Scenario.failed_import
            = (Throw (Error "MySQL import failed: ERROR 1064: syntax error"), wf))
      as H2 by (vm_compute; reflexivity).
    assert (tempDbName Scenario.full ∈ dbs wf) as H3
      by (apply elem_of_elements; vm_compute; apply list_elem_of_here).
    assert (answered 2 wf) as H4 by (vm_compute; repeat constructor).
    split; [exact H1|]. split; [by rewrite H2|]. split; [exact H3|].
    split; [exact H4|].
    exact (proj1 (workspace_gone_after_item 0 1 Scenario.full Run.slimDir Run.excluded
                    None Scenario.failed_import _ _ H1
                    (or_intror (ex_intro _ _ (ex_intro _ wf (conj H2 H4)))))).
Defined.

(** Against C4 as stated: the import fails, and then the drop of the
    failure handler fails as well; the error of the drop is swallowed, the
    item is recorded as failed, and its workspace is still in the
    engine. *)
Lemma workspace_left_after_failed_cleanup :
  (slim_start "/db" [Scenario.full] None Scenario.stuck_workspace).1
    = Ok (mkResponse true
            [ItemFailed "shop" "MySQL import failed: ERROR 2013: Lost connection"])
  ∧ tempDbName Scenario.full = "shop_temp"
  ∧ elements (dbs (slim_start "/db" [Scenario.full] None Scenario.stuck_workspace).2)
    = ["shop_temp"]
  ∧ (databaseExists "shop_temp"
       (slim_start "/db" [Scenario.full] None Scenario.stuck_workspace).2).1
    = Ok true.
Proof. vm_compute. repeat split; reflexivity. Qed.

(** The other proviso of the amended C4: every command succeeds and the
    restore target is named like the workspace; the item succeeds and a
    database of that name is in the engine afterwards. *)
Example workspace_name_restored :
  success <$> res_value (Run.item Scenario.to_workspace_name Scenario.calm).1 = Some true
  ∧ elements (dbs (Run.item Scenario.to_workspace_name Scenario.calm).2)
    = ["shop_temp"].
Proof. by vm_compute. Qed.

Lemma no_restore_after_early_failure_witness :
  Run.item Scenario.to_dev Scenario.failed_structure
    = (Ok (ItemFailed "shop" "MySQL structure export failed: mysqldump: Got error 2013"),
       (Run.item Scenario.to_dev Scenario.failed_structure).2)
  ∧ (slim_steps 0 1 Scenario.full Run.slimDir Run.excluded Scenario.failed_structure).1
    = Throw (Error "MySQL structure export failed: mysqldump: Got error 2013")
  ∧ ∀ t p, CmdImport t p ∈ log (Run.item Scenario.to_dev Scenario.failed_structure).2 →
      t = "shop_temp" ∧ p = Scenario.full.
Proof.
  assert (slim_steps 0 1 Scenario.full Run.slimDir Run.excluded Scenario.failed_structure
          = (Throw (Error "MySQL structure export failed: mysqldump: Got error 2013"),
             (slim_steps 0 1 Scenario.full Run.slimDir Run.excluded
                Scenario.failed_structure).2)) as H1
    by (vm_compute; reflexivity).
  destruct (no_restore_after_early_failure 0 1 Scenario.full Run.slimDir Run.excluded
              Scenario.to_dev Scenario.failed_structure _ _ H1)
    as (w' & cmds & events & Hitem & Hlog & _ & _ & _ & Himport & _).
  unfold Run.item. rewrite Hitem. simpl.
  split; [reflexivity|]. split; [by rewrite H1|].
  intros t p Hin. rewrite Hlog, app_nil_r in Hin. by apply Himport.
Defined.

(** Against C8 as stated: the transformation succeeds and the import of
    the restore fails; the item is recorded with [success = false] although
    the target database was recreated and the import of the slim dump into
    it was started. *)
Lemma restore_attempted_yet_failure :
  (Run.item Scenario.to_dev Scenario.failed_restore).1
    = Ok (ItemFailed "shop" "MySQL import failed: ERROR 1064: syntax error")
  ∧ rev (log (Run.item Scenario.to_dev Scenario.failed_restore).2)
    = [CmdExists "shop_temp"; CmdCreate "shop_temp";
       CmdImport "shop_temp" "/db/full/shop.sql";
       CmdDumpStructure "shop_temp";
       CmdDumpData "shop_temp" ["sessions"; "cache"; "audit log"];
       CmdDrop "shop_temp"; CmdExists "shop_dev"; CmdCreate "shop_dev";
       CmdImport "shop_dev" "/db/slim/shop_slim.sql"; CmdExists "shop_temp"]
  ∧ elements (dbs (Run.item Scenario.to_dev Scenario.failed_restore).2) = ["shop_dev"].
Proof. vm_compute. repeat split; reflexivity. Qed.

Lemma restore_failure_keeps_slim_dump_witness :
  (slim_steps 0 1 Scenario.full Run.slimDir Run.excluded Scenario.failed_restore).1
    = Ok tt
  ∧ (restore_step 0 1 Scenario.full Run.slimDir Scenario.to_dev
       (slim_steps 0 1 Scenario.full Run.slimDir Run.excluded Scenario.failed_restore).2).1
    = Throw (Error "MySQL import failed: ERROR 1064: syntax error")
  ∧ ∃ content,
      files (Run.item Scenario.to_dev Scenario.failed_restore).2 !! Scenario.slim
        = Some (File content)
      ∧ files (slim_steps 0 1 Scenario.full Run.slimDir Run.excluded
                 Scenario.failed_restore).2 !! Scenario.slim
        = Some (File content).
Proof.
  pose (w1 := (slim_steps 0 1 Scenario.full Run.slimDir Run.excluded
                 Scenario.failed_restore).2).
  assert (slim_steps 0 1 Scenario.full Run.slimDir Run.excluded Scenario.failed_restore
          = (Ok tt, w1)) as H1 by (vm_compute; reflexivity).
  assert (restore_step 0 1 Scenario.full Run.slimDir Scenario.to_dev w1
          = (Throw (Error "MySQL import failed: ERROR 1064: syntax error"),
             (restore_step 0 1 Scenario.full Run.slimDir Scenario.to_dev w1).2)) as H2
    by (vm_compute; reflexivity).
  split; [by rewrite H1|]. split; [fold w1; by rewrite H2|].
  destruct (restore_failure_keeps_slim_dump 0 1 Scenario.full Run.slimDir Run.excluded
              Scenario.to_dev Scenario.failed_restore w1 _ _ H1 H2)
    as (r & w' & content & Hitem & _ & _ & _ & Hbefore & Hafter & _).
  exists content. unfold Run.item. rewrite Hitem. simpl.
  split; [exact Hafter | exact Hbefore].
Defined.

(** C5, at a failing input.  The structure dump writes 10 bytes and the
    data dump 2 bytes: the callback is given 5 and then 3.  The data phase
    reports half of its own bytes plus those same bytes, not plus the
    value the structure phase ended at, so the counter falls back. *)
Theorem data_phase_counter_restarts :
  (Run.export Scenario.small_dumps).1 = Ok [data_report 2; structure_report 10]
  ∧ structure_report 10 = 5
  ∧ data_report 2 = 3
  ∧ (∀ bytesWritten, data_report bytesWritten
                     = structure_report bytesWritten + bytesWritten).
Proof. split; [by vm_compute|]. by repeat split. Qed.

(** C7, at a failing input.  A structure dump of 2 MiB followed by a data
    dump whose first chunk has 1 KiB: the percentages sent under the
    export label are 0, 1 and then 0 again. *)
Theorem export_percentages_fall_back :
  percentages export_label
    (slim_start "/db" [Scenario.full] None Scenario.large_structure).2
  = [0; 1; 0].
Proof. by vm_compute. Qed.

(* ===================================================================== *)
(** * Further properties of the code *)
(* ===================================================================== *)

(** ** [sanitizeFilename] *)

Lemma lower_name_char_safe (c : ascii) :
  Sanitize.is_name_char c = true → is_safe_char (Sanitize.lower_char c) = true.
Proof. destruct c as [[] [] [] [] [] [] [] []]; vm_compute; done. Qed.

Lemma safe_char_fixed (c : ascii) :
  is_safe_char c = true →
  Sanitize.is_regex_space c = false ∧ Sanitize.is_name_char c = true
  ∧ Sanitize.lower_char c = c.
Proof. destruct c as [[] [] [] [] [] [] [] []]; vm_compute; done. Qed.

Lemma keep_name_chars_all (s : string) :
  all_chars Sanitize.is_name_char (Sanitize.keep_name_chars s) = true.
Proof.
  induction s as [|c s IH]; [done|]. simpl.
  destruct (Sanitize.is_name_char c) eqn:Hc; [|done]. simpl. by rewrite Hc.
Qed.

Lemma hyphenate_length (b : bool) (s : string) :
  (String.length (Sanitize.hyphenate b s) ≤ String.length s)%nat.
Proof.
  revert b. induction s as [|c s IH]; intros b; simpl; [done|].
  pose proof (IH true). pose proof (IH false).
  destruct (Sanitize.is_regex_space c); [destruct b|]; simpl; lia.
Qed.

Lemma keep_name_chars_length (s : string) :
  (String.length (Sanitize.keep_name_chars s) ≤ String.length s)%nat.
Proof.
  induction s as [|c s IH]; simpl; [done|].
  destruct (Sanitize.is_name_char c); simpl; lia.
Qed.

Lemma toLowerCase_length (s : string) :
  String.length (Sanitize.toLowerCase s) = String.length s.
Proof. induction s as [|c s IH]; simpl; [done|]. by rewrite IH. Qed.

(** X1. Whatever the description, [sanitizeFilename] returns only
    lower-case letters, digits, underscores and hyphens (so no path
    separator, no dot and no white space), and never more characters than
    it was given. *)
Theorem sanitizeFilename_alphabet (name : string) :
  all_chars is_safe_char (sanitizeFilename name) = true
  ∧ has_sep (sanitizeFilename name) = false
  ∧ (String.length (sanitizeFilename name) ≤ String.length name)%nat.
Proof.
  unfold sanitizeFilename.
  assert (∀ s, all_chars Sanitize.is_name_char s = true →
               all_chars is_safe_char (Sanitize.toLowerCase s) = true) as Hlow.
  { induction s as [|c s IH]; [done|]. simpl.
    intros [Hc Hs]%andb_true_iff. by rewrite (lower_name_char_safe c Hc), IH. }
  assert (∀ s, all_chars is_safe_char s = true → has_sep s = false) as Hsep.
  { unfold has_sep. intros s Hs. apply negb_false_iff.
    induction s as [|c s IH]; [done|]. simpl in *.
    apply andb_true_iff in Hs as [Hc Hs]. rewrite (IH Hs), andb_true_r.
    destruct c as [[] [] [] [] [] [] [] []]; vm_compute in Hc |- *; done. }
  pose proof (Hlow _ (keep_name_chars_all (Sanitize.hyphenate false name))) as Hsafe.
  split; [done|]. split; [by apply Hsep|].
  rewrite toLowerCase_length.
  pose proof (keep_name_chars_length (Sanitize.hyphenate false name)).
  pose proof (hyphenate_length false name). lia.
Qed.

Lemma sanitize_safe_fixed (s : string) :
  all_chars is_safe_char s = true → sanitizeFilename s = s.
Proof.
  unfold sanitizeFilename. induction s as [|c s IH]; [done|]. simpl.
  intros [Hc Hs]%andb_true_iff.
  destruct (safe_char_fixed c Hc) as (Hsp & Hname & Hlow).
  rewrite Hsp. simpl. rewrite Hname. simpl. by rewrite Hlow, IH.
Qed.

(** X2. [sanitizeFilename] is idempotent: a name it produced is left as
    it is. *)
Theorem sanitizeFilename_idempotent (name : string) :
  sanitizeFilename (sanitizeFilename name) = sanitizeFilename name.
Proof.
  apply sanitize_safe_fixed.
  assert (∀ s, all_chars Sanitize.is_name_char s = true →
               all_chars is_safe_char (Sanitize.toLowerCase s) = true) as Hlow.
  { induction s as [|c s IH]; [done|]. simpl.
    intros [Hc Hs]%andb_true_iff. by rewrite (lower_name_char_safe c Hc), IH. }
  apply Hlow, keep_name_chars_all.
Qed.

(** ** Paths and names *)

Lemma has_sep_cons (c : ascii) (s : string) :
  has_sep (String c s) = Ascii.eqb c Path.sep || has_sep s.
Proof. unfold has_sep. simpl. by destruct (Ascii.eqb c Path.sep). Qed.

Lemma has_sep_append (a b : string) : has_sep (a +:+ b) = has_sep a || has_sep b.
Proof.
  induction a as [|c a IH]; [done|].
  by rewrite append_cons, !has_sep_cons, IH, orb_assoc.
Qed.

Lemma split_last_no_sep (p : string) : has_sep (Path.split_last p).2 = false.
Proof.
  induction p as [|c p IH]; [done|]. simpl.
  destruct (Path.split_last p) as [[d|] b]; simpl in *; [done|].
  destruct (Ascii.eqb c Path.sep) eqn:Hc; simpl; [done|].
  by rewrite has_sep_cons, Hc, IH.
Qed.

Lemma split_last_plain (x : string) :
  has_sep x = false → Path.split_last x = (None, x).
Proof.
  induction x as [|c x IH]; [done|]. rewrite has_sep_cons.
  intros [Hc Hx]%orb_false_iff. simpl. by rewrite (IH Hx), Hc.
Qed.

Lemma split_last_join_dir (d x : string) :
  has_sep x = false → ∃ e, Path.split_last (Path.join d x) = (Some e, x).
Proof.
  intros Hx. unfold Path.join. induction d as [|c d [e IH]].
  - rewrite append_nil_l. simpl. rewrite (split_last_plain x Hx). by exists "".
  - rewrite append_cons. simpl. rewrite IH. by exists (String c e).
Qed.

Lemma split_last_join (d x : string) :
  has_sep x = false → (Path.split_last (Path.join d x)).2 = x.
Proof. intros Hx. by destruct (split_last_join_dir d x Hx) as [e ->]. Qed.

Lemma eqb_longer (s ext : string) (c : ascii) :
  String.eqb (String c s +:+ ext) ext = false.
Proof.
  apply String.eqb_neq. intros Heq. apply (f_equal String.length) in Heq.
  rewrite length_append in Heq. simpl in Heq. lia.
Qed.

Lemma strip_suffix_append (s ext : string) :
  Path.strip_suffix (s +:+ ext) ext = Some s.
Proof.
  induction s as [|c s IH].
  - rewrite append_nil_l. destruct ext; cbn -[String.eqb]; by rewrite String.eqb_refl.
  - rewrite append_cons. cbn -[String.eqb]. rewrite <- append_cons, eqb_longer.
    by rewrite IH.
Qed.

Lemma strip_suffix_Some (s ext t : string) :
  Path.strip_suffix s ext = Some t → s = t +:+ ext.
Proof.
  revert t. induction s as [|c s IH]; intros t; simpl.
  - destruct (String.eqb_spec "" ext) as [<-|]; [by intros [= <-]|done].
  - destruct (String.eqb_spec (String c s) ext) as [<-|]; [by intros [= <-]|].
    destruct (Path.strip_suffix s ext) as [t'|] eqn:Ht; [|done].
    intros [= <-]. by rewrite append_cons, <- (IH t').
Qed.

Lemma basename_no_sep (p ext : string) : has_sep (Path.basename p ext) = false.
Proof.
  unfold Path.basename. pose proof (split_last_no_sep p) as Hb.
  destruct (Path.strip_suffix (Path.split_last p).2 ext) as [stem|] eqn:Hs; [|done].
  destruct stem as [|c stem]; [done|].
  apply strip_suffix_Some in Hs. rewrite Hs, has_sep_append in Hb.
  by apply orb_false_iff in Hb as [-> _].
Qed.

Lemma basename_join_sql (d stem : string) :
  has_sep stem = false → stem ≠ "" →
  Path.basename (Path.join d (stem +:+ ".sql")) ".sql" = stem.
Proof.
  intros Hsep Hne. unfold Path.basename.
  rewrite split_last_join by (by rewrite has_sep_append, Hsep).
  rewrite strip_suffix_append. by destruct stem.
Qed.

(** X3. The database name read off the slim dump of a file is the base
    name of that file: [getDatabaseNameFromFile] undoes the [_slim.sql]
    suffix the slim operation adds, for the handler's output path and for
    the command-line flow's. *)
Theorem slim_dump_names_its_database (fullSqlPath slimDir : string) :
  getDatabaseNameFromFile (slimPath fullSqlPath slimDir) = baseName fullSqlPath
  ∧ getDatabaseNameFromFile (cli_slimPath fullSqlPath) = baseName fullSqlPath.
Proof.
  assert (∀ d, getDatabaseNameFromFile
                 (Path.join d (baseName fullSqlPath +:+ "_slim.sql"))
               = baseName fullSqlPath) as Hmain.
  { intros d. unfold getDatabaseNameFromFile.
    change "_slim.sql" with ("_slim" +:+ ".sql").
    rewrite <- append_assoc, basename_join_sql.
    - by rewrite strip_suffix_append.
    - rewrite has_sep_append. unfold baseName. by rewrite basename_no_sep.
    - by destruct (baseName fullSqlPath). }
  split; [apply Hmain|]. apply (Hmain "./slim").
Qed.

(** ** ['file:delete'] *)

Lemma settles_unlink p : settles (unlink p).
Proof. intros w e w'. unfold unlink. by destruct (files w !! p) as [[| |]|]. Qed.

Lemma settles_readFile p : settles (readFile p).
Proof. intros w e w'. unfold readFile. by destruct (files w !! p) as [[| |]|]. Qed.

Lemma unlink_Ok path w w' :
  unlink path w = (Ok tt, w') →
  (∃ d, files w !! path = Some (File d)) ∧ files w' = delete path (files w)
  ∧ dbs w' = dbs w ∧ log w' = log w ∧ host w' = host w.
Proof.
  unfold unlink. destruct (files w !! path) as [[d| |e]|]; try done.
  intros [= <-]. eauto 10.
Qed.

Lemma unlink_Throw path w e w' :
  unlink path w = (Throw e, w') → w' = w ∧ ∀ d, files w !! path ≠ Some (File d).
Proof.
  unfold unlink. destruct (files w !! path) as [[d| |e0]|] eqn:Hp; try done;
    by intros [= <- <-].
Qed.

Lemma unlink_each_Ok paths w w' :
  unlink_each paths w = (Ok tt, w') →
  NoDup paths
  ∧ (∀ p, p ∈ paths → (∃ d, files w !! p = Some (File d)) ∧ files w' !! p = None)
  ∧ (∀ q, q ∉ paths → files w' !! q = files w !! q)
  ∧ dbs w' = dbs w ∧ log w' = log w ∧ host w' = host w.
Proof.
  revert w. induction paths as [|p paths IH]; intros w; simpl.
  - intros [= <-]. split; [constructor|]. split; [by intros p ?%elem_of_nil|done].
  - intros H. apply bind_Ok_inv in H as ([] & w1 & Hp & H).
    apply unlink_Ok in Hp as ((d & Hd) & Hf & Hdb & Hl & Hh).
    apply IH in H as (Hnd & Hin & Hout & Hdb' & Hl' & Hh').
    assert (p ∉ paths) as Hnotin.
    { intros Hp. destruct (Hin p Hp) as [(d' & Hd') _].
      by rewrite Hf, lookup_delete_eq in Hd'. }
    split; [by constructor|]. split; [|split].
    + intros q [->|Hq]%elem_of_cons.
      * split; [eauto|]. by rewrite (Hout p Hnotin), Hf, lookup_delete_eq.
      * destruct (Hin q Hq) as [(d' & Hd') Hgone]. split; [|done].
        exists d'. rewrite Hf in Hd'.
        by apply lookup_delete_Some in Hd' as [_ ?].
    + intros q Hq. apply not_elem_of_cons in Hq as [Hne Hq].
      by rewrite (Hout q Hq), Hf, lookup_delete_ne.
    + repeat split; congruence.
Qed.

(** Where a run of deletions stops. *)
Lemma unlink_each_Throw paths w e w' :
  unlink_each paths w = (Throw e, w') →
  ∃ pre p post,
    paths = pre ++ p :: post
    ∧ unlink_each pre w = (Ok tt, w')
    ∧ unlink p w' = (Throw e, w').
Proof.
  revert w. induction paths as [|p paths IH]; intros w; simpl; [done|].
  intros H. unfold bind in H.
  destruct (unlink p w) as [[[]|e0|e0] w1] eqn:Hp.
  - apply IH in H as (pre & q & post & -> & Hpre & Hq).
    exists (p :: pre), q, post. split; [done|]. split; [|done].
    simpl. by rewrite (bind_Ok _ _ _ _ _ Hp).
  - injection H as -> ->. pose proof (unlink_Throw _ _ _ _ Hp) as [-> _].
    by exists [], p, paths.
  - by destruct (settles_unlink p w e0 w1).
Qed.

(** X4. When ['file:delete'] succeeds, the paths it was given were
    pairwise distinct regular files, each of them is gone, every other
    path is as it was, and the count returned is the number of paths. *)
Theorem file_delete_success (filePaths : list string) w count w' :
  file_delete filePaths w = (Ok count, w') →
  count = length filePaths
  ∧ NoDup filePaths
  ∧ (∀ p, p ∈ filePaths →
       (∃ d, files w !! p = Some (File d)) ∧ files w' !! p = None)
  ∧ (∀ q, q ∉ filePaths → files w' !! q = files w !! q).
Proof.
  unfold file_delete, try_catch. intros H.
  destruct (bind _ _ w) as [[n|e|e] w1] eqn:Hb; [|done..].
  injection H as -> ->.
  apply bind_Ok_inv in Hb as ([] & w2 & Heach & Hret). injection Hret as <- <-.
  apply unlink_each_Ok in Heach as (Hnd & Hin & Hout & _). done.
Qed.

(** X5. When ['file:delete'] fails, it has stopped at the first path it
    could not delete: the paths before it are gone, that path and the
    paths after it (every path not before it) are as they were, and the
    error carries the message of the failed deletion. *)
Theorem file_delete_failure (filePaths : list string) w e w' :
  file_delete filePaths w = (Throw e, w') →
  ∃ pre p post e0,
    filePaths = pre ++ p :: post
    ∧ e = Error ("Delete failed: " +:+ message e0)
    ∧ unlink p w' = (Throw e0, w')
    ∧ (∀ d, files w' !! p ≠ Some (File d))
    ∧ (∀ q, q ∈ pre → files w' !! q = None)
    ∧ (∀ q, q ∉ pre → files w' !! q = files w !! q).
Proof.
  unfold file_delete, try_catch. intros H.
  destruct (bind _ _ w) as [[n|e0|e0] w1] eqn:Hb; [done| |done].
  injection H as <- <-.
  apply bind_Throw_inv in Hb as [Heach | (a & w2 & _ & Hret)]; [|done].
  apply unlink_each_Throw in Heach as (pre & p & post & -> & Hpre & Hp).
  apply unlink_each_Ok in Hpre as (_ & Hin & Hout & _).
  exists pre, p, post, e0. do 3 (split; [done|]).
  split; [by apply unlink_Throw in Hp as [_ ?]|].
  split; [intros q Hq; by apply Hin | done].
Qed.

(** ** ['database:bulkDelete'] *)

Lemma dropDatabase_Throw n w e w' :
  dropDatabase n w = (Throw e, w') → dbs w' = dbs w.
Proof.
  unfold dropDatabase.
  pose proof (wait_dbs (CmdDrop n) (launch (CmdDrop n) w)) as H.
  destruct (wait _ _) as [r w1]. destruct (exit_code r =? 0); [done|].
  by intros [= _ <-].
Qed.

Lemma dropDatabase_Ok_was n w w' :
  dropDatabase n w = (Ok tt, w') → n ∈ dbs w.
Proof.
  unfold dropDatabase.
  pose proof (wait_dbs (CmdDrop n) (launch (CmdDrop n) w)) as H.
  destruct (wait _ _) as [r w1]. destruct (exit_code r =? 0); [|done].
  intros _. destruct H as [_ H]. simpl in H. by destruct (decide (n ∈ dbs w)).
Qed.

(** One name of the batch: it is dropped and reported as deleted, or the
    engine is as it was and the message is reported. *)
Lemma bulk_item_cases n i dbName w :
  (∃ w', bulk_item n i dbName w = (Ok None, w')
     ∧ dbName ∈ dbs w ∧ dbs w' = dbs w ∖ {[dbName]})
  ∨ (∃ msg w', bulk_item n i dbName w = (Ok (Some msg), w') ∧ dbs w' = dbs w).
Proof.
  unfold bulk_item, try_catch, bind. simpl.
  destruct (dropDatabase dbName _) as [[[]|e|e] w1] eqn:Hdrop.
  - left. exists w1. split; [done|].
    split; [by apply dropDatabase_Ok_was in Hdrop | by apply dropDatabase_Ok in Hdrop].
  - right. exists (message e), w1. split; [done|].
    by apply dropDatabase_Throw in Hdrop.
  - by destruct (settles_dropDatabase _ _ _ _ Hdrop).
Qed.

Lemma bulk_loop_spec n i dbNames w :
  ∃ r w', bulk_loop n i dbNames w = (Ok r, w')
    ∧ dbNames ≡ₚ deleted r ++ (errors r).*1
    ∧ sublist (deleted r) dbNames
    ∧ sublist (errors r).*1 dbNames
    ∧ (∀ d, d ∈ deleted r → d ∈ dbs w)
    ∧ dbs w' = dbs w ∖ list_to_set (deleted r).
Proof.
  revert i w. induction dbNames as [|d dbNames IH]; intros i w; simpl.
  - exists (mkBulk [] []), w. repeat split; try done.
    + by intros d ?%elem_of_nil.
    + simpl. set_solver.
  - destruct (bulk_item_cases n i d w)
      as [(w1 & Hitem & Hin & Hdbs) | (msg & w1 & Hitem & Hdbs)];
      destruct (IH (S i) w1) as (r & w2 & Hloop & Hperm & Hsub1 & Hsub2 & Hwas & Hafter);
      rewrite (bind_Ok _ _ _ _ _ Hitem), (bind_Ok _ _ _ _ _ Hloop);
      eexists _, w2; (split; [reflexivity|]); simpl.
    + split; [by rewrite Hperm|]. split; [by apply sublist_skip|].
      split; [by apply sublist_cons|]. split.
      * intros x [->|Hx]%elem_of_cons; [done|].
        apply Hwas in Hx. rewrite Hdbs in Hx. set_solver.
      * rewrite Hafter, Hdbs. set_solver.
    + split; [by rewrite Hperm, <- Permutation_middle|].
      split; [by apply sublist_cons|]. split; [by apply sublist_skip|]. split.
      * intros x Hx. apply Hwas in Hx. by rewrite Hdbs in Hx.
      * by rewrite Hafter, Hdbs.
Qed.

(** X6. ['database:bulkDelete'] never stops at a name it cannot drop: it
    always returns, every name it was given is reported exactly once,
    under [deleted] or under [errors], and both lists keep the order of the
    request. *)
Theorem bulk_delete_reports_every_name (dbNames : list string) w :
  ∃ r w',
    bulk_delete dbNames w = (Ok r, w')
    ∧ dbNames ≡ₚ deleted r ++ (errors r).*1
    ∧ sublist (deleted r) dbNames
    ∧ sublist (errors r).*1 dbNames
    ∧ (length (deleted r) + length (errors r) = length dbNames)%nat.
Proof.
  destruct (bulk_loop_spec (length dbNames) 0 dbNames w)
    as (r & w1 & Hloop & Hperm & Hsub1 & Hsub2 & _).
  exists r, (set_host (push_sent
               (bulk_message (length dbNames) (length dbNames) None) (host w1)) w1).
  split.
  { unfold bulk_delete, try_catch. by rewrite (bind_Ok _ _ _ _ _ Hloop). }
  do 3 (split; [done|]).
  apply Permutation_length in Hperm. rewrite length_app, length_fmap in Hperm. lia.
Qed.

(** X7. After ['database:bulkDelete'] the engine holds exactly the
    databases it held before minus those reported under [deleted], each of
    which did exist: a name under [errors] only, and any database not
    named, is left in place. *)
Theorem bulk_delete_engine (dbNames : list string) w r w' :
  bulk_delete dbNames w = (Ok r, w') →
  dbs w' = dbs w ∖ list_to_set (deleted r)
  ∧ (∀ d, d ∈ deleted r → d ∈ dbs w ∧ d ∉ dbs w')
  ∧ (∀ d, d ∉ dbNames → d ∈ dbs w' ↔ d ∈ dbs w).
Proof.
  intros Hrun.
  destruct (bulk_loop_spec (length dbNames) 0 dbNames w)
    as (r1 & w1 & Hloop & Hperm & Hsub1 & _ & Hwas & Hafter).
  unfold bulk_delete, try_catch in Hrun.
  rewrite (bind_Ok _ _ _ _ _ Hloop) in Hrun. injection Hrun as <- <-. simpl.
  split; [done|]. split.
  - intros d Hd. split; [by apply Hwas|]. rewrite Hafter.
    intros [_ Hn]%elem_of_difference. apply Hn. by apply elem_of_list_to_set.
  - intros d Hd. rewrite Hafter, elem_of_difference, elem_of_list_to_set.
    split; [by intros [? _]|]. intros Hin. split; [done|].
    intros Hdel. apply Hd. by eapply elem_of_sublist.
Qed.

(** ** Recreating a database, and ['restore:start'] *)

Lemma createDatabase_Ok n w w' :
  createDatabase n w = (Ok tt, w') → n ∉ dbs w ∧ dbs w' = {[n]} ∪ dbs w.
Proof.
  unfold createDatabase.
  pose proof (wait_dbs (CmdCreate n) (launch (CmdCreate n) w)) as H.
  destruct (wait _ _) as [r w1]. destruct (exit_code r =? 0); [|done].
  intros [= <-]. destruct H as [H1 H2]. simpl in *.
  split; [by destruct (decide (n ∈ dbs w)) | done].
Qed.

Lemma recreate_dbs n w w' :
  recreate n w = (Ok tt, w') → dbs w' = {[n]} ∪ dbs w.
Proof.
  unfold recreate. intros H.
  apply bind_Ok_inv in H as (present & w1 & Hex & H).
  apply bind_Ok_inv in H as ([] & w2 & Hdrop & Hcreate).
  apply databaseExists_Ok in Hex as (Hd1 & _ & _).
  apply createDatabase_Ok in Hcreate as [Hnot ->].
  destruct present.
  - apply dropDatabase_Ok in Hdrop. rewrite Hdrop, Hd1.
    apply set_eq. intros x. rewrite !elem_of_union, elem_of_difference, elem_of_singleton.
    destruct (decide (x = n)); tauto.
  - injection Hdrop as <-. by rewrite Hd1.
Qed.

(** X8. When the drop-if-exists-then-create sequence of the handlers
    succeeds, the database is in the engine and no other database was
    added or removed; the sequence changes no file. *)
Theorem recreate_creates_only_its_database (dbName : string) w w' :
  recreate dbName w = (Ok tt, w') →
  dbName ∈ dbs w'
  ∧ (∀ d, d ≠ dbName → d ∈ dbs w' ↔ d ∈ dbs w)
  ∧ files w' = files w.
Proof.
  intros H. pose proof (recreate_dbs _ _ _ H) as Hd. rewrite Hd.
  split; [by apply elem_of_union_l, elem_of_singleton|]. split.
  - intros d Hne. rewrite elem_of_union, elem_of_singleton. tauto.
  - apply (respects_run _ _ _ _ _ (files_recreate dbName) H).
Qed.

Lemma dbs_importSql {S} n f (cb : option (Callback S)) s w :
  dbs (importSql n f cb s w).2 = dbs w.
Proof. by destruct (importSql_world n f cb s w) as (chunks & _ & _ & Hd & _). Qed.

(** An import settles unless the path holds no regular file or the pipe
    into the client breaks. *)
Lemma importSql_Uncaught {S} n f (cb : option (Callback S)) s w e w' :
  importSql n f cb s w = (Uncaught e, w') →
  e = EPIPE ∨ ∀ data, files w !! f ≠ Some (File data).
Proof.
  unfold importSql. simpl. destruct (files w !! f) as [[data| |e0]|]; [|by right..].
  destruct (wait _ _) as [r w1]. destruct (on_data _ _ _ _ _ _) as [s1 h1].
  destruct (epipe r); [intros [= <- _]; by left|]. by destruct (_ =? _).
Qed.

Lemma dbs_getDatabaseInfo n w : dbs (getDatabaseInfo n w).2 = dbs w.
Proof.
  rewrite getDatabaseInfo_world. unfold after.
  by destruct (wait_dbs_cases (CmdInfo n) (launch (CmdInfo n) w)) as [-> | ->].
Qed.



(** ** A name read as a pattern *)

Lemma wait_rejected c w msg :
  answered 1 w → engine_rejects c (dbs w) = Some msg →
  exit_code (wait c (launch c w)).1 = 1 ∧ stderr (wait c (launch c w)).1 = msg.
Proof.
  unfold answered, wait, launch, next_reply. simpl.
  destruct (script w) as [|r rs] eqn:Hs; simpl.
  - intros _ ->. done.
  - intros [Hr _]%Forall_cons_1 Hrej. rewrite Hr. simpl. by rewrite Hrej.
Qed.

(** X23. [databaseExists] reads the name as a pattern.  When the engine
    holds no database of that name but one whose name matches it with
    [_] or [%] taken as wild cards, the answer is yes, and the
    drop-if-exists-then-create sequence of the handlers sends a drop
    that the engine rejects: the sequence throws the error of the drop
    and creates nothing. *)
Theorem recreate_fails_on_lookalike (dbName other : string) w :
  dbName ∉ dbs w → other ∈ dbs w → like dbName other = true →
  answered 2 w →
  (databaseExists dbName w).1 = Ok true
  ∧ ∃ msg w',
      engine_rejects (CmdDrop dbName) (dbs w) = Some msg
      ∧ recreate dbName w
        = (Throw (Error ("MySQL drop database failed: " +:+ msg)), w')
      ∧ dbs w' = dbs w
      ∧ log w' = [CmdDrop dbName; CmdExists dbName] ++ log w.
Proof.
  intros Hout Hin Hlike H2. pose proof (answered_le _ _ H2) as H1.
  destruct (after_answered (CmdExists dbName) w H1) as (Hd & Hs & Hx).
  simpl in Hd, Hx.
  pose proof (answered_tail _ _ _ H2 Hs) as H1'.
  pose proof (databaseExists_world dbName w) as Hw.
  destruct (after_frame (CmdExists dbName) w) as (_ & Hl & _).
  assert (∃ b, databaseExists dbName w = (Ok b, after (CmdExists dbName) w))
    as (b & Hex).
  { destruct (databaseExists dbName w) as [[b|e|e] w1] eqn:Hex;
      simpl in Hw; subst w1; [by exists b|exfalso..].
    - unfold databaseExists in Hex. unfold after in Hx.
      destruct (wait _ _) as [r w1]. simpl in Hx. by rewrite Hx in Hex.
    - by destruct (settles_databaseExists _ _ _ _ Hex). }
  assert (b = true) as ->.
  { apply databaseExists_Ok in Hex as (_ & Hb & _). apply Hb. eauto. }
  split; [by rewrite Hex|].
  assert (∃ msg, engine_rejects (CmdDrop dbName) (dbs w) = Some msg) as (msg & Hrej).
  { simpl. destruct (decide (dbName ∈ dbs w)); [done | eauto]. }
  exists msg, (after (CmdDrop dbName) (after (CmdExists dbName) w)).
  split; [done|].
  destruct (after_answered (CmdDrop dbName) _ H1') as (Hd' & _ & _).
  rewrite Hd, Hrej in Hd'.
  destruct (after_frame (CmdDrop dbName) (after (CmdExists dbName) w)) as (_ & Hl' & _).
  split; [|split; [by rewrite Hd' | by rewrite Hl', Hl]].
  unfold recreate. rewrite (bind_Ok _ _ _ _ _ Hex).
  apply bind_Throw.
  rewrite <- Hd in Hrej.
  destruct (wait_rejected (CmdDrop dbName) _ msg H1' Hrej) as [Hcode Herr].
  unfold dropDatabase, after.
  destruct (wait (CmdDrop dbName) _) as [r w1]. simpl in *.
  by rewrite Hcode, Herr.
Qed.

(** ** [ensureDirectory] *)

Lemma mkdir_obstacle_None above path fs :
  mkdir_obstacle above path fs = None →
  ∀ q, q ∈ above ++ [path] → fs !! q = Some Dir ∨ fs !! q = None.
Proof.
  induction above as [|a above IH]; simpl.
  - intros H q ->%list_elem_of_singleton.
    destruct (fs !! path) as [[| |]|]; auto; done.
  - intros H q [->|Hq]%elem_of_cons.
    + destruct (fs !! a) as [[| |]|]; auto; done.
    + apply IH; [|done]. by destruct (fs !! a) as [[| |]|].
Qed.

Lemma mkdir_obstacle_Broken above path fs e :
  fs !! path = Some (Broken e) → mkdir_obstacle above path fs ≠ None.
Proof.
  intros Hp. induction above as [|a above IH]; simpl.
  - by rewrite Hp.
  - by destruct (fs !! a) as [[| |]|].
Qed.

Lemma lookup_mkdirs (chain : list string) (fs : gmap string Node) (p : string) :
  foldr (λ q, insert q Dir) fs chain !! p
  = if decide (p ∈ chain) then Some Dir else fs !! p.
Proof.
  induction chain as [|q chain IH]; simpl.
  - destruct (decide (p ∈ [])) as [H|_]; [by apply elem_of_nil in H | done].
  - destruct (decide (p = q)) as [->|Hne].
    + rewrite lookup_insert_eq. destruct (decide (q ∈ q :: chain)) as [_|H]; [done|].
      destruct H. by left.
    + rewrite lookup_insert_ne by done. rewrite IH.
      destruct (decide (p ∈ chain)) as [Hin|Hout];
        destruct (decide (p ∈ q :: chain)) as [Hin'|Hout']; try done.
      * destruct Hout'. by right.
      * by apply elem_of_cons in Hin' as [?|?].
Qed.

Lemma ensureDirectory_frame directory w :
  dbs (ensureDirectory directory w).2 = dbs w
  ∧ log (ensureDirectory directory w).2 = log w
  ∧ host (ensureDirectory directory w).2 = host w
  ∧ ∀ e w', ensureDirectory directory w = (Throw e, w') → w' = w.
Proof.
  unfold ensureDirectory, try_catch, access, mkdir.
  destruct (files w !! directory) as [[d| |e]|]; simpl; try done;
    destruct (mkdir_obstacle _ _ _); simpl; by repeat split; try intros ? ? [= _ <-].
Qed.

(** X11. When [ensureDirectory] succeeds the path can be accessed and a
    second call changes nothing; every entry that existed is as it was,
    and what has been added are directories: the path itself and the
    missing directories above it, all of which exist afterwards.  A path
    that already held a regular file is accepted as it is, and nothing is
    created. *)
Theorem ensureDirectory_spec (directory : string) w w' :
  ensureDirectory directory w = (Ok tt, w') →
  access directory w' = (Ok tt, w')
  ∧ ensureDirectory directory w' = (Ok tt, w')
  ∧ (∀ p, is_Some (files w !! p) → files w' !! p = files w !! p)
  ∧ (∀ p, files w !! p = None →
       files w' !! p = None
       ∨ (files w' !! p = Some Dir ∧ (p = directory ∨ p ∈ Path.ancestors directory)))
  ∧ (files w !! directory = None →
       ∀ q, q ∈ Path.ancestors directory → files w' !! q = Some Dir)
  ∧ (∀ d, files w !! directory = Some (File d) → w' = w)
  ∧ dbs w' = dbs w.
Proof.
  unfold ensureDirectory, try_catch, access.
  destruct (files w !! directory) as [[d| |e]|] eqn:Hd; rewrite ?Hd.
  - intros [= <-]. rewrite Hd. do 3 (split; [done|]).
    split; [by left|]. done.
  - intros [= <-]. rewrite Hd. do 3 (split; [done|]).
    split; [by left|]. done.
  - unfold mkdir. pose proof (mkdir_obstacle_Broken (Path.ancestors directory)
                                directory (files w) e Hd) as Hob.
    by destruct (mkdir_obstacle _ _ _).
  - unfold mkdir.
    destruct (mkdir_obstacle _ _ _) eqn:Hob; [done|]. intros [= <-]. simpl.
    pose proof (mkdir_obstacle_None _ _ _ Hob) as Hchain.
    assert (directory ∈ Path.ancestors directory ++ [directory]) as Hlast
      by (apply elem_of_app; right; by apply list_elem_of_singleton).
    rewrite !lookup_mkdirs.
    destruct (decide (directory ∈ _)) as [_|]; [|done].
    split; [done|]. split; [done|]. split; [|split; [|split]].
    + intros p Hp. rewrite lookup_mkdirs.
      destruct (decide (p ∈ _)) as [Hin|]; [|done].
      destruct (Hchain p Hin) as [->| Hnone]; [done|].
      rewrite Hnone in Hp. by destruct Hp.
    + intros p Hp. rewrite lookup_mkdirs.
      destruct (decide (p ∈ _)) as [Hin|]; [|by left]. right. split; [done|].
      apply elem_of_app in Hin as [Hin | ->%list_elem_of_singleton]; auto.
    + intros _ q Hq. rewrite lookup_mkdirs.
      destruct (decide (q ∈ _)) as [|Hout]; [done|].
      destruct Hout. apply elem_of_app. by left.
    + done.
Qed.

(** ** More on [loadExcludeTables] *)

Lemma trim_space_after (l b : string) :
  blank b → Js.trim (l +:+ b) = Js.trim l.
Proof.
  intros Hb. symmetry. apply trimmed_of_trim.
  destruct (trim_trimmed l) as (a & b' & Heq & Ha & Hb' & Hh & Hl).
  exists a, (b' +:+ b). split; [|split; [done|split; [|done]]].
  - rewrite Heq at 1. by rewrite !append_assoc.
  - by apply made_of_app.
Qed.

Lemma has_nl_append (a b : string) : Js.has_nl (a +:+ b) = Js.has_nl a || Js.has_nl b.
Proof.
  induction a as [|c a IH]; [done|]. rewrite append_cons. simpl.
  by rewrite IH, orb_assoc.
Qed.

Lemma map_trim_split_crlf (ls : list string) :
  ls ≠ [] → Forall (λ l, Js.has_nl l = false) ls →
  map Js.trim (Js.split_nl (join_crlf ls)) = map Js.trim ls.
Proof.
  intros Hne Hnl. induction ls as [|l ls IH]; [done|].
  inversion Hnl as [|? ? Hl Hls]; subst.
  destruct ls as [|l' ls].
  - simpl. by rewrite split_nl_line.
  - change (join_crlf (l :: l' :: ls))
      with (l +:+ String "013" (String "010" (join_crlf (l' :: ls)))).
    change (l +:+ String "013" (String "010" (join_crlf (l' :: ls))))
      with (l +:+ String "013" "" +:+ String "010" (join_crlf (l' :: ls))).
    rewrite <- append_assoc, split_nl_append.
    + cbn [map]. rewrite IH by done. f_equal. apply trim_space_after.
      by apply blank_by_dropping.
    + by rewrite has_nl_append, Hl.
Qed.

Lemma loadExcludeTables_File p w content :
  files w !! p = Some (File content) →
  loadExcludeTables p w
  = (Ok (List.filter is_table_line (map Js.trim (Js.split_nl content))), w).
Proof. intros Hp. unfold loadExcludeTables, try_catch, bind, readFile. by rewrite Hp. Qed.

(** X12. Windows line endings make no difference to the exclusion list:
    the same lines joined by CR LF and joined by LF load as the same
    table names. *)
Theorem loadExcludeTables_crlf (configPath : string) (lines : list string) w1 w2 :
  lines ≠ [] →
  Forall (λ l, Js.has_nl l = false) lines →
  files w1 !! configPath = Some (File (join_crlf lines)) →
  files w2 !! configPath = Some (File (Js.join_nl lines)) →
  (loadExcludeTables configPath w1).1 = (loadExcludeTables configPath w2).1.
Proof.
  intros Hne Hnl H1 H2.
  rewrite (loadExcludeTables_File _ _ _ H1), (loadExcludeTables_File _ _ _ H2). simpl.
  rewrite map_trim_split_crlf by done.
  by rewrite <- (lines_of_split (Js.join_nl lines) lines).
Qed.

Lemma trim_fixed (t : string) :
  (∀ p r, p ∈ space_chars → t ≠ p +:+ r) →
  (∀ p r, p ∈ space_chars → t ≠ r +:+ p) →
  Js.trim t = t.
Proof.
  intros Hh Hl. symmetry. apply trimmed_of_trim. exists "", "".
  rewrite append_nil_l, append_nil_r. split; [done|].
  split; [constructor|]. split; [constructor|]. done.
Qed.

(** X13. Every table name [loadExcludeTables] returns is usable as it is:
    it is not empty, has no white space at either end (trimming it again
    changes nothing), holds no line break and does not begin with the
    comment marker. *)
Theorem loadExcludeTables_names_clean (configPath : string) w names w' :
  loadExcludeTables configPath w = (Ok names, w') →
  Forall (λ name,
            name ≠ ""
            ∧ Js.trim name = name
            ∧ Js.has_nl name = false
            ∧ Js.startsWith name "#" = false) names.
Proof.
  unfold loadExcludeTables, try_catch, bind, readFile.
  destruct (files w !! configPath) as [[content| |e]|]; simpl;
    try (destruct (decide _); [|done]); try (intros [= <- _]; by constructor).
  intros [= <- _].
  pose proof (split_nl_no_newline content) as Hnl.
  induction (Js.split_nl content) as [|l ls IH]; [constructor|].
  inversion Hnl as [|? ? Hl Hls]; subst. simpl.
  destruct (is_table_line (Js.trim l)) eqn:Hkeep; [|by apply IH].
  constructor; [|by apply IH].
  destruct (trim_trimmed l) as (a & b & Heq & Ha & Hb & Hhead & Hlast).
  unfold is_table_line in Hkeep. apply andb_true_iff in Hkeep as [Ht Hhash].
  split; [by destruct (Js.trim l)|]. split; [by apply trim_fixed|].
  split; [|by apply negb_true_iff].
  rewrite Heq, !has_nl_append in Hl.
  apply orb_false_iff in Hl as [_ Hl]. by apply orb_false_iff in Hl as [Hl _].
Qed.

(** ** What [exportSlimSql] leaves alone *)

Lemma dump_phase_dbs {S} c target report failure (cb : option (Callback S)) s w :
  (∀ d, engine_apply c d = d) →
  dbs (dump_phase c target report failure cb s w).2 = dbs w.
Proof.
  intros Hc. unfold dump_phase.
  pose proof (wait_dbs_cases c (launch c w)) as Hd.
  destruct (wait c (launch c w)) as [r w1]. simpl in *.
  destruct (on_data _ _ _ _ _ _) as [s1 h3].
  destruct (exit_code r =? 0); simpl; destruct Hd as [-> | ->]; by rewrite ?Hc.
Qed.

Lemma concatenate_frame outFile sf df w :
  dbs (concatenate outFile sf df w).2 = dbs w
  ∧ ∀ p, p ≠ outFile → files (concatenate outFile sf df w).2 !! p = files w !! p.
Proof.
  unfold concatenate.
  assert (∀ w1 : World, dbs w1 = dbs w →
            (∀ p, p ≠ outFile → files w1 !! p = files w !! p) →
            let out := match readFile sf w1 with
                       | (Throw e, w2) => (Throw e, w2)
                       | (Uncaught e, w2) => (Uncaught e, w2)
                       | (Ok a, w2) =>
                           let w3 := append_file outFile a w2 in
                           match readFile df w3 with
                           | (Throw e, w4) => (Throw e, w4)
                           | (Uncaught e, w4) => (Uncaught e, w4)
                           | (Ok b, w4) => (Ok tt, append_file outFile b w4)
                           end
                       end in
            dbs out.2 = dbs w
            ∧ ∀ p, p ≠ outFile → files out.2 !! p = files w !! p) as Hmain.
  { intros w1 Hd1 Hf1.
    assert (∀ x w0, dbs (append_file outFile x w0) = dbs w0
                    ∧ ∀ p, p ≠ outFile →
                        files (append_file outFile x w0) !! p = files w0 !! p) as Happ.
    { intros x w0. rewrite append_file_files. split.
      - unfold append_file. by destruct (files w0 !! outFile) as [[| |]|].
      - intros p Hp. by rewrite lookup_insert_ne. }
    assert (∀ q w0, (readFile q w0).2 = w0) as Hread.
    { intros q w0. unfold readFile. by destruct (files w0 !! q) as [[| |]|]. }
    pose proof (Hread sf w1) as H1.
    destruct (readFile sf w1) as [[a|e|e] w2]; simpl in *; subst w2; [|done..].
    pose proof (Hread df (append_file outFile a w1)) as H2.
    destruct (readFile df _) as [[b|e|e] w4]; simpl in *; subst w4.
    - destruct (Happ b (append_file outFile a w1)) as [-> Hb].
      destruct (Happ a w1) as [-> Ha]. split; [done|].
      intros p Hp. by rewrite Hb, Ha, Hf1.
    - destruct (Happ a w1) as [-> Ha]. split; [done|].
      intros p Hp. by rewrite Ha, Hf1.
    - destruct (Happ a w1) as [-> Ha]. split; [done|].
      intros p Hp. by rewrite Ha, Hf1. }
  destruct (files w !! outFile) as [[| |]|]; try done;
    (apply Hmain; [done|]; intros p Hp; simpl; by rewrite lookup_insert_ne).
Qed.

Lemma settles_dump_phase {S} c target report failure (cb : option (Callback S)) s :
  settles (dump_phase c target report failure cb s).
Proof.
  intros w e w'. unfold dump_phase. destruct (wait _ _) as [r w1].
  destruct (on_data _ _ _ _ _ _) as [s1 h3]. by destruct (_ =? _).
Qed.

Lemma settles_concatenate outFile sf df : settles (concatenate outFile sf df).
Proof.
  intros w e w' H. unfold concatenate in H.
  assert (∀ w1 : World,
            match readFile sf w1 with
            | (Throw e, w2) => (Throw e, w2)
            | (Uncaught e, w2) => (Uncaught e, w2)
            | (Ok a, w2) =>
                let w3 := append_file outFile a w2 in
                match readFile df w3 with
                | (Throw e, w4) => (Throw e, w4)
                | (Uncaught e, w4) => (Uncaught e, w4)
                | (Ok b, w4) => (Ok tt, append_file outFile b w4)
                end
            end ≠ (Uncaught e, w')) as Hmain.
  { intros w1.
    pose proof (settles_readFile sf w1) as H1.
    destruct (readFile sf w1) as [[a|e1|e1] w2]; [|done|by destruct (H1 e1 w2)].
    simpl. pose proof (settles_readFile df (append_file outFile a w2)) as H2.
    destruct (readFile df _) as [[b|e2|e2] w4]; [done|done|by destruct (H2 e2 w4)]. }
  destruct (files w !! outFile) as [[| |]|]; try done; by apply Hmain in H.
Qed.

(** Paths other than the output and the two temporary files. *)
Lemma exportSlimSql_other_paths {S} dbName outFile excl
    (cb : option (Callback S)) s w sf df wb p :
  temp_names outFile w = (sf, df, wb) →
  p ≠ outFile → p ≠ sf → p ≠ df →
  files (exportSlimSql dbName outFile excl cb s w).2 !! p = files w !! p.
Proof.
  intros Htemp Hout Hsf Hdf. unfold exportSlimSql. rewrite Htemp.
  apply temp_names_spec in Htemp as (_ & _ & _ & Hfiles & _).
  unfold try_catch, bind.
  destruct (dump_phase_files (CmdDumpStructure dbName) sf structure_report
              "MySQL structure export failed: " cb s wb) as (a & Ha).
  fold (export_structure dbName sf cb s wb) in Ha.
  destruct (export_structure dbName sf cb s wb) as [[s1|e|e] w1] eqn:E1; simpl in Ha.
  3:{ by destruct (settles_dump_phase _ _ _ _ _ _ _ _ _ E1). }
  2:{ destruct (rethrow_after_remove_temps (A:=S) sf df e w1) as (w' & Hr & _ & _ & Ho).
      unfold bind in Hr. rewrite Hr. simpl.
      by rewrite Ho, Ha, lookup_insert_ne, Hfiles. }
  destruct (dump_phase_files (CmdDumpData dbName excl) df data_report
              "MySQL data export failed: " cb s1 w1) as (b & Hb).
  fold (export_data dbName df excl cb s1 w1) in Hb.
  destruct (export_data dbName df excl cb s1 w1) as [[s2|e|e] w2] eqn:E2; simpl in Hb.
  3:{ by destruct (settles_dump_phase _ _ _ _ _ _ _ _ _ E2). }
  2:{ destruct (rethrow_after_remove_temps (A:=S) sf df e w2) as (w' & Hr & _ & _ & Ho).
      unfold bind in Hr. rewrite Hr. simpl.
      by rewrite Ho, Hb, lookup_insert_ne, Ha, lookup_insert_ne, Hfiles. }
  destruct (concatenate_frame outFile sf df w2) as [_ Hcat].
  destruct (concatenate outFile sf df w2) as [[[]|e|e] w3] eqn:E3; simpl in Hcat.
  3:{ by destruct (settles_concatenate _ _ _ _ _ _ E3). }
  - destruct (remove_temps_spec sf df w3) as (w' & Hr & _ & _ & Ho & _).
    rewrite Hr. simpl.
    by rewrite Ho, Hcat, Hb, lookup_insert_ne, Ha, lookup_insert_ne, Hfiles.
  - destruct (rethrow_after_remove_temps (A:=S) sf df e w3) as (w' & Hr & _ & _ & Ho).
    unfold bind in Hr. rewrite Hr. simpl.
    by rewrite Ho, Hcat, Hb, lookup_insert_ne, Ha, lookup_insert_ne, Hfiles.
Qed.

(** X14. Whatever its outcome, [exportSlimSql] leaves no file at either
    of its temporary paths, changes no path other than the output path
    and those two, and neither adds nor removes a database. *)
Theorem exportSlimSql_cleans_up {S} dbName outFile excludeDataTables
    (onProgress : option (Callback S)) s w sf df wb :
  temp_names outFile w = (sf, df, wb) →
  let w' := (exportSlimSql dbName outFile excludeDataTables onProgress s w).2 in
  (∀ d, files w' !! sf ≠ Some (File d))
  ∧ (∀ d, files w' !! df ≠ Some (File d))
  ∧ (∀ p, p ≠ outFile → p ≠ sf → p ≠ df → files w' !! p = files w !! p)
  ∧ dbs w' = dbs w.
Proof.
  intros Htemp w'.
  assert (∀ p, p ≠ outFile → p ≠ sf → p ≠ df → files w' !! p = files w !! p) as Hother.
  { intros p. exact (exportSlimSql_other_paths _ _ _ _ _ _ _ _ _ p Htemp). }
  subst w'. unfold exportSlimSql in *. rewrite Htemp in *.
  apply temp_names_spec in Htemp as (_ & _ & Hdbs & _).
  assert (∀ e w0,
            let w1 := ((do! remove_temps sf df in throw e : M S) w0).2 in
            (∀ d, files w1 !! sf ≠ Some (File d))
            ∧ (∀ d, files w1 !! df ≠ Some (File d)) ∧ dbs w1 = dbs w0) as Hthrow.
  { intros e w0. destruct (remove_temps_spec sf df w0)
      as (w1 & Hr & H1 & H2 & _ & Hd & _).
    rewrite (bind_Ok _ _ _ _ _ Hr). done. }
  unfold try_catch, bind in *.
  pose proof (dump_phase_dbs (CmdDumpStructure dbName) sf structure_report
                "MySQL structure export failed: " onProgress s wb (λ _, eq_refl)) as Hd1.
  fold (export_structure dbName sf onProgress s wb) in Hd1.
  destruct (export_structure dbName sf onProgress s wb) as [[s1|e|e] w1] eqn:E1;
    simpl in Hd1.
  3:{ by destruct (settles_dump_phase _ _ _ _ _ _ _ _ _ E1). }
  2:{ destruct (Hthrow e w1) as (H1 & H2 & H3). unfold bind in H1, H2, H3.
      do 2 (split; [done|]). split; [done|]. by rewrite H3, Hd1. }
  pose proof (dump_phase_dbs (CmdDumpData dbName excludeDataTables) df data_report
                "MySQL data export failed: " onProgress s1 w1 (λ _, eq_refl)) as Hd2.
  fold (export_data dbName df excludeDataTables onProgress s1 w1) in Hd2.
  destruct (export_data dbName df excludeDataTables onProgress s1 w1)
    as [[s2|e|e] w2] eqn:E2; simpl in Hd2.
  3:{ by destruct (settles_dump_phase _ _ _ _ _ _ _ _ _ E2). }
  2:{ destruct (Hthrow e w2) as (H1 & H2 & H3). unfold bind in H1, H2, H3.
      do 2 (split; [done|]). split; [done|]. by rewrite H3, Hd2, Hd1. }
  destruct (concatenate_frame outFile sf df w2) as [Hd3 _].
  destruct (concatenate outFile sf df w2) as [[[]|e|e] w3] eqn:E3; simpl in Hd3.
  3:{ by destruct (settles_concatenate _ _ _ _ _ _ E3). }
  - destruct (remove_temps_spec sf df w3) as (w4 & Hr & H1 & H2 & _ & H3 & _).
    rewrite Hr in *. simpl in *.
    do 2 (split; [done|]). split; [done|]. by rewrite H3, Hd3, Hd2, Hd1.
  - destruct (Hthrow e w3) as (H1 & H2 & H3). unfold bind in H1, H2, H3.
    do 2 (split; [done|]). split; [done|]. by rewrite H3, Hd3, Hd2, Hd1.
Qed.

(** ** The files one item of a batch touches *)

Definition kept_at (p : string) : relation World :=
  λ w w', files w' !! p = files w !! p.

#[local] Instance kept_at_preorder p : PreOrder (kept_at p).
Proof. split; [by intros w | intros a b c Hab Hbc; unfold kept_at in *; congruence]. Qed.

Lemma kept_of_same_files {A} p (m : M A) :
  respects same_files m → respects (kept_at p) m.
Proof. intros Hm w. unfold kept_at. by rewrite (Hm w). Qed.

Lemma kept_exportSlimSql {S} p dbName outFile excl (cb : option (Callback S)) s :
  p ≠ outFile →
  (∀ t, p ≠ structureFile_of outFile t ∧ p ≠ dataFile_of outFile t) →
  respects (kept_at p) (exportSlimSql dbName outFile excl cb s).
Proof.
  intros Hout Htemp w. destruct (temp_names outFile w) as [[sf df] wb] eqn:Hn.
  pose proof (temp_names_spec _ _ _ _ _ Hn) as (_ & (t1 & t2 & -> & ->) & _).
  apply (exportSlimSql_other_paths _ _ _ _ _ _ _ _ _ p Hn); [done| |];
    [apply (Htemp t1) | apply (Htemp t2)].
Qed.

Lemma input_not_slimPath f slimDir : f ≠ slimPath f slimDir.
Proof.
  intros Heq.
  assert (Path.basename (slimPath f slimDir) ".sql" = baseName f +:+ "_slim") as Hb.
  { unfold slimPath.
    change "_slim.sql" with ("_slim" +:+ ".sql"). rewrite <- append_assoc.
    apply basename_join_sql.
    - unfold baseName. by rewrite has_sep_append, basename_no_sep.
    - by destruct (baseName f). }
  rewrite <- Heq in Hb. fold (baseName f) in Hb.
  apply (f_equal String.length) in Hb. rewrite length_append in Hb. simpl in Hb. lia.
Qed.

(** X15. One item of a slim batch changes no path of the file system
    other than its slim dump and the temporary files of the export; the
    full dump it reads is never its own slim dump. *)
Theorem slim_item_keeps_other_files i n fullSqlPath slimDir excludeTables restoreConfig w :
  let out := slimPath fullSqlPath slimDir in
  let w' := (slim_item i n fullSqlPath slimDir excludeTables restoreConfig w).2 in
  (∀ p, p ≠ out →
        (∀ t, p ≠ structureFile_of out t ∧ p ≠ dataFile_of out t) →
        files w' !! p = files w !! p)
  ∧ fullSqlPath ≠ out.
Proof.
  intros out w'. split; [|apply input_not_slimPath].
  intros p Hout Htemp. subst w'.
  assert (respects (kept_at p)
            (slim_item i n fullSqlPath slimDir excludeTables restoreConfig)) as Hr;
    [|exact (Hr w)].
  unfold slim_item, item_body, on_error, slim_steps, report, progress.
  repeat first
    [ progress intros
    | apply kept_exportSlimSql; done
    | apply kept_of_same_files;
        solve [ eauto with frame typeclass_instances
              | apply files_recreate | apply files_restore_step | apply files_cleanup ]
    | apply respects_ret
    | apply respects_bind
    | apply respects_try_catch
    | apply kept_at_preorder ].
Qed.

(** ** The percentages of an import *)

Lemma read_chunks_go_spec fuel n :
  0 ≤ n → n < Z.of_nat fuel * highWaterMark →
  foldr Z.add 0 (read_chunks_go fuel n) = n
  ∧ Forall (λ c, 0 < c) (read_chunks_go fuel n).
Proof.
  unfold highWaterMark. revert n. induction fuel as [|fuel IH]; intros n Hn Hf; [lia|].
  simpl. destruct (n <=? 0) eqn:H0; [simpl; split; [lia|constructor]|].
  unfold highWaterMark. destruct (n <=? 65536) eqn:H1.
  - simpl. split; [lia|]. repeat constructor. lia.
  - destruct (IH (n - 65536)) as [Hs Hp]; [lia..|].
    simpl. rewrite Hs. split; [lia|]. constructor; [lia|done].
Qed.

Lemma read_chunks_spec data :
  foldr Z.add 0 (read_chunks data) = Z.of_nat (String.length data)
  ∧ Forall (λ c, 0 < c) (read_chunks data).
Proof.
  unfold read_chunks. apply read_chunks_go_spec; [lia|].
  set (n := Z.of_nat (String.length data)). assert (0 ≤ n) by lia.
  unfold highWaterMark.
  pose proof (Z.div_mod n 65536 ltac:(lia)).
  pose proof (Z.mod_pos_bound n 65536 ltac:(lia)).
  pose proof (Z.div_pos n 65536 ltac:(lia) ltac:(lia)).
  rewrite Nat2Z.inj_succ, Z2Nat.id by done. lia.
Qed.

Lemma import_percentage_mono size a b :
  0 < size → a ≤ b → import_percentage size a ≤ import_percentage size b.
Proof.
  intros Hs Hab. unfold import_percentage.
  destruct (0 <? size) eqn:H0; [|lia].
  unfold Js.round_div. apply Z.div_le_mono; lia.
Qed.

Lemma import_percentage_ends size :
  0 < size → import_percentage size 0 = 0 ∧ import_percentage size size = 100.
Proof.
  intros Hs. unfold import_percentage.
  destruct (0 <? size) eqn:H0; [|lia]. unfold Js.round_div. split.
  - apply Z.div_small. lia.
  - symmetry. apply Z.div_unique with (r := size); lia.
Qed.

(** The events of a stream the byte count of which only grows. *)
Lemma import_on_data i n base label size chunks :
  0 < size → Forall (λ c, 0 < c) chunks →
  ∀ b st h,
    lastPercentage st = import_percentage size b →
    let fin := import_percentage size (b + foldr Z.add 0 chunks) in
    ∃ ps,
      sent (on_data (Some (import_progress i n base label size)) (λ x, x)
              chunks b st h).2
      = rev (map (λ p, mkEvent i n (Some base) label (Some p)) ps) ++ sent h
      ∧ StronglySorted Z.lt ps
      ∧ Forall (λ p, import_percentage size b < p ≤ fin) ps
      ∧ (import_percentage size b < fin → last ps = Some fin).
Proof.
  intros Hs Hpos. induction Hpos as [|c chunks Hc Hpos IH]; intros b st h Hst fin.
  { exists []. subst fin. simpl. rewrite Z.add_0_r.
    split; [done|]. split; [constructor|]. split; [constructor|]. lia. }
  simpl in fin. simpl. unfold import_progress at 1.
  pose proof (Date_now_sent h) as Hsent.
  destruct (Date_now h) as [now h1]. simpl in Hsent.
  pose proof (import_percentage_mono size b (b + c) Hs ltac:(lia)) as Hm1.
  assert (0 ≤ foldr Z.add 0 chunks) as Hsum.
  { clear -Hpos. induction Hpos; simpl; lia. }
  pose proof (import_percentage_mono size (b + c) (b + c + foldr Z.add 0 chunks) Hs
                ltac:(lia)) as Hm2.
  assert (fin = import_percentage size (b + c + foldr Z.add 0 chunks)) as Hfin.
  { subst fin. f_equal. lia. }
  destruct (import_emits (import_percentage size (b + c)) now st) eqn:Hemit.
  - assert (import_percentage size b < import_percentage size (b + c)) as Hlt.
    { unfold import_emits in Hemit. rewrite Hst in Hemit.
      apply andb_true_iff in Hemit as [Hne _]. apply negb_true_iff in Hne. lia. }
    destruct (IH (b + c) (mkThrottle (import_percentage size (b + c)) now)
                (push_sent (mkEvent i n (Some base) label
                              (Some (import_percentage size (b + c)))) h1) eq_refl)
      as (ps & Hps & Hsorted & Hrange & Hlast).
    exists (import_percentage size (b + c) :: ps).
    cbv beta iota. rewrite Hps. simpl. rewrite Hsent, <- app_assoc. split; [done|].
    split; [|split].
    + constructor; [done|]. eapply Forall_impl; [exact Hrange|]. intros p. simpl. lia.
    + constructor; [lia|]. eapply Forall_impl; [exact Hrange|]. intros p. simpl. lia.
    + intros _. destruct ps as [|p ps].
      * simpl. f_equal.
        destruct (decide (import_percentage size (b + c) < fin)) as [Hd|Hd]; [|lia].
        rewrite Hfin in Hd. by specialize (Hlast Hd).
      * rewrite last_cons_cons. rewrite Hfin. apply Hlast.
        apply Forall_cons in Hrange as [Hp _]. lia.
  - assert (import_percentage size (b + c) = import_percentage size b) as Heq.
    { unfold import_emits in Hemit. rewrite Hst in Hemit.
      apply andb_false_iff in Hemit as [Hne | Hor].
      - apply negb_false_iff in Hne. lia.
      - apply orb_false_iff in Hor as [Hge _]. lia. }
    destruct (IH (b + c) st h1 ltac:(congruence)) as (ps & Hps & Hsorted & Hrange & Hlast).
    exists ps. cbv beta iota. rewrite Hps, Hsent. split; [done|]. split; [done|].
    rewrite Heq in Hrange, Hlast. rewrite Hfin. done.
Qed.

(** What the import of a regular file sends: the events of the chunks
    the client read. *)
Lemma importSql_host {S} n f (cb : option (Callback S)) s data w :
  files w !! f = Some (File data) →
  host (importSql n f cb s w).2
  = (on_data cb (λ x, x)
       (chunks_piped (wait (CmdImport n f) (launch (CmdImport n f) w)).1 data)
       0 s (host w)).2.
Proof.
  intros Hfile. unfold importSql. simpl. rewrite Hfile.
  pose proof (wait_frame (CmdImport n f) (launch (CmdImport n f) w)) as (_ & _ & Hh).
  destruct (wait _ _) as [r w1]. simpl in *. rewrite Hh.
  destruct (on_data _ _ _ _ _ _) as [s1 h1].
  by destruct (epipe r), (exit_code r =? 0).
Qed.

Lemma sum_take_le (k : nat) (l : list Z) :
  Forall (λ c, 0 < c) l → 0 ≤ foldr Z.add 0 (take k l) ≤ foldr Z.add 0 l.
Proof.
  intros Hl. revert k. induction Hl as [|c l Hc Hl IH]; intros [|k]; simpl; try lia.
  - assert (0 ≤ foldr Z.add 0 l) by (specialize (IH 0%nat); simpl in IH; lia). lia.
  - specialize (IH k). lia.
Qed.

(** X16. The import of a non-empty file, watched by the handler's
    callback for the size of that file, sends percentages that strictly
    increase and lie between 1 and 100, whether the import succeeds or
    fails; when the file is piped to its end, the last of them is 100. *)
Theorem import_progress_reaches_100 i n base label dbName sqlFile data w :
  files w !! sqlFile = Some (File data) →
  data ≠ "" →
  ∃ ps,
    emitted (importSql dbName sqlFile
               (Some (import_progress i n base label (Z.of_nat (String.length data))))
               throttle0 w).2
    = emitted w ++ map (λ p, mkEvent i n (Some base) label (Some p)) ps
    ∧ StronglySorted Z.lt ps
    ∧ Forall (λ p, 1 ≤ p ≤ 100) ps
    ∧ (unread (wait (CmdImport dbName sqlFile)
                 (launch (CmdImport dbName sqlFile) w)).1 = 0%nat →
       last ps = Some 100).
Proof.
  intros Hfile Hdata.
  set (size := Z.of_nat (String.length data)).
  assert (0 < size) as Hs by (subst size; destruct data; [done | simpl; lia]).
  destruct (read_chunks_spec data) as [Hsum Hpos]. fold size in Hsum.
  destruct (import_percentage_ends size Hs) as [H0 H100].
  set (r := (wait (CmdImport dbName sqlFile) (launch (CmdImport dbName sqlFile) w)).1).
  assert (Forall (λ c, 0 < c) (chunks_piped r data)) as Hpos'.
  { unfold chunks_piped. by apply Forall_take. }
  pose proof (sum_take_le (length (read_chunks data) - unread r) _ Hpos) as Hle.
  fold (chunks_piped r data) in Hle. rewrite Hsum in Hle.
  destruct (import_on_data i n base label size (chunks_piped r data) Hs Hpos'
              0 throttle0 (host w) (eq_sym H0)) as (ps & Hps & Hsorted & Hrange & Hlast).
  rewrite Z.add_0_l, H0 in Hrange, Hlast.
  pose proof (import_percentage_mono size _ _ Hs (proj2 Hle)) as Hfin.
  rewrite H100 in Hfin.
  exists ps. split; [|split; [done|split]].
  - unfold emitted. rewrite (importSql_host _ _ _ _ data) by done. fold r.
    rewrite Hps, rev_app_distr, rev_involutive. done.
  - eapply Forall_impl; [exact Hrange|]. intros p. simpl. lia.
  - intros Hall.
    assert (chunks_piped r data = read_chunks data) as Heq.
    { unfold chunks_piped. by rewrite Hall, Nat.sub_0_r, firstn_all. }
    rewrite Heq, Hsum, H100 in Hlast. apply Hlast. lia.
Qed.

(** ** The events of a batch *)

Lemma grows_getDatabaseInfo P Q d :
  P (CmdInfo d) → respects (grows P Q) (getDatabaseInfo d).
Proof. intros Hc w. rewrite getDatabaseInfo_world. by apply grows_after. Qed.

Lemma restore_label_not_export t : restore_label t ≠ export_label.
Proof. unfold restore_label, export_label. by rewrite append_cons. Qed.

Lemma export_percentage_max x : export_percentage x ≤ 95.
Proof. unfold export_percentage. lia. Qed.

Lemma export_progress_sends_capped (Q : ProgressEvent → Prop) i n base :
  (∀ pct, pct ≤ 95 → Q (mkEvent i n (Some base) export_label (Some pct))) →
  sends Q (Some (export_progress i n base)).
Proof.
  intros HQ x s h. simpl. unfold export_progress.
  pose proof (Date_now_sent h) as Hs. destruct (Date_now h) as [now h1]. simpl in Hs.
  destruct (export_emits _ _ _); simpl.
  - eexists [_]. rewrite Hs. split; [done|].
    repeat constructor. apply HQ, export_percentage_max.
  - by exists [].
Qed.

Lemma grows_slim_item (Q : ProgressEvent → Prop) i n f slimDir ex rc :
  (∀ l pct, l ≠ export_label → Q (mkEvent i n (Some (baseName f)) l (Some pct))) →
  (∀ pct, pct ≤ 95 → Q (mkEvent i n (Some (baseName f)) export_label (Some pct))) →
  respects (grows (λ _, True) Q) (slim_item i n f slimDir ex rc).
Proof.
  intros Hother Hexport.
  pose proof (grows_preorder (λ _ : Cmd, True) Q).
  assert (∀ t, respects (grows (λ _, True) Q) (restore_to i n f slimDir t)) as Hrestore.
  { intros t. pose proof (restore_label_not_export t).
    unfold restore_to, recreate, progress.
    repeat first
      [ progress intros
      | apply grows_send; apply Hother; done
      | apply grows_databaseExists; done
      | apply grows_dropDatabase; done
      | apply grows_createDatabase; done
      | apply grows_getDatabaseInfo; done
      | apply grows_stat_size
      | apply grows_importSql;
          [done | apply import_progress_sends; intros; apply Hother; done]
      | apply respects_ret
      | apply respects_if
      | apply respects_bind
      | done ]. }
  unfold slim_item, item_body, on_error, cleanup, cleanup_attempt, report,
    restore_step, slim_steps, recreate, progress.
  repeat first
    [ progress intros
    | apply Hrestore
    | apply grows_send; first [apply Hexport; lia | apply Hother; done]
    | apply grows_databaseExists; done
    | apply grows_dropDatabase; done
    | apply grows_createDatabase; done
    | apply grows_stat_size
    | apply grows_importSql;
        [done | apply import_progress_sends; intros; apply Hother; done]
    | apply grows_exportSlimSql;
        [done | done | by apply export_progress_sends_capped]
    | apply respects_ret
    | apply respects_if
    | apply respects_swallow
    | apply respects_bind
    | apply respects_try_catch
    | match goal with |- respects _ (match ?x with _ => _ end) => destruct x end
    | done ].
Qed.

Lemma slim_item_events i n f slimDir ex rc w :
  ∃ evs, emitted (slim_item i n f slimDir ex rc w).2 = emitted w ++ evs
         ∧ Forall (item_event i n f) evs.
Proof.
  destruct (grows_slim_item (item_event i n f) i n f slimDir ex rc) with (w := w)
    as [_ (new & Hnew & Hq)].
  - intros l pct Hl. do 3 (split; [done|]). exists pct. by split.
  - intros pct Hp. do 3 (split; [done|]). exists pct. by split.
  - exists (rev new). unfold emitted. rewrite Hnew, rev_app_distr. split; [done|].
    by apply Forall_rev.
Qed.

Lemma slim_loop_events n slimDir ex rc inputs :
  ∀ i w rs w',
    slim_loop n slimDir ex rc i inputs w = (Ok rs, w') →
    ∃ groups,
      emitted w' = emitted w ++ concat groups
      ∧ length groups = length inputs
      ∧ ∀ k f g, inputs !! k = Some f → groups !! k = Some g →
                 Forall (item_event (i + k) n f) g.
Proof.
  induction inputs as [|f inputs IH]; intros i w rs w' Hrun; simpl in Hrun.
  - injection Hrun as <- <-. exists []. simpl. by rewrite app_nil_r.
  - apply bind_Ok_inv in Hrun as (r & w1 & Hr & Hrun).
    apply bind_Ok_inv in Hrun as (rs' & w2 & Hrs & Hrun). injection Hrun as <- <-.
    destruct (slim_item_events i n f slimDir ex rc w) as (evs & Hevs & Hq).
    rewrite Hr in Hevs. simpl in Hevs.
    destruct (IH (S i) w1 rs' w2 Hrs) as (groups & Hg & Hlen & Hall).
    exists (evs :: groups). simpl.
    rewrite Hg, Hevs, <- app_assoc. split; [done|]. split; [by rewrite Hlen|].
    intros [|k] f' g Hf Hgk; simpl in *.
    + injection Hf as <-. injection Hgk as <-. by rewrite Nat.add_0_r.
    + replace (i + S k)%nat with (S i + k)%nat by lia. by eapply Hall.
Qed.

(** X17. The events of a batch that returns: every item sends its events
    in turn, each carrying the index of the item, the size of the batch
    and the base name of the item's file, with a percentage that stays at
    or below 95 under the export label; the ['Complete'] event comes
    last. *)
Theorem slim_start_events_in_order DB_ROOT sqlFiles restoreConfig w resp w' :
  slim_start DB_ROOT sqlFiles restoreConfig w = (Ok resp, w') →
  ∃ groups,
    emitted w' = emitted w ++ concat groups ++ [complete_event (length sqlFiles)]
    ∧ length groups = length sqlFiles
    ∧ ∀ k f g, sqlFiles !! k = Some f → groups !! k = Some g →
               Forall (item_event k (length sqlFiles) f) g.
Proof.
  unfold slim_start. intros Hrun.
  apply try_catch_Ok_inv in Hrun; [|by intros e0 w0 [w2 [=]]].
  apply bind_Ok_inv in Hrun as (names & w1 & Hload & Hrun).
  apply bind_Ok_inv in Hrun as ([] & w2 & Hdir & Hrun).
  apply bind_Ok_inv in Hrun as (rs & w3 & Hloop & Hrun).
  apply bind_Ok_inv in Hrun as ([] & w4 & Hsend & Hrun).
  injection Hrun as <- <-. injection Hsend as <-.
  assert (emitted w2 = emitted w) as Hsame.
  { assert (w1 = w) as ->.
    { unfold loadExcludeTables, try_catch, bind, readFile in Hload.
      destruct (files w !! _) as [[d| |e0]|]; simpl in Hload;
        repeat match type of Hload with
               | context [decide ?P] => destruct (decide P)
               end; by injection Hload. }
    pose proof (ensureDirectory_frame (Path.join DB_ROOT "slim") w) as (_ & _ & Hh & _).
    rewrite Hdir in Hh. unfold emitted. simpl in Hh. by rewrite Hh. }
  destruct (slim_loop_events (length sqlFiles) (Path.join DB_ROOT "slim") names
              restoreConfig sqlFiles 0%nat w2 rs w3 Hloop) as (groups & Hg & Hlen & Hall).
  exists groups. split; [|split; [done|exact Hall]].
  unfold emitted in *. simpl. rewrite Hg, Hsame, <- app_assoc. done.
Qed.

(** X18. A batch that fails as a whole has done nothing: the failure
    comes from reading the exclusion file or from preparing the slim
    directory, its message is prefixed, and the file system, the engine,
    the log and the channel are as they were. *)
Theorem slim_start_fails_before_any_work DB_ROOT sqlFiles restoreConfig w e w' :
  slim_start DB_ROOT sqlFiles restoreConfig w = (Throw e, w') →
  w' = w
  ∧ ∃ e0, e = Error ("Slim dump failed: " +:+ message e0)
      ∧ (loadExcludeTables (Path.join DB_ROOT "config/exclude-tables.txt") w
           = (Throw e0, w)
         ∨ ensureDirectory (Path.join DB_ROOT "slim") w = (Throw e0, w)).
Proof.
  unfold slim_start, try_catch at 1. intros Hrun.
  set (configPath := Path.join DB_ROOT "config/exclude-tables.txt") in *.
  set (slimDir := Path.join DB_ROOT "slim") in *.
  assert (∀ r w1, loadExcludeTables configPath w = (r, w1) → w1 = w) as Hload_w.
  { intros r w1. unfold loadExcludeTables, try_catch, bind, readFile.
    destruct (files w !! _) as [[d| |e0]|]; simpl;
      repeat match goal with
             | |- context [decide ?P] => destruct (decide P)
             end; by intros [= _ <-]. }
  assert (∀ e0 w1, ensureDirectory slimDir w = (Throw e0, w1) → w1 = w) as Hdir_w.
  { by destruct (ensureDirectory_frame slimDir w) as (_ & _ & _ & Hthrow). }
  unfold bind in Hrun.
  destruct (loadExcludeTables configPath w) as [[names|e0|e0] w1] eqn:Hload.
  3:{ done. }
  2:{ injection Hrun as <- <-. pose proof (Hload_w _ _ eq_refl) as ->.
      split; [done|]. exists e0. split; [done|]. by left. }
  pose proof (Hload_w _ _ eq_refl) as ->.
  destruct (ensureDirectory slimDir w) as [[[]|e0|e0] w2] eqn:Hdir.
  2:{ injection Hrun as <- <-. pose proof (Hdir_w _ _ eq_refl) as ->.
      split; [done|]. exists e0. split; [done|]. by right. }
  2:{ done. }
  pose proof (slim_loop_no_throw (length sqlFiles) slimDir names restoreConfig
                0%nat sqlFiles w2) as Hloop.
  destruct (slim_loop _ _ _ _ _ _ w2) as [[rs|e1|e1] w3]; [done| |done].
  by destruct (Hloop e1 w3).
Qed.

(** ** The entries of a batch *)

Lemma loadExcludeTables_world p w : (loadExcludeTables p w).2 = w.
Proof.
  unfold loadExcludeTables, try_catch, bind, readFile.
  destruct (files w !! _) as [[d| |e0]|]; simpl;
    repeat match goal with
           | |- context [decide ?P] => destruct (decide P)
           end; done.
Qed.

(** What the failure handler sends to the engine: the question, and the
    drop when the answer was yes. *)
Lemma cleanup_attempt_log f w :
  ∃ sent_drop : bool,
    log (cleanup_attempt f w).2
    = (if sent_drop then [CmdDrop (tempDbName f)] else [])
        ++ CmdExists (tempDbName f) :: log w
    ∧ (sent_drop = true ↔ (databaseExists (tempDbName f) w).1 = Ok true).
Proof.
  unfold cleanup_attempt, bind.
  pose proof (databaseExists_world (tempDbName f) w) as Hw.
  destruct (after_frame (CmdExists (tempDbName f)) w) as (_ & Hl & _).
  destruct (databaseExists (tempDbName f) w) as [[[|]|e|e] w1]; simpl in *; subst w1.
  - exists true. split; [|done].
    rewrite dropDatabase_world.
    destruct (after_frame (CmdDrop (tempDbName f)) (after (CmdExists (tempDbName f)) w))
      as (_ & -> & _). by rewrite Hl.
  - exists false. by split.
  - exists false. by split.
  - exists false. by split.
Qed.

(** X22. A batch that returns gives one entry per input file, in input
    order, each under the base name of its file.  Entry [k] is what the
    iteration of file [k] returned, run from the world the files before
    it left, and the files after it are run from the world it left.
    When the body of that iteration throws, the entry is the failure
    entry with the message of the error, and the failure handler has
    asked the engine whether the temp database exists and, exactly when
    the answer was yes, has sent the drop; the batch goes on from the
    world that attempt left, whatever its outcome. *)
Theorem slim_start_results_in_order DB_ROOT (inputs : list string) rc w resp w' :
  slim_start DB_ROOT inputs rc w = (Ok resp, w') →
  let n := length inputs in
  let slimDir := Path.join DB_ROOT "slim" in
  batch_success resp = true
  ∧ length (results resp) = n
  ∧ map fileName_of (results resp) = map baseName inputs
  ∧ ∃ ex w1,
      loadExcludeTables (Path.join DB_ROOT "config/exclude-tables.txt") w = (Ok ex, w)
      ∧ ensureDirectory slimDir w = (Ok tt, w1)
      ∧ ∀ k f, inputs !! k = Some f →
          ∃ wk r wk' wend,
            slim_loop n slimDir ex rc 0 (take k inputs) w1
              = (Ok (take k (results resp)), wk)
            ∧ slim_item k n f slimDir ex rc wk = (Ok r, wk')
            ∧ results resp !! k = Some r
            ∧ slim_loop n slimDir ex rc (S k) (drop (S k) inputs) wk'
              = (Ok (drop (S k) (results resp)), wend)
            ∧ ∀ e wf, item_body k n f slimDir ex rc wk = (Throw e, wf) →
                r = ItemFailed (baseName f) (message e)
                ∧ success r = false
                ∧ wk' = (cleanup_attempt f wf).2
                ∧ ∃ sent_drop : bool,
                    log wk' = (if sent_drop then [CmdDrop (tempDbName f)] else [])
                                ++ CmdExists (tempDbName f) :: log wf
                    ∧ (sent_drop = true
                       ↔ (databaseExists (tempDbName f) wf).1 = Ok true).
Proof.
  intros Hrun n slimDir. unfold slim_start in Hrun.
  apply try_catch_Ok_inv in Hrun; [|by intros e0 w0 [w2 [=]]].
  apply bind_Ok_inv in Hrun as (ex & w0 & Hload & Hrun).
  apply bind_Ok_inv in Hrun as ([] & w1 & Hdir & Hrun).
  apply bind_Ok_inv in Hrun as (rs & w2 & Hloop & Hrun).
  apply bind_Ok_inv in Hrun as ([] & w3 & Hsend & Hrun).
  injection Hrun as <- <-. simpl.
  pose proof (loadExcludeTables_world (Path.join DB_ROOT "config/exclude-tables.txt") w)
    as Hw0.
  rewrite Hload in Hw0. simpl in Hw0. subst w0.
  fold slimDir n in Hdir, Hloop.
  pose proof (slim_loop_Ok _ _ _ _ _ _ _ _ _ Hloop) as Hnames.
  split; [done|]. split.
  { apply (f_equal length) in Hnames. by rewrite !length_map in Hnames. }
  split; [done|].
  exists ex, w1. do 2 (split; [done|]).
  intros k f Hk.
  pose proof (take_drop_middle inputs k f Hk) as Hsplit.
  rewrite <- Hsplit in Hloop.
  apply slim_loop_split in Hloop as (rs1 & wk & r & wk' & rs2 & H1 & Hr & H2 & -> & Hlen).
  assert (length rs1 = k) as Hk'.
  { rewrite Hlen, length_take. apply lookup_lt_Some in Hk. lia. }
  rewrite length_take in Hr, H2.
  replace (0 + k `min` length inputs)%nat with k in Hr, H2
    by (apply lookup_lt_Some in Hk; lia).
  exists wk, r, wk', w2.
  rewrite take_app_length' by done.
  rewrite list_lookup_middle by done.
  assert (drop (S k) (rs1 ++ r :: rs2) = rs2) as ->.
  { rewrite <- Hk'. clear. induction rs1 as [|x rs1 IH]; simpl; done. }
  do 4 (split; [done|]).
  intros e wf Hbody.
  destruct (slim_item_of_failure _ _ _ _ _ _ _ _ _ Hbody) as (w'' & Hitem & Hc).
  rewrite Hitem in Hr. injection Hr as <- <-.
  do 2 (split; [done|]).
  pose proof (cleanup_world f wf) as Hcw. rewrite Hc in Hcw. simpl in Hcw.
  split; [done|]. rewrite Hcw. apply cleanup_attempt_log.
Qed.

(** ** The command-line slim flow *)

Lemma createSlimDump_Throw f ex w e w' :
  createSlimDump f ex w = (Throw e, w') →
  ∃ wf, cli_steps f ex w = (Throw e, wf) ∧ cleanup f wf = (Ok tt, w').
Proof.
  unfold createSlimDump, try_catch.
  destruct (cli_steps f ex w) as [[[]|e0|e0] wf]; [done| |done].
  destruct (cleanup_total f wf) as (w2 & Hc).
  rewrite (bind_Ok _ _ _ _ _ Hc). intros [= <- <-]. by exists wf.
Qed.

(** X19. The command-line loop stops at the first file that fails: the
    files before it were processed, the error it throws is the error of
    that file's steps, not one of the cleanup, and the run ends in the
    world the cleanup of that file left, no later file being touched.
    That cleanup has asked the engine whether the temp database exists
    and, exactly when the answer was yes, has sent the drop. *)
Theorem cli_loop_stops_at_first_failure excludeTables filesToProcess w e w' :
  cli_loop excludeTables filesToProcess w = (Throw e, w') →
  ∃ pre file post w1 wf,
    filesToProcess = pre ++ file :: post
    ∧ cli_loop excludeTables pre w = (Ok tt, w1)
    ∧ cli_steps file excludeTables w1 = (Throw e, wf)
    ∧ cleanup file wf = (Ok tt, w')
    ∧ ∃ sent_drop : bool,
        log w' = (if sent_drop then [CmdDrop (tempDbName file)] else [])
                   ++ CmdExists (tempDbName file) :: log wf
        ∧ (sent_drop = true ↔ (databaseExists (tempDbName file) wf).1 = Ok true).
Proof.
  revert w. induction filesToProcess as [|f rest IH]; intros w; simpl; [done|].
  unfold bind at 1.
  destruct (createSlimDump f excludeTables w) as [[[]|e0|e0] w1] eqn:Hf.
  - intros Hrest.
    destruct (IH w1 Hrest) as (pre & file & post & w2 & wf & -> & Hpre & Hsteps & Hc).
    exists (f :: pre), file, post, w2, wf. split; [done|]. split; [|done].
    simpl. by rewrite (bind_Ok _ _ _ _ _ Hf).
  - intros [= <- <-]. apply createSlimDump_Throw in Hf as (wf & Hsteps & Hc).
    exists [], f, rest, w, wf. do 4 (split; [done|]).
    pose proof (cleanup_world f wf) as Hw. rewrite Hc in Hw. simpl in Hw.
    rewrite Hw. apply cleanup_attempt_log.
  - done.
Qed.

Lemma cli_slimPath_not_temp f t :
  cli_slimPath f ≠ structureFile_of (cli_slimPath f) t
  ∧ cli_slimPath f ≠ dataFile_of (cli_slimPath f) t.
Proof.
  unfold structureFile_of, dataFile_of.
  generalize (Path.dirname (cli_slimPath f)). intros d.
  unfold cli_slimPath, Path.join.
  change (String Path.sep ("._temp_structure_" +:+ Js.of_Z t +:+ ".sql"))
    with (String Path.sep "._temp_structure_" +:+ Js.of_Z t +:+ ".sql").
  change (String Path.sep ("._temp_data_" +:+ Js.of_Z t +:+ ".sql"))
    with (String Path.sep "._temp_data_" +:+ Js.of_Z t +:+ ".sql").
  rewrite <- !(append_assoc "./slim/"), <- !(append_assoc d).
  split; apply slim_suffix_not_temp.
Qed.

(** X20. When [createSlimDump] returns, the temporary database is gone,
    the slim dump is a regular file and the full dump is still there. *)
Theorem createSlimDump_success fullSqlPath excludeTables w w' :
  createSlimDump fullSqlPath excludeTables w = (Ok tt, w') →
  tempDbName fullSqlPath ∉ dbs w'
  ∧ (∃ content, files w' !! cli_slimPath fullSqlPath = Some (File content))
  ∧ is_Some (files w' !! fullSqlPath).
Proof.
  unfold createSlimDump. intros Hrun.
  apply try_catch_Ok_inv in Hrun.
  2:{ intros e0 w0 [w2 Hw2]. destruct (cleanup_total fullSqlPath w0) as (w3 & Hc).
      by rewrite (bind_Ok _ _ _ _ _ Hc) in Hw2. }
  unfold cli_steps in Hrun.
  apply bind_Ok_inv in Hrun as ([] & w1 & _ & Hrun).
  apply bind_Ok_inv in Hrun as ([] & w2 & _ & Hrun).
  apply bind_Ok_inv in Hrun as ([] & w3 & Hexport & Hrun).
  apply bind_Ok_inv in Hrun as ([] & w4 & Hdrop & Hrun).
  apply bind_Ok_inv in Hrun as (fullSize & w5 & Hfull & Hrun).
  apply bind_Ok_inv in Hrun as (slimSize & w6 & Hslim & Hrun).
  injection Hrun as <-.
  pose proof (stat_size_world fullSqlPath w4) as H5. rewrite Hfull in H5.
  simpl in H5. subst w5.
  pose proof (stat_size_world (cli_slimPath fullSqlPath) w4) as H6. rewrite Hslim in H6.
  simpl in H6. subst w6.
  pose proof (files_dropDatabase (tempDbName fullSqlPath) w3) as Hfiles.
  rewrite Hdrop in Hfiles. unfold same_files in Hfiles. simpl in Hfiles.
  split; [|split].
  - apply dropDatabase_Ok in Hdrop. rewrite Hdrop.
    intros [_ Hn]%elem_of_difference. by apply Hn, elem_of_singleton.
  - destruct (temp_names (cli_slimPath fullSqlPath) w2) as [[sf df] wb] eqn:Htemp.
    destruct (exportSlimSql_Ok_stages _ _ _ _ _ _ _ _ _ _ _ Htemp Hexport)
      as (s1 & v1 & v2 & v3 & _ & _ & Hcat & Hrm).
    apply temp_names_spec in Htemp as (_ & (t1 & t2 & -> & ->) & _).
    destruct (concatenated_output _ _ _ _ _ _
                (proj1 (cli_slimPath_not_temp fullSqlPath t1))
                (proj2 (cli_slimPath_not_temp fullSqlPath t2)) Hcat Hrm)
      as (a & b & _ & _ & Hout).
    exists (a +:+ b). by rewrite Hfiles.
  - unfold stat_size in Hfull.
    destruct (files w4 !! fullSqlPath) as [[d| |e0]|]; try done; by eexists.
Qed.

(** ** The arguments of the command-line client *)

Lemma of_Z_length (t : Z) : (0 < String.length (Js.of_Z t))%nat.
Proof.
  destruct (of_Z_last t) as (p & d & -> & _). rewrite length_append. simpl. lia.
Qed.

Lemma or_else_truthy (s d : string) :
  Js.truthy d = true → Js.truthy (Conn.or_else s d) = true.
Proof. unfold Conn.or_else. by destruct s. Qed.

(** X21. The client is given exactly one way to reach the server: the
    socket when the settings name one, and the host and the port
    otherwise, never both; every option it is given carries a value, the
    user, the host and the port falling back to their defaults. *)
Theorem cli_args_one_transport (config : Conn.Settings) :
  let args := Conn.getMysqlCliArgs (Conn.setMySQLConfig config) in
  let count prefix := length (List.filter (λ a, Js.startsWith a prefix) args) in
  count "-u" = 1%nat
  ∧ count "--socket=" = (if Js.truthy (Conn.s_socket config) then 1 else 0)%nat
  ∧ count "-h" = (if Js.truthy (Conn.s_socket config) then 0 else 1)%nat
  ∧ count "-P" = (if Js.truthy (Conn.s_socket config) then 0 else 1)%nat
  ∧ Forall (λ a, (2 < String.length a)%nat) args.
Proof.
  intros args count. subst count args.
  unfold Conn.getMysqlCliArgs, Conn.setMySQLConfig. cbn [Conn.c_user Conn.c_password
    Conn.c_socketPath Conn.c_host Conn.c_port].
  pose proof (or_else_truthy (Conn.s_user config) "root" eq_refl) as Hu.
  pose proof (or_else_truthy (Conn.s_host config) "localhost" eq_refl) as Hh.
  pose proof (of_Z_length (if Conn.s_port config =? 0 then 3306
                           else Conn.s_port config)) as Hp.
  assert (Conn.or_else (Conn.s_password config) "" = Conn.s_password config) as ->.
  { unfold Conn.or_else. by destruct (Conn.s_password config). }
  destruct (Conn.or_else (Conn.s_user config) "root") as [|u0 u]; [done|].
  destruct (Conn.or_else (Conn.s_host config) "localhost") as [|h0 h]; [done|].
  destruct (Js.of_Z _) as [|p0 p]; [simpl in Hp; lia|].
  destruct (Conn.s_password config) as [|c pw];
    destruct (Conn.s_socket config) as [|c' so];
    cbn [Js.truthy app]; rewrite ?append_cons, ?append_nil_l;
    (do 4 (split; [reflexivity|]));
    repeat (apply List.Forall_cons; [simpl; lia|]); apply List.Forall_nil.
Qed.

(* ===================================================================== *)
(** ** The further properties at work *)
(* ===================================================================== *)

Lemma file_delete_success_witness :
  file_delete [Scenario.full; Scenario.config] Scenario.calm
    = (Ok 2%nat, (file_delete [Scenario.full; Scenario.config] Scenario.calm).2)
  ∧ files (file_delete [Scenario.full; Scenario.config] Scenario.calm).2
      !! "/db/slim" = files Scenario.calm !! "/db/slim".
Proof.
  assert (file_delete [Scenario.full; Scenario.config] Scenario.calm
          = (Ok 2%nat, (file_delete [Scenario.full; Scenario.config] Scenario.calm).2))
    as H1 by (vm_compute; reflexivity).
  split; [exact H1|].
  destruct (file_delete_success _ _ _ _ H1) as (_ & _ & _ & Hother).
  apply Hother. rewrite !elem_of_cons, elem_of_nil. by intros [?|[?|[]]].
Defined.

Lemma file_delete_failure_witness :
  file_delete [Scenario.full; Scenario.missing; Scenario.config] Scenario.calm
    = (Throw (Error ("Delete failed: " +:+ message (ENOENT "unlink" Scenario.missing))),
       (file_delete [Scenario.full; Scenario.missing; Scenario.config] Scenario.calm).2)
  ∧ ∃ pre p post,
      [Scenario.full; Scenario.missing; Scenario.config] = pre ++ p :: post
      ∧ ∀ d, files (file_delete [Scenario.full; Scenario.missing; Scenario.config]
                      Scenario.calm).2 !! p ≠ Some (File d).
Proof.
  assert (file_delete [Scenario.full; Scenario.missing; Scenario.config] Scenario.calm
    = (Throw (Error ("Delete failed: " +:+ message (ENOENT "unlink" Scenario.missing))),
       (file_delete [Scenario.full; Scenario.missing; Scenario.config] Scenario.calm).2))
    as H1 by (vm_compute; reflexivity).
  split; [exact H1|].
  destruct (file_delete_failure _ _ _ _ H1)
    as (pre & p & post & e0 & Hsplit & _ & _ & Hp & _).
  exists pre, p, post. split; [exact Hsplit | exact Hp].
Defined.

Lemma bulk_delete_engine_witness :
  (∃ msg, bulk_delete ["shop_temp"; "ghost"] More.two_databases
          = (Ok (mkBulk ["shop_temp"] [("ghost", msg)]),
             (bulk_delete ["shop_temp"; "ghost"] More.two_databases).2))
  ∧ ("shop_dev" ∈ dbs (bulk_delete ["shop_temp"; "ghost"] More.two_databases).2
     ↔ "shop_dev" ∈ dbs More.two_databases).
Proof.
  assert (∃ msg, bulk_delete ["shop_temp"; "ghost"] More.two_databases
          = (Ok (mkBulk ["shop_temp"] [("ghost", msg)]),
             (bulk_delete ["shop_temp"; "ghost"] More.two_databases).2)) as H1
    by (eexists; vm_compute; reflexivity).
  split; [exact H1|]. destruct H1 as [msg H1].
  destruct (bulk_delete_engine _ _ _ _ H1) as (_ & _ & Hother).
  apply Hother. rewrite !elem_of_cons, elem_of_nil. by intros [?|[?|[]]].
Defined.

Lemma recreate_creates_only_its_database_witness :
  recreate "shop_temp" More.two_databases
    = (Ok tt, (recreate "shop_temp" More.two_databases).2)
  ∧ "shop_temp" ∈ dbs (recreate "shop_temp" More.two_databases).2.
Proof.
  assert (recreate "shop_temp" More.two_databases
          = (Ok tt, (recreate "shop_temp" More.two_databases).2)) as H1
    by (vm_compute; reflexivity).
  split; [exact H1|].
  exact (proj1 (recreate_creates_only_its_database _ _ _ H1)).
Defined.


Lemma ensureDirectory_spec_witness :
  let run := ensureDirectory "/db/new/deep" Scenario.calm in
  run.1 = Ok tt
  ∧ access "/db/new/deep" run.2 = (Ok tt, run.2)
  ∧ files run.2 !! "/db/new" = Some Dir
  ∧ files run.2 !! Scenario.full = files Scenario.calm !! Scenario.full.
Proof.
  intros run.
  assert (run = (Ok tt, run.2)) as H1 by (vm_compute; reflexivity).
  destruct (ensureDirectory_spec _ _ _ H1) as (Ha & _ & Hkept & _ & Hanc & _).
  split; [by rewrite H1|]. split; [exact Ha|]. split.
  - apply Hanc; [vm_compute; reflexivity|].
    apply list_elem_of_In. vm_compute. auto.
  - apply Hkept. vm_compute. eauto.
Defined.

Lemma loadExcludeTables_crlf_witness :
  More.table_lines ≠ []
  ∧ Forall (λ l, Js.has_nl l = false) More.table_lines
  ∧ files (More.with_config (join_crlf More.table_lines)) !! Scenario.config
    = Some (File (join_crlf More.table_lines))
  ∧ files (More.with_config (Js.join_nl More.table_lines)) !! Scenario.config
    = Some (File (Js.join_nl More.table_lines))
  ∧ (loadExcludeTables Scenario.config
       (More.with_config (join_crlf More.table_lines))).1
    = (loadExcludeTables Scenario.config
         (More.with_config (Js.join_nl More.table_lines))).1.
Proof.
  assert (More.table_lines ≠ []) as H1 by (vm_compute; congruence).
  assert (Forall (λ l, Js.has_nl l = false) More.table_lines) as H2
    by (repeat constructor).
  assert (files (More.with_config (join_crlf More.table_lines)) !! Scenario.config
          = Some (File (join_crlf More.table_lines))) as H3 by (vm_compute; reflexivity).
  assert (files (More.with_config (Js.join_nl More.table_lines)) !! Scenario.config
          = Some (File (Js.join_nl More.table_lines))) as H4 by (vm_compute; reflexivity).
  do 4 (split; [assumption|]).
  exact (loadExcludeTables_crlf _ _ _ _ H1 H2 H3 H4).
Defined.

Lemma loadExcludeTables_names_clean_witness :
  loadExcludeTables Scenario.config Scenario.calm = (Ok Run.excluded, Scenario.calm)
  ∧ Forall (λ name, name ≠ "" ∧ Js.trim name = name ∧ Js.has_nl name = false
                    ∧ Js.startsWith name "#" = false) Run.excluded.
Proof.
  assert (loadExcludeTables Scenario.config Scenario.calm
          = (Ok Run.excluded, Scenario.calm)) as H1 by (vm_compute; reflexivity).
  split; [exact H1|].
  exact (loadExcludeTables_names_clean _ _ _ _ H1).
Defined.

Lemma exportSlimSql_cleans_up_witness :
  temp_names Scenario.slim Run.broken_dump
    = (Run.structure_path, Run.data_path, (temp_names Scenario.slim Run.broken_dump).2)
  ∧ (∀ d, files (Run.export Run.broken_dump).2 !! Run.structure_path ≠ Some (File d))
  ∧ dbs (Run.export Run.broken_dump).2 = dbs Run.broken_dump.
Proof.
  assert (temp_names Scenario.slim Run.broken_dump
    = (Run.structure_path, Run.data_path,
       (temp_names Scenario.slim Run.broken_dump).2)) as H1
    by (vm_compute; reflexivity).
  split; [exact H1|].
  destruct (exportSlimSql_cleans_up "shop_temp" Scenario.slim []
              (Some Scenario.recorder) [] _ _ _ _ H1) as (Hsf & _ & _ & Hdbs).
  split; [exact Hsf | exact Hdbs].
Defined.

Lemma import_progress_reaches_100_witness :
  files Scenario.calm !! Scenario.full = Some (File "INSERT INTO orders VALUES (1);")
  ∧ "INSERT INTO orders VALUES (1);" ≠ ""
  ∧ ∃ ps,
      emitted (importSql "shop_temp" Scenario.full
                 (Some (import_progress 0 1 "shop" "Importing full dump..."
                          (Z.of_nat (String.length "INSERT INTO orders VALUES (1);"))))
                 throttle0 Scenario.calm).2
      = emitted Scenario.calm
        ++ map (λ p, mkEvent 0 1 (Some "shop") "Importing full dump..." (Some p)) ps
      ∧ last ps = Some 100.
Proof.
  assert (files Scenario.calm !! Scenario.full
          = Some (File "INSERT INTO orders VALUES (1);")) as H1
    by (vm_compute; reflexivity).
  assert ("INSERT INTO orders VALUES (1);" ≠ "") as H2 by congruence.
  split; [exact H1|]. split; [exact H2|].
  destruct (import_progress_reaches_100 0 1 "shop" "Importing full dump..." "shop_temp"
              _ _ _ H1 H2) as (ps & Hps & _ & _ & Hlast).
  exists ps. split; [exact Hps|]. apply Hlast. vm_compute. reflexivity.
Defined.

(** A client that goes away after the first of two chunks: the one
    percentage sent is 50; the import fails, or never settles when the
    second chunk was being written. *)
Example import_cut_short :
  let cb := Some (import_progress 0 1 "big" "Importing full dump..." 131072) in
  let quiet := importSql "big_temp" More.big cb throttle0 (More.cut_short false) in
  let broken := importSql "big_temp" More.big cb throttle0 (More.cut_short true) in
  quiet.1 = Throw (Error "MySQL import failed: ERROR 2006: MySQL server has gone away")
  ∧ emitted quiet.2 = [mkEvent 0 1 (Some "big") "Importing full dump..." (Some 50)]
  ∧ broken.1 = Uncaught EPIPE
  ∧ emitted broken.2 = emitted quiet.2.
Proof. vm_compute. repeat split; reflexivity. Qed.

Lemma slim_start_events_in_order_witness :
  (∃ rs, slim_start "/db" [Scenario.full; Scenario.missing] None Scenario.calm
         = (Ok (mkResponse true rs),
            (slim_start "/db" [Scenario.full; Scenario.missing] None Scenario.calm).2))
  ∧ ∃ groups,
      emitted (slim_start "/db" [Scenario.full; Scenario.missing] None Scenario.calm).2
      = emitted Scenario.calm ++ concat groups ++ [complete_event 2]
      ∧ length groups = 2%nat.
Proof.
  assert (∃ rs, slim_start "/db" [Scenario.full; Scenario.missing] None Scenario.calm
         = (Ok (mkResponse true rs),
            (slim_start "/db" [Scenario.full; Scenario.missing] None Scenario.calm).2))
    as H1 by (eexists; vm_compute; reflexivity).
  split; [exact H1|]. destruct H1 as [rs H1].
  destruct (slim_start_events_in_order _ _ _ _ _ _ H1) as (groups & Hg & Hlen & _).
  exists groups. split; [exact Hg | exact Hlen].
Defined.

Lemma slim_start_fails_before_any_work_witness :
  slim_start "/db" [Scenario.full] None More.unreadable_config
    = (Throw (Error ("Slim dump failed: " +:+ message (EISDIR "read"))),
       (slim_start "/db" [Scenario.full] None More.unreadable_config).2)
  ∧ (slim_start "/db" [Scenario.full] None More.unreadable_config).2
    = More.unreadable_config.
Proof.
  assert (slim_start "/db" [Scenario.full] None More.unreadable_config
    = (Throw (Error ("Slim dump failed: " +:+ message (EISDIR "read"))),
       (slim_start "/db" [Scenario.full] None More.unreadable_config).2)) as H1
    by (vm_compute; reflexivity).
  split; [exact H1|].
  exact (proj1 (slim_start_fails_before_any_work _ _ _ _ _ _ H1)).
Defined.

Lemma cli_loop_stops_at_first_failure_witness :
  let inputs := [Scenario.full; Scenario.full; Scenario.missing] in
  let e := Error "MySQL import failed: ERROR 1064: syntax error" in
  let run := cli_loop [] inputs More.second_import_fails in
  run.1 = Throw e
  ∧ rev (log run.2)
    = [CmdExists "shop_temp"; CmdCreate "shop_temp";
       CmdImport "shop_temp" Scenario.full;
       CmdDumpStructure "shop_temp"; CmdDumpData "shop_temp" []; CmdDrop "shop_temp";
       CmdExists "shop_temp"; CmdCreate "shop_temp";
       CmdImport "shop_temp" Scenario.full;
       CmdExists "shop_temp"; CmdDrop "shop_temp"]
  ∧ ∃ pre file post w1 wf,
      inputs = pre ++ file :: post
      ∧ cli_loop [] pre More.second_import_fails = (Ok tt, w1)
      ∧ cli_steps file [] w1 = (Throw e, wf)
      ∧ cleanup file wf = (Ok tt, run.2).
Proof.
  intros inputs e run.
  assert (run = (Throw e, run.2)) as H1 by (vm_compute; reflexivity).
  split; [by rewrite H1|]. split; [vm_compute; reflexivity|].
  destruct (cli_loop_stops_at_first_failure _ _ _ _ _ H1)
    as (pre & file & post & w1 & wf & Hsplit & Hpre & Hsteps & Hc & _).
  exists pre, file, post, w1, wf.
  split; [exact Hsplit|]. split; [exact Hpre|]. split; [exact Hsteps | exact Hc].
Defined.

Lemma createSlimDump_success_witness :
  createSlimDump Scenario.full Run.excluded Scenario.calm
    = (Ok tt, (createSlimDump Scenario.full Run.excluded Scenario.calm).2)
  ∧ tempDbName Scenario.full
      ∉ dbs (createSlimDump Scenario.full Run.excluded Scenario.calm).2.
Proof.
  assert (createSlimDump Scenario.full Run.excluded Scenario.calm
          = (Ok tt, (createSlimDump Scenario.full Run.excluded Scenario.calm).2)) as H1
    by (vm_compute; reflexivity).
  split; [exact H1|].
  exact (proj1 (createSlimDump_success _ _ _ _ H1)).
Defined.

Lemma slim_start_results_in_order_witness :
  let inputs := [Scenario.full; Scenario.missing; Scenario.full] in
  let run := slim_start "/db" inputs None Scenario.failed_import in
  (∃ resp, run = (Ok resp, run.2)
     ∧ map success (results resp) = [false; false; true]
     ∧ map fileName_of (results resp) = ["shop"; "missing"; "shop"])
  ∧ rev (log run.2)
    = [CmdExists "shop_temp"; CmdCreate "shop_temp";
       CmdImport "shop_temp" Scenario.full;
       CmdExists "shop_temp"; CmdDrop "shop_temp";
       CmdExists "missing_temp"; CmdCreate "missing_temp";
       CmdExists "missing_temp"; CmdDrop "missing_temp";
       CmdExists "shop_temp"; CmdCreate "shop_temp";
       CmdImport "shop_temp" Scenario.full;
       CmdDumpStructure "shop_temp"; CmdDumpData "shop_temp" Run.excluded;
       CmdDrop "shop_temp"].
Proof.
  intros inputs run.
  assert (∃ resp, run = (Ok resp, run.2)
            ∧ map success (results resp) = [false; false; true]) as (resp & H1 & H2).
  { eexists. split; vm_compute; reflexivity. }
  split; [|vm_compute; reflexivity].
  exists resp. split; [exact H1|]. split; [exact H2|].
  exact (proj1 (proj2 (proj2 (slim_start_results_in_order _ _ _ _ _ _ H1)))).
Defined.

Lemma recreate_fails_on_lookalike_witness :
  "shop_temp" ∉ dbs More.lookalike
  ∧ "shop1temp" ∈ dbs More.lookalike
  ∧ like "shop_temp" "shop1temp" = true
  ∧ answered 2 More.lookalike
  ∧ (databaseExists "shop_temp" More.lookalike).1 = Ok true
  ∧ (slim_start "/db" [Scenario.full] None More.lookalike).1
    = Ok (mkResponse true
            [ItemFailed "shop"
               ("MySQL drop database failed: ERROR 1008 (HY000) at line 1: "
                +:+ "Can't drop database 'shop_temp'; database doesn't exist")]).
Proof.
  assert ("shop_temp" ∉ dbs More.lookalike) as H1.
  { intros H%elem_of_elements. vm_compute in H.
    apply list_elem_of_singleton in H. discriminate H. }
  assert ("shop1temp" ∈ dbs More.lookalike) as H2
    by (apply elem_of_elements; vm_compute; apply list_elem_of_here).
  assert (like "shop_temp" "shop1temp" = true) as H3 by reflexivity.
  assert (answered 2 More.lookalike) as H4 by (vm_compute; repeat constructor).
  do 4 (split; [assumption|]).
  split; [|vm_compute; reflexivity].
  exact (proj1 (recreate_fails_on_lookalike _ _ _ H1 H2 H3 H4)).
Defined.
